(** * The upgradeable BPF loader of pkg/sealevel/bpf_loader.go

    A shallow embedding of the account-state codec, of the instruction
    handlers (InitializeBuffer, Write, DeployWithMaxDataLen, Upgrade), of
    the dispatcher and of the entry point of the loaders, and of the
    assignment of slots to workers in
    cmd/radiance/blockstore/verifydata/verifydata.go; followed by the
    properties of the specification that were checked against them, and by
    further properties of the code.

    Conventions.
    - A Go [uint32]/[uint64] is a [Z]; wrap-around and saturation are written
      out where the source computes them.
    - A Go [[]byte] is a [list byte]; a [solana.PublicKey] (a [[32]byte]) is
      the list of its bytes; a [*solana.PublicKey] is an [option].
    - A Go [error] is a [GoError]; a function returning [(T, error)] returns
      a [result T]; a run-time panic (nil dereference, the [panic] of the
      marshaller) is the outcome [Panic].
    - The accounts of the transaction are one shared store inside
      [TransactionCtx]; a [BorrowedAccount] is a handle on an entry of that
      store, so two handles on one account alias, as the Go pointers do. *)

From Stdlib Require Import ZArith List Bool Lia String.
From Stdlib Require Import Strings.Byte.
From stdpp Require Import base numbers list.
Import ListNotations.
Open Scope Z_scope.

#[global] Instance byte_eq_decision : EqDecision byte := Byte.byte_eq_dec.

(** ** Errors and results *)

(** The instruction errors named by the loader, the error value of the
    binary decoder library, and the errors of host accessors that the
    loader only passes on. *)
Inductive GoError : Type :=
  | InstrErrInvalidInstructionData
  | InstrErrInvalidAccountData
  | InstrErrInvalidArgument
  | InstrErrAccountDataTooSmall
  | InstrErrAccountAlreadyInitialized
  | InstrErrImmutable
  | InstrErrIncorrectAuthority
  | InstrErrIncorrectProgramId
  | InstrErrMissingRequiredSignature
  | InstrErrAccountNotExecutable
  | InstrErrExecutableAccountNotRentExempt
  | InstrErrInsufficientFunds
  | InstrErrUnsupportedProgramId
  | ErrBinDecoder
  | ErrHost (name : string).

Inductive GoPanic : Type :=
  | NilPointerDereference
  | SliceBoundsOutOfRange
  | InvalidLoaderStatePanic
  | DanglingAccountHandle.

Inductive result (A : Type) : Type :=
  | Ok (a : A)
  | Err (e : GoError)
  | Panic (p : GoPanic).
Arguments Ok {A} a.
Arguments Err {A} e.
Arguments Panic {A} p.

(** A computation over a mutable object of type [S] that may fail: the
    decoder over the bytes left to read, the encoder over the bytes written,
    the handlers over the transaction context. The object is returned also
    on failure, since the Go code leaves its writes in place when it returns
    an error. *)
Definition SR (S A : Type) : Type := S -> result A * S.

Definition ret {S A : Type} (a : A) : SR S A := fun s => (Ok a, s).

Definition bind {S A B : Type} (m : SR S A) (k : A -> SR S B) : SR S B :=
  fun s =>
    match m s with
    | (Ok a, s') => k a s'
    | (Err e, s') => (Err e, s')
    | (Panic p, s') => (Panic p, s')
    end.

Definition fail {S A : Type} (e : GoError) : SR S A := fun s => (Err e, s).
Definition panic {S A : Type} (p : GoPanic) : SR S A := fun s => (Panic p, s).
Definition lift {S A : Type} (r : result A) : SR S A := fun s => (r, s).
Definition get {S : Type} : SR S S := fun s => (Ok s, s).
Definition put {S : Type} (s : S) : SR S unit := fun _ => (Ok tt, s).

Notation "x <- c1 ;; c2" := (bind c1 (fun x => c2))
  (at level 100, c1 at next level, right associativity).
Notation "c1 ;; c2" := (bind c1 (fun _ => c2))
  (at level 100, right associativity).

(** ** Integers of the source *)

Definition MaxUint64 : Z := 18446744073709551615.

(** Modelled from the spec: safemath.SaturatingAddU64 and
    safemath.SaturatingSubU64 (package safemath is not among the sources);
    the spec calls them saturating addition and subtraction on u64. *)
Definition SaturatingAddU64 (a b : Z) : Z :=
  if MaxUint64 <? a + b then MaxUint64 else a + b.

Definition SaturatingSubU64 (a b : Z) : Z :=
  if a <? b then 0 else a - b.

(** The Go conversion [int(x)] of a [uint64] on a 64-bit platform. *)
Definition int_of_uint64 (x : Z) : Z :=
  if x <? 2 ^ 63 then x else x - 2 ^ 64.

(** Go's [a + b] on [uint64]. *)
Definition addU64 (a b : Z) : Z := (a + b) mod 2 ^ 64.

(** ** Bytes *)

Definition byteZ (b : byte) : Z := Z.of_N (Byte.to_N b).

Definition byteOfZ (z : Z) : byte :=
  match Byte.of_N (Z.to_N (z mod 256)) with
  | Some b => b
  | None => x00
  end.

(** Little-endian value of a byte string, and the [n] little-endian bytes of
    a value. *)
Fixpoint le_decode (bs : list byte) : Z :=
  match bs with
  | [] => 0
  | b :: bs' => byteZ b + 256 * le_decode bs'
  end.

Fixpoint le_encode (n : nat) (v : Z) : list byte :=
  match n with
  | O => []
  | S n' => byteOfZ v :: le_encode n' (v / 256)
  end.

(** Go's [copy(dst, src)]: the first [min (len dst) (len src)] bytes of
    [dst] are replaced by those of [src]. *)
Definition go_copy (dst src : list byte) : list byte :=
  take (length dst) src ++ drop (length src) dst.

(** ** Public keys *)

Definition PublicKey : Type := list byte.
Definition PublicKeyLength : nat := 32.
Definition zeroPublicKey : PublicKey := replicate PublicKeyLength x00.

(** ** The binary decoder and encoder (github.com/gagliardetto/binary)

    The decoder is the byte string that remains to be read; the encoder is
    the byte string written so far. *)

Definition Decoder : Type := list byte.
Definition Encoder : Type := list byte.

Definition ReadBytes (n : nat) : SR Decoder (list byte) :=
  fun dec =>
    if (length dec <? n)%nat then (Err ErrBinDecoder, dec)
    else (Ok (take n dec), drop n dec).

Definition ReadUint32 : SR Decoder Z :=
  bs <- ReadBytes 4 ;; ret (le_decode bs).

Definition ReadUint64 : SR Decoder Z :=
  bs <- ReadBytes 8 ;; ret (le_decode bs).

(** [ReadBool] reads one byte; any non-zero byte is [true]. *)
Definition ReadBool : SR Decoder bool :=
  fun dec =>
    match dec with
    | [] => (Err ErrBinDecoder, dec)
    | b :: dec' => (Ok (negb (byteZ b =? 0)), dec')
    end.

Definition WriteBytes (bs : list byte) : SR Encoder unit :=
  fun enc => (Ok tt, enc ++ bs).

Definition WriteUint64 (v : Z) : SR Encoder unit :=
  fun enc => (Ok tt, enc ++ le_encode 8 v).

(** ** Account states (bpf_loader.go, lines 13-68) *)

Definition UpgradeableLoaderInstrTypeInitializeBuffer : Z := 0.
Definition UpgradeableLoaderInstrTypeWrite : Z := 1.
Definition UpgradeableLoaderInstrTypeDeployWithMaxDataLen : Z := 2.
Definition UpgradeableLoaderInstrTypeUpgrade : Z := 3.
Definition UpgradeableLoaderInstrTypeSetAuthority : Z := 4.
Definition UpgradeableLoaderInstrTypeClose : Z := 5.
Definition UpgradeableLoaderInstrTypeExtendProgram : Z := 6.
Definition UpgradeableLoaderInstrTypeSetAuthorityChecked : Z := 7.

Definition UpgradeableLoaderStateTypeUninitialized : Z := 0.
Definition UpgradeableLoaderStateTypeBuffer : Z := 1.
Definition UpgradeableLoaderStateTypeProgram : Z := 2.
Definition UpgradeableLoaderStateTypeProgramData : Z := 3.

Record UpgradeableLoaderInstrWrite : Type := {
  Offset : Z;
  Bytes : list byte
}.

Record UpgradeableLoaderInstrDeployWithMaxDataLen : Type := {
  MaxDataLen : Z
}.

Record UpgradeableLoaderStateBuffer : Type := {
  AuthorityAddress : option PublicKey
}.

Record UpgradeableLoaderStateProgram : Type := {
  ProgramDataAddress : PublicKey
}.

Record UpgradeableLoaderStateProgramData : Type := {
  Slot : Z;
  UpgradeAuthorityAddress : option PublicKey
}.

(** The Go struct holds every variant; [Type] says which one is meant. *)
Record UpgradeableLoaderState : Type := {
  Type_ : Z;
  Buffer : UpgradeableLoaderStateBuffer;
  Program : UpgradeableLoaderStateProgram;
  ProgramData : UpgradeableLoaderStateProgramData
}.

(** The zero values that [new(UpgradeableLoaderState)] and a composite
    literal give to the fields they do not mention. *)
Definition zeroBuffer : UpgradeableLoaderStateBuffer :=
  {| AuthorityAddress := None |}.
Definition zeroProgram : UpgradeableLoaderStateProgram :=
  {| ProgramDataAddress := zeroPublicKey |}.
Definition zeroProgramData : UpgradeableLoaderStateProgramData :=
  {| Slot := 0; UpgradeAuthorityAddress := None |}.
Definition zeroState : UpgradeableLoaderState :=
  {| Type_ := 0; Buffer := zeroBuffer; Program := zeroProgram;
     ProgramData := zeroProgramData |}.

Definition upgradeableLoaderSizeOfBufferMetaData : Z := 37.
Definition upgradeableLoaderSizeOfProgram : Z := 36.
Definition upgradeableLoaderSizeOfProgramDataMetaData : Z := 45.

Definition upgradeableLoaderSizeOfProgramData (programLen : Z) : Z :=
  SaturatingAddU64 upgradeableLoaderSizeOfProgramDataMetaData programLen.

Definition upgradeableLoaderSizeOfBuffer (programLen : Z) : Z :=
  SaturatingAddU64 upgradeableLoaderSizeOfBufferMetaData programLen.

(** ** The state codec (lines 101-272)

    An [UnmarshalWithDecoder] method fills its receiver; here it takes the
    receiver's value and returns the filled one. *)

Definition UpgradeableLoaderStateBuffer_UnmarshalWithDecoder
    (buffer : UpgradeableLoaderStateBuffer)
    : SR Decoder UpgradeableLoaderStateBuffer :=
  hasPubkey <- ReadBool ;;
  if hasPubkey : bool then
    pkBytes <- ReadBytes PublicKeyLength ;;
    ret {| AuthorityAddress := Some pkBytes |}
  else ret buffer.

Definition UpgradeableLoaderStateBuffer_MarshalWithEncoder
    (buffer : UpgradeableLoaderStateBuffer) : SR Encoder unit :=
  match AuthorityAddress buffer with
  | Some authAddr => WriteBytes authAddr
  | None => ret tt
  end.

Definition UpgradeableLoaderStateProgram_UnmarshalWithDecoder
    (program : UpgradeableLoaderStateProgram)
    : SR Decoder UpgradeableLoaderStateProgram :=
  pkBytes <- ReadBytes PublicKeyLength ;;
  ret {| ProgramDataAddress := go_copy (ProgramDataAddress program) pkBytes |}.

Definition UpgradeableLoaderStateProgram_MarshalWithEncoder
    (program : UpgradeableLoaderStateProgram) : SR Encoder unit :=
  WriteBytes (ProgramDataAddress program).

Definition UpgradeableLoaderStateProgramData_UnmarshalWithDecoder
    (programData : UpgradeableLoaderStateProgramData)
    : SR Decoder UpgradeableLoaderStateProgramData :=
  slot <- ReadUint64 ;;
  hasPubkey <- ReadBool ;;
  if hasPubkey : bool then
    pkBytes <- ReadBytes PublicKeyLength ;;
    ret {| Slot := slot; UpgradeAuthorityAddress := Some pkBytes |}
  else
    ret {| Slot := slot;
           UpgradeAuthorityAddress := UpgradeAuthorityAddress programData |}.

Definition UpgradeableLoaderStateProgramData_MarshalWithEncoder
    (programData : UpgradeableLoaderStateProgramData) : SR Encoder unit :=
  WriteUint64 (Slot programData) ;;
  match UpgradeAuthorityAddress programData with
  | Some upgradeAuthAddr => WriteBytes upgradeAuthAddr
  | None => ret tt
  end.

Definition UpgradeableLoaderState_UnmarshalWithDecoder
    (state : UpgradeableLoaderState) : SR Decoder UpgradeableLoaderState :=
  ty <- ReadUint32 ;;
  if ty =? UpgradeableLoaderStateTypeUninitialized then
    ret {| Type_ := ty; Buffer := Buffer state; Program := Program state;
           ProgramData := ProgramData state |}
  else if ty =? UpgradeableLoaderStateTypeBuffer then
    b <- UpgradeableLoaderStateBuffer_UnmarshalWithDecoder (Buffer state) ;;
    ret {| Type_ := ty; Buffer := b; Program := Program state;
           ProgramData := ProgramData state |}
  else if ty =? UpgradeableLoaderStateTypeProgram then
    p <- UpgradeableLoaderStateProgram_UnmarshalWithDecoder (Program state) ;;
    ret {| Type_ := ty; Buffer := Buffer state; Program := p;
           ProgramData := ProgramData state |}
  else if ty =? UpgradeableLoaderStateTypeProgramData then
    pd <- UpgradeableLoaderStateProgramData_UnmarshalWithDecoder
            (ProgramData state) ;;
    ret {| Type_ := ty; Buffer := Buffer state; Program := Program state;
           ProgramData := pd |}
  else fail InstrErrInvalidAccountData.

(** The marshaller writes neither [state.Type] nor a flag for the optional
    key: the source has no such write. *)
Definition UpgradeableLoaderState_MarshalWithEncoder
    (state : UpgradeableLoaderState) : SR Encoder unit :=
  if Type_ state =? UpgradeableLoaderStateTypeUninitialized then ret tt
  else if Type_ state =? UpgradeableLoaderStateTypeBuffer then
    UpgradeableLoaderStateBuffer_MarshalWithEncoder (Buffer state)
  else if Type_ state =? UpgradeableLoaderStateTypeProgram then
    UpgradeableLoaderStateProgram_MarshalWithEncoder (Program state)
  else if Type_ state =? UpgradeableLoaderStateTypeProgramData then
    UpgradeableLoaderStateProgramData_MarshalWithEncoder (ProgramData state)
  else panic InvalidLoaderStatePanic.

(** Every decoder error becomes [InstrErrInvalidAccountData]. *)
Definition unmarshalUpgradeableLoaderState (data : list byte)
    : result UpgradeableLoaderState :=
  match UpgradeableLoaderState_UnmarshalWithDecoder zeroState data with
  | (Ok state, _) => Ok state
  | (Err _, _) => Err InstrErrInvalidAccountData
  | (Panic p, _) => Panic p
  end.

Definition marshalUpgradeableLoaderState (state : UpgradeableLoaderState)
    : result (list byte) :=
  match UpgradeableLoaderState_MarshalWithEncoder state [] with
  | (Ok _, buffer) => Ok buffer
  | (Err e, _) => Err e
  | (Panic p, _) => Panic p
  end.

(** ** The host: accounts, transaction and instruction contexts

    The files that declare [ExecutionCtx], [TransactionCtx],
    [InstructionCtx] and [BorrowedAccount] are not among the sources. Their
    data is modelled from the interface the spec lists for them (section 6)
    and from the way bpf_loader.go calls them. *)

(** Modelled from the spec: the Account entity of section 3, with the
    attributes that do not depend on the instruction: key, owner, lamports,
    data and the executable flag. *)
Record Account : Type := {
  Key : PublicKey;
  Owner : PublicKey;
  Lamports : Z;
  Data : list byte;
  Executable : bool
}.

(** Modelled from the spec: the entry of an account in an instruction,
    which says where the account sits in the transaction
    (IndexOfInstructionAccountInTransaction) and whether it signed
    (IsInstructionAccountSigner) and is writable there. *)
Record InstructionAccount : Type := {
  IndexInTransaction : nat;
  IsSigner : bool;
  IsWritable : bool
}.

(** Modelled from the spec: InstructionCtx, with the id of the program being
    executed, the instruction accounts and the instruction data. *)
Record InstructionCtx : Type := {
  ProgramKey : PublicKey;
  InstructionAccounts : list InstructionAccount;
  InstrData : list byte
}.

(** Modelled from the spec: TransactionCtx. [Accounts] is the store every
    borrowed account points into. *)
Record TransactionCtx : Type := {
  Accounts : list Account;
  CurrentInstruction : option InstructionCtx
}.

(** Modelled from the spec: the feature gates, "a read-only map consulted
    at decision points", with the one gate the loader consults. *)
Inductive Feature : Type :=
  | DeprecateExecutableMetaUpdateInBpfLoader.

Definition Features : Type := Feature -> bool.
Definition IsActive (f : Features) (x : Feature) : bool := f x.

(** Modelled from the spec: the rent and clock sysvars, as far as the loader
    reads them. MinimumBalance is computed in floating point by the host; it
    is taken as a function of the data length. *)
Record SysvarRent : Type := {
  MinimumBalance : Z -> Z
}.

Record SysvarClock : Type := {
  ClockSlot : Z
}.

(** Modelled from the spec: ExecutionCtx, as far as the loader reads it.
    Its TransactionContext is the transaction context the handlers run
    over. *)
Record ExecutionCtx : Type := {
  GlobalCtx_Features : Features;
  RentSysvar : SysvarRent;
  ClockSysvar : SysvarClock
}.

(** Modelled from the spec: BorrowedAccount. A borrowed account is a handle:
    the instruction's entry for it. The source never releases a borrow, and
    [writeProgramData] borrows instruction account 0 while
    [UpgradeableLoaderWrite] still holds it, so a borrow does not lock the
    account. *)
Definition BorrowedAccount : Type := InstructionAccount.

(** Handlers run over the transaction context. *)
Definition M (A : Type) : Type := SR TransactionCtx A.

(** Modelled from the spec: the instruction handed to NativeInvoke, with the
    AccountMeta the source appends to it (line 599). *)
Record AccountMeta : Type := {
  Pubkey : PublicKey;
  MetaIsSigner : bool;
  MetaIsWritable : bool
}.

Record Instruction : Type := {
  InstructionProgramId : PublicKey;
  InstructionAccountMetas : list AccountMeta;
  InstructionData : list byte
}.

(** What a handler asks the host to change on a borrowed account. *)
Inductive Mutation : Type :=
  | MutSetState (f : Features) (data : list byte)
  | MutCheckedAddLamports (lamports : Z) (f : Features)
  | MutSetLamports (lamports : Z) (f : Features)
  | MutSetDataLength (len : Z) (f : Features)
  | MutSetExecutable (exe : bool).

(** What bpf_loader.go uses and neither the sources nor the spec define:
    constants, library functions, the nested invocation, and the conditions
    under which the host refuses a change to an account (writability,
    ownership and the like). They are parameters of the development. *)
Record Host : Type := {
  MaxPermittedDataLength : Z;
  SysvarRentAddr : PublicKey;
  SysvarClockAddr : PublicKey;
  FindProgramAddress : list (list byte) -> PublicKey -> PublicKey * byte;
  CreateProgramAddress : list (list byte) -> PublicKey -> result PublicKey;
  newCreateAccountInstruction :
    PublicKey -> PublicKey -> Z -> Z -> PublicKey -> Instruction;
  NativeInvoke : ExecutionCtx -> Instruction -> list PublicKey -> M unit;
  Refuses : BorrowedAccount -> Mutation -> TransactionCtx -> option GoError;
  ReadByteSlice : SR Decoder (list byte)
}.

(** The spec names no error for an instruction or transaction index out of
    range, for a missing current instruction, or for an overflow of the
    checked addition; these are errors of the host outside the loader's
    taxonomy. *)
Definition NotEnoughAccountKeys : GoError := ErrHost "NotEnoughAccountKeys".
Definition CallDepth : GoError := ErrHost "CallDepth".
Definition ArithmeticOverflow : GoError := ErrHost "ArithmeticOverflow".

(** Modelled from the spec: TransactionCtx.CurrentInstructionCtx, the
    instruction being executed. *)
Definition CurrentInstructionCtx : M InstructionCtx :=
  fun txCtx =>
    match CurrentInstruction txCtx with
    | Some instrCtx => (Ok instrCtx, txCtx)
    | None => (Err CallDepth, txCtx)
    end.

(** Modelled from the spec: InstructionCtx.CheckNumOfInstructionAccounts,
    which guards account-index access. *)
Definition CheckNumOfInstructionAccounts (instrCtx : InstructionCtx) (n : nat)
    : M unit :=
  if (length (InstructionAccounts instrCtx) <? n)%nat
  then fail NotEnoughAccountKeys else ret tt.

(** Modelled from the spec:
    InstructionCtx.IndexOfInstructionAccountInTransaction. *)
Definition IndexOfInstructionAccountInTransaction
    (instrCtx : InstructionCtx) (i : nat) : M nat :=
  match InstructionAccounts instrCtx !! i with
  | Some ia => ret (IndexInTransaction ia)
  | None => fail NotEnoughAccountKeys
  end.

(** Modelled from the spec: TransactionCtx.KeyOfAccountAtIndex. *)
Definition KeyOfAccountAtIndex (idx : nat) : M PublicKey :=
  fun txCtx =>
    match Accounts txCtx !! idx with
    | Some a => (Ok (Key a), txCtx)
    | None => (Err NotEnoughAccountKeys, txCtx)
    end.

(** Modelled from the spec: InstructionCtx.IsInstructionAccountSigner. *)
Definition IsInstructionAccountSigner (instrCtx : InstructionCtx) (i : nat)
    : M bool :=
  match InstructionAccounts instrCtx !! i with
  | Some ia => ret (IsSigner ia)
  | None => fail NotEnoughAccountKeys
  end.

(** Modelled from the spec: InstructionCtx.LastProgramKey, the id of the
    program being executed. *)
Definition LastProgramKey (instrCtx : InstructionCtx) : M PublicKey :=
  ret (ProgramKey instrCtx).

(** Modelled from the spec: InstructionCtx.BorrowInstructionAccount. *)
Definition BorrowInstructionAccount (instrCtx : InstructionCtx) (i : nat)
    : M BorrowedAccount :=
  fun txCtx =>
    match InstructionAccounts instrCtx !! i with
    | Some ia =>
        match Accounts txCtx !! IndexInTransaction ia with
        | Some _ => (Ok ia, txCtx)
        | None => (Err NotEnoughAccountKeys, txCtx)
        end
    | None => (Err NotEnoughAccountKeys, txCtx)
    end.

(** Modelled from the spec: reading the account a handle points to. A handle
    is obtained from a successful borrow, so the account exists. *)
Definition readAccount (acct : BorrowedAccount) : M Account :=
  fun txCtx =>
    match Accounts txCtx !! IndexInTransaction acct with
    | Some a => (Ok a, txCtx)
    | None => (Panic DanglingAccountHandle, txCtx)
    end.

(** Modelled from the spec: the transaction with the account at index [idx]
    replaced, and the write through a handle. *)
Definition withAccount (idx : nat) (a : Account) (txCtx : TransactionCtx)
    : TransactionCtx :=
  {| Accounts := <[idx := a]> (Accounts txCtx);
     CurrentInstruction := CurrentInstruction txCtx |}.

Definition writeAccount (acct : BorrowedAccount) (a : Account) : M unit :=
  fun txCtx => (Ok tt, withAccount (IndexInTransaction acct) a txCtx).

(** Modelled from the spec: the reading methods of BorrowedAccount (Data,
    Lamports, Key, Owner, IsExecutable, IsWritable). *)
Definition BorrowedAccount_Data (acct : BorrowedAccount) : M (list byte) :=
  a <- readAccount acct ;; ret (Data a).
Definition BorrowedAccount_Lamports (acct : BorrowedAccount) : M Z :=
  a <- readAccount acct ;; ret (Lamports a).
Definition BorrowedAccount_Key (acct : BorrowedAccount) : M PublicKey :=
  a <- readAccount acct ;; ret (Key a).
Definition BorrowedAccount_Owner (acct : BorrowedAccount) : M PublicKey :=
  a <- readAccount acct ;; ret (Owner a).
Definition BorrowedAccount_IsExecutable (acct : BorrowedAccount) : M bool :=
  a <- readAccount acct ;; ret (Executable a).
Definition BorrowedAccount_IsWritable (acct : BorrowedAccount) : M bool :=
  ret (IsWritable acct).

(** A direct write to [acct.Account.Data]. *)
Definition setAccountData (acct : BorrowedAccount) (data : list byte)
    : M unit :=
  a <- readAccount acct ;;
  writeAccount acct
    {| Key := Key a; Owner := Owner a; Lamports := Lamports a; Data := data;
       Executable := Executable a |}.

(** Go's slice expression [s[lo:hi]]; the capacity of an account's data is
    taken to be its length. *)
Definition go_slice (s : list byte) (lo hi : Z) : result (list byte) :=
  if (0 <=? lo) && (lo <=? hi) && (hi <=? Z.of_nat (length s))
  then Ok (take (Z.to_nat (hi - lo)) (drop (Z.to_nat lo) s))
  else Panic SliceBoundsOutOfRange.

(** [copy(s[lo:hi], src)] as a new value of [s]. *)
Definition copy_into_slice (s : list byte) (lo hi : Z) (src : list byte)
    : result (list byte) :=
  match go_slice s lo hi with
  | Ok dst =>
      Ok (take (Z.to_nat lo) s ++ go_copy dst src ++ drop (Z.to_nat hi) s)
  | Err e => Err e
  | Panic p => Panic p
  end.

Definition len (s : list byte) : Z := Z.of_nat (length s).

Section Loader.

Variable host : Host.

(** ** Changes to a borrowed account

    Each accessor first lets the host refuse; otherwise it changes the one
    account the handle points to. *)

Definition mutate (acct : BorrowedAccount) (mut : Mutation)
    (change : Account -> result Account) : M unit :=
  fun txCtx =>
    match Refuses host acct mut txCtx with
    | Some e => (Err e, txCtx)
    | None =>
        match Accounts txCtx !! IndexInTransaction acct with
        | None => (Panic DanglingAccountHandle, txCtx)
        | Some a =>
            match change a with
            | Ok a' => writeAccount acct a' txCtx
            | Err e => (Err e, txCtx)
            | Panic p => (Panic p, txCtx)
            end
        end
    end.

(** Modelled from the spec: BorrowedAccount.SetState. "The codec writes into
    the prefix of the host-provided account data buffer"; the bytes beyond
    the prefix stay. *)
Definition SetState (acct : BorrowedAccount) (f : Features) (data : list byte)
    : M unit :=
  mutate acct (MutSetState f data)
    (fun a =>
       Ok {| Key := Key a; Owner := Owner a; Lamports := Lamports a;
             Data := go_copy (Data a) data; Executable := Executable a |}).

(** Modelled from the spec: BorrowedAccount.CheckedAddLamports, a checked
    addition on u64. *)
Definition CheckedAddLamports (acct : BorrowedAccount) (lamports : Z)
    (f : Features) : M unit :=
  mutate acct (MutCheckedAddLamports lamports f)
    (fun a =>
       if MaxUint64 <? Lamports a + lamports then Err ArithmeticOverflow
       else
         Ok {| Key := Key a; Owner := Owner a;
               Lamports := Lamports a + lamports; Data := Data a;
               Executable := Executable a |}).

(** Modelled from the spec: BorrowedAccount.SetLamports. *)
Definition SetLamports (acct : BorrowedAccount) (lamports : Z) (f : Features)
    : M unit :=
  mutate acct (MutSetLamports lamports f)
    (fun a =>
       Ok {| Key := Key a; Owner := Owner a; Lamports := lamports;
             Data := Data a; Executable := Executable a |}).

(** Modelled from the spec: BorrowedAccount.SetDataLength; the data is
    truncated, or extended with zero bytes, to the new length. *)
Definition SetDataLength (acct : BorrowedAccount) (newLen : Z) (f : Features)
    : M unit :=
  mutate acct (MutSetDataLength newLen f)
    (fun a =>
       let n := Z.to_nat newLen in
       Ok {| Key := Key a; Owner := Owner a; Lamports := Lamports a;
             Data := take n (Data a) ++ replicate (n - length (Data a)) x00;
             Executable := Executable a |}).

(** Modelled from the spec: BorrowedAccount.SetExecutable. *)
Definition SetExecutable (acct : BorrowedAccount) (exe : bool) : M unit :=
  mutate acct (MutSetExecutable exe)
    (fun a =>
       Ok {| Key := Key a; Owner := Owner a; Lamports := Lamports a;
             Data := Data a; Executable := exe |}).

(** A call whose returned error the source drops. *)
Definition ignore_error {A : Type} (m : M A) : M unit :=
  fun txCtx =>
    match m txCtx with
    | (Ok _, txCtx') => (Ok tt, txCtx')
    | (Err _, txCtx') => (Ok tt, txCtx')
    | (Panic p, txCtx') => (Panic p, txCtx')
    end.

(** Modelled from the spec: ReadRentSysvar and ReadClockSysvar. *)
Definition ReadRentSysvar (execCtx : ExecutionCtx) : SysvarRent :=
  RentSysvar execCtx.
Definition ReadClockSysvar (execCtx : ExecutionCtx) : SysvarClock :=
  ClockSysvar execCtx.

(** Modelled from the spec: checkAcctForRentSysvar and
    checkAcctForClockSysvar; the sysvar's "index position is validated
    (else InvalidArgument)". *)
Definition checkAcctForSysvar (addr : PublicKey) (instrCtx : InstructionCtx)
    (instrAcctIdx : nat) : M unit :=
  idx <- IndexOfInstructionAccountInTransaction instrCtx instrAcctIdx ;;
  key <- KeyOfAccountAtIndex idx ;;
  if bool_decide (key = addr) then ret tt else fail InstrErrInvalidArgument.

Definition checkAcctForRentSysvar := checkAcctForSysvar (SysvarRentAddr host).
Definition checkAcctForClockSysvar := checkAcctForSysvar (SysvarClockAddr host).

(** ** Instruction payloads (lines 78-93) *)

Definition UpgradeableLoaderInstrWrite_UnmarshalWithDecoder
    : SR Decoder UpgradeableLoaderInstrWrite :=
  offset <- ReadUint32 ;;
  bytes <- ReadByteSlice host ;;
  ret {| Offset := offset; Bytes := bytes |}.

Definition UpgradeableLoaderInstrDeployWithMaxDataLen_UnmarshalWithDecoder
    : SR Decoder UpgradeableLoaderInstrDeployWithMaxDataLen :=
  maxDataLen <- ReadUint64 ;;
  ret {| MaxDataLen := maxDataLen |}.

(** ** Writing a state and program bytes (lines 274-304) *)

Definition setUpgradeableLoaderAccountState (acct : BorrowedAccount)
    (state : UpgradeableLoaderState) (f : Features) : M unit :=
  acctStateBytes <- lift (marshalUpgradeableLoaderState state) ;;
  SetState acct f acctStateBytes.

Definition writeProgramData (execCtx : ExecutionCtx) (programDataOffset : Z)
    (bytes : list byte) : M unit :=
  instrCtx <- CurrentInstructionCtx ;;
  program <- BorrowInstructionAccount instrCtx 0 ;;
  let writeOffset := SaturatingAddU64 programDataOffset (len bytes) in
  programData_ <- BorrowedAccount_Data program ;;
  if len programData_ <? writeOffset then fail InstrErrAccountDataTooSmall
  else
    data <- BorrowedAccount_Data program ;;
    data' <- lift (copy_into_slice data programDataOffset writeOffset bytes) ;;
    setAccountData program data'.

(** ** InitializeBuffer (lines 355-391) *)

Definition UpgradeableLoaderInitializeBuffer (execCtx : ExecutionCtx)
    (instrCtx : InstructionCtx) : M unit :=
  CheckNumOfInstructionAccounts instrCtx 2 ;;
  buffer <- BorrowInstructionAccount instrCtx 0 ;;
  bufferData <- BorrowedAccount_Data buffer ;;
  state <- lift (unmarshalUpgradeableLoaderState bufferData) ;;
  if negb (Type_ state =? UpgradeableLoaderStateTypeUninitialized)
  then fail InstrErrAccountAlreadyInitialized
  else
    authorityKeyIdx <- IndexOfInstructionAccountInTransaction instrCtx 1 ;;
    authorityKey <- KeyOfAccountAtIndex authorityKeyIdx ;;
    let state :=
      {| Type_ := UpgradeableLoaderStateTypeBuffer;
         Buffer := {| AuthorityAddress := Some authorityKey |};
         Program := Program state;
         ProgramData := ProgramData state |} in
    setUpgradeableLoaderAccountState buffer state (GlobalCtx_Features execCtx).

(** ** Write (lines 393-444) *)

Definition UpgradeableLoaderWrite (execCtx : ExecutionCtx)
    (instrCtx : InstructionCtx) (write : UpgradeableLoaderInstrWrite) : M unit :=
  CheckNumOfInstructionAccounts instrCtx 2 ;;
  buffer <- BorrowInstructionAccount instrCtx 0 ;;
  bufferData <- BorrowedAccount_Data buffer ;;
  state <- lift (unmarshalUpgradeableLoaderState bufferData) ;;
  (if Type_ state =? UpgradeableLoaderStateTypeBuffer then
     match AuthorityAddress (Buffer state) with
     | None => fail InstrErrImmutable
     | Some bufferAuthority =>
         authorityKeyIdx <- IndexOfInstructionAccountInTransaction instrCtx 1 ;;
         authorityKey <- KeyOfAccountAtIndex authorityKeyIdx ;;
         if negb (bool_decide (bufferAuthority = authorityKey))
         then fail InstrErrIncorrectAuthority
         else
           isSigner <- IsInstructionAccountSigner instrCtx 1 ;;
           if negb isSigner then fail InstrErrMissingRequiredSignature
           else ret tt
     end
   else fail InstrErrInvalidAccountData) ;;
  writeProgramData execCtx
    (addU64 upgradeableLoaderSizeOfBufferMetaData (Offset write))
    (Bytes write).

(** ** DeployWithMaxDataLen (lines 446-670) *)

Definition UpgradeableLoaderDeployWithMaxDataLen (execCtx : ExecutionCtx)
    (instrCtx : InstructionCtx)
    (deploy : UpgradeableLoaderInstrDeployWithMaxDataLen) : M unit :=
  let f := GlobalCtx_Features execCtx in
  CheckNumOfInstructionAccounts instrCtx 4 ;;
  payerKeyIdx <- IndexOfInstructionAccountInTransaction instrCtx 0 ;;
  payerKey <- KeyOfAccountAtIndex payerKeyIdx ;;
  programDataKeyIdx <- IndexOfInstructionAccountInTransaction instrCtx 1 ;;
  programDataKey <- KeyOfAccountAtIndex programDataKeyIdx ;;
  let rent := ReadRentSysvar execCtx in
  checkAcctForRentSysvar instrCtx 4 ;;
  let clock := ReadClockSysvar execCtx in
  checkAcctForClockSysvar instrCtx 5 ;;
  CheckNumOfInstructionAccounts instrCtx 8 ;;
  (* the authority key is read from instruction account 1 (line 488) *)
  authorityKey <-
    (fun txCtx =>
       match IndexOfInstructionAccountInTransaction instrCtx 1 txCtx with
       | (Ok authorityIdx, txCtx') =>
           (k <- KeyOfAccountAtIndex authorityIdx ;; ret (Some k)) txCtx'
       | (Err _, txCtx') => (Ok None, txCtx')
       | (Panic p, txCtx') => (Panic p, txCtx')
       end) ;;
  (* validate program account *)
  program <- BorrowInstructionAccount instrCtx 2 ;;
  programData_ <- BorrowedAccount_Data program ;;
  programAcctState <- lift (unmarshalUpgradeableLoaderState programData_) ;;
  if negb (Type_ programAcctState =? UpgradeableLoaderStateTypeUninitialized)
  then fail InstrErrAccountAlreadyInitialized
  else
  programData_ <- BorrowedAccount_Data program ;;
  if len programData_ <? upgradeableLoaderSizeOfProgram
  then fail InstrErrAccountDataTooSmall
  else
  programLamports <- BorrowedAccount_Lamports program ;;
  programData_ <- BorrowedAccount_Data program ;;
  if programLamports <? MinimumBalance rent (len programData_)
  then fail InstrErrExecutableAccountNotRentExempt
  else
  newProgramId <- BorrowedAccount_Key program ;;
  (* validate buffer account; the state is decoded from program.Data()
     (line 528) *)
  buffer <- BorrowInstructionAccount instrCtx 3 ;;
  programData_ <- BorrowedAccount_Data program ;;
  bufferAcctState <- lift (unmarshalUpgradeableLoaderState programData_) ;;
  if negb (Type_ bufferAcctState =? UpgradeableLoaderStateTypeBuffer)
  then fail InstrErrInvalidArgument
  else
  if match AuthorityAddress (Buffer bufferAcctState), authorityKey with
     | Some bufferAuthority, Some authority =>
         negb (bool_decide (bufferAuthority = authority))
     | _, _ => false
     end
  then fail InstrErrIncorrectAuthority
  else
  isSigner <- IsInstructionAccountSigner instrCtx 7 ;;
  if negb isSigner then fail InstrErrMissingRequiredSignature
  else
  bufferKey <- BorrowedAccount_Key buffer ;;
  let bufferDataOffset := upgradeableLoaderSizeOfBufferMetaData in
  bufferData <- BorrowedAccount_Data buffer ;;
  let bufferDataLen := SaturatingSubU64 (len bufferData) bufferDataOffset in
  let programDataDataOffset := upgradeableLoaderSizeOfProgramDataMetaData in
  let programDataLen := upgradeableLoaderSizeOfProgramData (MaxDataLen deploy) in
  bufferData <- BorrowedAccount_Data buffer ;;
  if (len bufferData <? upgradeableLoaderSizeOfBufferMetaData)
     || (bufferDataLen =? 0)
  then fail InstrErrInvalidAccountData
  else
  if MaxDataLen deploy <? bufferDataLen then fail InstrErrAccountDataTooSmall
  else
  if MaxPermittedDataLength host <? programDataLen
  then fail InstrErrInvalidArgument
  else
  let seed := [go_copy (replicate PublicKeyLength x00) newProgramId] in
  programId <- LastProgramKey instrCtx ;;
  let '(derivedAddr, bumpSeed) := FindProgramAddress host seed programId in
  if negb (bool_decide (derivedAddr = programDataKey))
  then fail InstrErrInvalidArgument
  else
  payer <- BorrowInstructionAccount instrCtx 0 ;;
  bufferLamports <- BorrowedAccount_Lamports buffer ;;
  ignore_error (CheckedAddLamports payer bufferLamports f) ;;
  ignore_error (SetLamports buffer 0 f) ;;
  let minBalance := MinimumBalance rent programDataLen in
  let lamports := if 1 <? minBalance then minBalance else 1 in
  let createAcctInstr :=
    newCreateAccountInstruction host payerKey programDataKey lamports
      programDataLen programId in
  let createAcctInstr :=
    {| InstructionProgramId := InstructionProgramId createAcctInstr;
       InstructionAccountMetas :=
         InstructionAccountMetas createAcctInstr ++
         [{| Pubkey := bufferKey; MetaIsSigner := false;
             MetaIsWritable := true |}];
       InstructionData := InstructionData createAcctInstr |} in
  callerProgramId <- LastProgramKey instrCtx ;;
  let seeds := [newProgramId; [bumpSeed]] in
  signer <- lift (CreateProgramAddress host seeds callerProgramId) ;;
  let signers := [signer] in
  NativeInvoke host execCtx createAcctInstr signers ;;
  programData <- BorrowInstructionAccount instrCtx 1 ;;
  let programDataState :=
    {| Type_ := UpgradeableLoaderStateTypeProgramData;
       Buffer := zeroBuffer; Program := zeroProgram;
       ProgramData := {| Slot := ClockSlot clock;
                         UpgradeAuthorityAddress := authorityKey |} |} in
  setUpgradeableLoaderAccountState programData programDataState f ;;
  let dstEnd := SaturatingAddU64 programDataDataOffset bufferDataLen in
  pdData <- BorrowedAccount_Data programData ;;
  if len pdData <? dstEnd then fail InstrErrAccountDataTooSmall
  else
  pdData <- BorrowedAccount_Data programData ;;
  if len pdData <? bufferDataOffset then fail InstrErrAccountDataTooSmall
  else
  pdData <- BorrowedAccount_Data programData ;;
  bufferData <- BorrowedAccount_Data buffer ;;
  srcSlice <- lift (go_slice bufferData bufferDataOffset (len bufferData)) ;;
  pdData' <- lift (copy_into_slice pdData programDataDataOffset dstEnd srcSlice) ;;
  setAccountData programData pdData' ;;
  SetDataLength buffer (upgradeableLoaderSizeOfBuffer 0) f ;;
  let programState :=
    {| Type_ := UpgradeableLoaderStateTypeProgram;
       Buffer := zeroBuffer;
       Program := {| ProgramDataAddress := programDataKey |};
       ProgramData := zeroProgramData |} in
  setUpgradeableLoaderAccountState program programState f ;;
  if negb (IsActive f DeprecateExecutableMetaUpdateInBpfLoader)
  then SetExecutable program true
  else ret tt.

(** ** Upgrade (lines 672-875)

    The function is given in two parts that run one after the other: the
    checks up to the funds check (lines 673-794), which yield the locals the
    rest needs, and the part from the decoding of the program-data state on
    (lines 796-875). *)

Record UpgradeLocals : Type := {
  loc_clock : SysvarClock;
  loc_authorityKey : PublicKey;
  loc_buffer : BorrowedAccount;
  loc_bufferLamports : Z;
  loc_bufferDataOffset : Z;
  loc_bufferDataLen : Z;
  loc_programData : BorrowedAccount;
  loc_programDataBalanceRequired : Z
}.

Definition UpgradeableLoaderUpgrade_checks (execCtx : ExecutionCtx)
    (instrCtx : InstructionCtx) : M UpgradeLocals :=
  CheckNumOfInstructionAccounts instrCtx 3 ;;
  programDataKeyIdx <- IndexOfInstructionAccountInTransaction instrCtx 0 ;;
  programDataKey <- KeyOfAccountAtIndex programDataKeyIdx ;;
  let rent := ReadRentSysvar execCtx in
  checkAcctForRentSysvar instrCtx 4 ;;
  let clock := ReadClockSysvar execCtx in
  checkAcctForClockSysvar instrCtx 5 ;;
  CheckNumOfInstructionAccounts instrCtx 7 ;;
  authorityKeyIdx <- IndexOfInstructionAccountInTransaction instrCtx 6 ;;
  authorityKey <- KeyOfAccountAtIndex authorityKeyIdx ;;
  program <- BorrowInstructionAccount instrCtx 1 ;;
  programIsExecutable <- BorrowedAccount_IsExecutable program ;;
  if negb programIsExecutable then fail InstrErrAccountNotExecutable
  else
  programIsWritable <- BorrowedAccount_IsWritable program ;;
  if negb programIsWritable then fail InstrErrInvalidArgument
  else
  programId <- LastProgramKey instrCtx ;;
  programOwner <- BorrowedAccount_Owner program ;;
  if negb (bool_decide (programOwner = programId))
  then fail InstrErrIncorrectProgramId
  else
  programData_ <- BorrowedAccount_Data program ;;
  programState <- lift (unmarshalUpgradeableLoaderState programData_) ;;
  (if Type_ programState =? UpgradeableLoaderStateTypeProgram then
     if negb (bool_decide
                (ProgramDataAddress (Program programState) = programDataKey))
     then fail InstrErrInvalidArgument
     else ret tt
   else fail InstrErrInvalidAccountData) ;;
  buffer <- BorrowInstructionAccount instrCtx 2 ;;
  bufferData <- BorrowedAccount_Data buffer ;;
  (* the error of this call is not looked at (line 752); when it fails
     bufferState is nil and reading bufferState.Type dereferences it *)
  bufferState <-
    match unmarshalUpgradeableLoaderState bufferData with
    | Ok bufferState => ret bufferState
    | Err _ => panic NilPointerDereference
    | Panic p => panic p
    end ;;
  (if Type_ bufferState =? UpgradeableLoaderStateTypeBuffer then
     if match AuthorityAddress (Buffer bufferState) with
        | None => true
        | Some bufferAuthority =>
            negb (bool_decide (bufferAuthority = authorityKey))
        end
     then fail InstrErrIncorrectAuthority
     else
       isSigner <- IsInstructionAccountSigner instrCtx 6 ;;
       if negb isSigner then fail InstrErrMissingRequiredSignature
       else ret tt
   else fail InstrErrInvalidArgument) ;;
  bufferLamports <- BorrowedAccount_Lamports buffer ;;
  let bufferDataOffset := upgradeableLoaderSizeOfBufferMetaData in
  bufferData <- BorrowedAccount_Data buffer ;;
  let bufferDataLen := SaturatingSubU64 (len bufferData) bufferDataOffset in
  bufferData <- BorrowedAccount_Data buffer ;;
  if (len bufferData <? upgradeableLoaderSizeOfBufferMetaData)
     || (bufferDataLen =? 0)
  then fail InstrErrInvalidAccountData
  else
  programData <- BorrowInstructionAccount instrCtx 0 ;;
  pdData <- BorrowedAccount_Data programData ;;
  let minBalance := MinimumBalance rent (len pdData) in
  let programDataBalanceRequired :=
    if 1 <? minBalance then minBalance else 1 in
  pdData <- BorrowedAccount_Data programData ;;
  if len pdData <?
     int_of_uint64 (upgradeableLoaderSizeOfProgramData bufferDataLen)
  then fail InstrErrAccountDataTooSmall
  else
  pdLamports <- BorrowedAccount_Lamports programData ;;
  if SaturatingAddU64 pdLamports bufferLamports <? programDataBalanceRequired
  then fail InstrErrInsufficientFunds
  else
  ret {| loc_clock := clock;
         loc_authorityKey := authorityKey;
         loc_buffer := buffer;
         loc_bufferLamports := bufferLamports;
         loc_bufferDataOffset := bufferDataOffset;
         loc_bufferDataLen := bufferDataLen;
         loc_programData := programData;
         loc_programDataBalanceRequired := programDataBalanceRequired |}.

Definition UpgradeableLoaderUpgrade_commit (execCtx : ExecutionCtx)
    (instrCtx : InstructionCtx) (loc : UpgradeLocals) : M unit :=
  let f := GlobalCtx_Features execCtx in
  let clock := loc_clock loc in
  let authorityKey := loc_authorityKey loc in
  let buffer := loc_buffer loc in
  let bufferLamports := loc_bufferLamports loc in
  let bufferDataOffset := loc_bufferDataOffset loc in
  let bufferDataLen := loc_bufferDataLen loc in
  let programData := loc_programData loc in
  let programDataBalanceRequired := loc_programDataBalanceRequired loc in
  pdData <- BorrowedAccount_Data programData ;;
  programDataState <- lift (unmarshalUpgradeableLoaderState pdData) ;;
  (if Type_ programDataState =? UpgradeableLoaderStateTypeProgramData then
     if ClockSlot clock =? Slot (ProgramData programDataState)
     then fail InstrErrInvalidArgument
     else
       match UpgradeAuthorityAddress (ProgramData programDataState) with
       | None => fail InstrErrImmutable
       | Some upgradeAuthority =>
           if negb (bool_decide (upgradeAuthority = authorityKey))
           then fail InstrErrIncorrectAuthority
           else
             isSigner <- IsInstructionAccountSigner instrCtx 6 ;;
             if negb isSigner then fail InstrErrMissingRequiredSignature
             else ret tt
       end
   else fail InstrErrInvalidAccountData) ;;
  (* the literal of line 824 gives no Type: it is the zero value *)
  let programDataNewState :=
    {| Type_ := 0; Buffer := zeroBuffer; Program := zeroProgram;
       ProgramData := {| Slot := ClockSlot clock;
                         UpgradeAuthorityAddress := Some authorityKey |} |} in
  setUpgradeableLoaderAccountState programData programDataNewState f ;;
  let programDataDataOffset := upgradeableLoaderSizeOfProgramDataMetaData in
  let dstEnd := SaturatingAddU64 programDataDataOffset bufferDataLen in
  pdData <- BorrowedAccount_Data programData ;;
  if len pdData <? dstEnd then fail InstrErrAccountDataTooSmall
  else
  pdData <- BorrowedAccount_Data programData ;;
  if len pdData <? bufferDataOffset then fail InstrErrAccountDataTooSmall
  else
  pdData <- BorrowedAccount_Data programData ;;
  bufferData <- BorrowedAccount_Data buffer ;;
  srcSlice <- lift (go_slice bufferData bufferDataOffset (len bufferData)) ;;
  pdData' <- lift (copy_into_slice pdData programDataDataOffset dstEnd srcSlice) ;;
  setAccountData programData pdData' ;;
  pdData <- BorrowedAccount_Data programData ;;
  programDataFillSlice <- lift (go_slice pdData dstEnd (len pdData)) ;;
  setAccountData programData
    (take (Z.to_nat dstEnd) pdData ++
     replicate (length programDataFillSlice) x00) ;;
  spill <- BorrowInstructionAccount instrCtx 3 ;;
  pdLamports <- BorrowedAccount_Lamports programData ;;
  let spillLamports :=
    SaturatingSubU64 (SaturatingAddU64 pdLamports bufferLamports)
      programDataBalanceRequired in
  CheckedAddLamports spill spillLamports f ;;
  SetLamports buffer 0 f ;;
  SetLamports programData programDataBalanceRequired f ;;
  SetDataLength buffer (upgradeableLoaderSizeOfBuffer 0) f ;;
  ret tt.

Definition UpgradeableLoaderUpgrade (execCtx : ExecutionCtx)
    (instrCtx : InstructionCtx) : M unit :=
  loc <- UpgradeableLoaderUpgrade_checks execCtx instrCtx ;;
  UpgradeableLoaderUpgrade_commit execCtx instrCtx loc.

(** ** The dispatcher (lines 877-931) *)

Definition ProcessUpgradeableLoaderInstruction (execCtx : ExecutionCtx)
    : M unit :=
  instrCtx <- CurrentInstructionCtx ;;
  let instrData := InstrData instrCtx in
  match ReadUint32 instrData with
  | (Panic p, _) => panic p
  | (Err _, _) => fail InstrErrInvalidInstructionData
  | (Ok instrType, decoder) =>
      if instrType =? UpgradeableLoaderInstrTypeInitializeBuffer then
        UpgradeableLoaderInitializeBuffer execCtx instrCtx
      else if instrType =? UpgradeableLoaderInstrTypeWrite then
        match UpgradeableLoaderInstrWrite_UnmarshalWithDecoder decoder with
        | (Ok write, _) => UpgradeableLoaderWrite execCtx instrCtx write
        | (Err _, _) => fail InstrErrInvalidInstructionData
        | (Panic p, _) => panic p
        end
      else if instrType =? UpgradeableLoaderInstrTypeDeployWithMaxDataLen then
        match UpgradeableLoaderInstrDeployWithMaxDataLen_UnmarshalWithDecoder
                decoder with
        | (Ok deploy, _) =>
            UpgradeableLoaderDeployWithMaxDataLen execCtx instrCtx deploy
        | (Err _, _) => fail InstrErrInvalidInstructionData
        | (Panic p, _) => panic p
        end
      else if instrType =? UpgradeableLoaderInstrTypeUpgrade then
        UpgradeableLoaderUpgrade execCtx instrCtx
      else fail InstrErrInvalidInstructionData
  end.

End Loader.

(** ** A host and transactions to run the handlers on *)

Module Fixture.

Definition keyOf (b : byte) : PublicKey := replicate PublicKeyLength b.

Definition loaderId : PublicKey := keyOf x02.
Definition rentAddr : PublicKey := keyOf x05.
Definition clockAddr : PublicKey := keyOf x06.
Definition authority : PublicKey := keyOf x07.
Definition programDataAddr : PublicKey := keyOf x0a.
Definition programAddr : PublicKey := keyOf x0b.
Definition bufferAddr : PublicKey := keyOf x0c.
Definition spillAddr : PublicKey := keyOf x0d.
Definition payerAddr : PublicKey := keyOf x0e.
Definition systemProgramAddr : PublicKey := keyOf x00.

(** Modelled from the spec: Decoder.ReadByteSlice of the binary library;
    "Write.bytes length-prefixed as a 64-bit LE length followed by raw
    bytes". *)
Definition readByteSlice : SR Decoder (list byte) :=
  n <- ReadUint64 ;; ReadBytes (Z.to_nat n).

(** A host that refuses no change to an account, whose nested invocation
    does nothing, and whose derived address is [programDataAddr]. *)
Definition permissiveHost : Host :=
  {| MaxPermittedDataLength := 10485760;
     SysvarRentAddr := rentAddr;
     SysvarClockAddr := clockAddr;
     FindProgramAddress := fun _ _ => (programDataAddr, xff);
     CreateProgramAddress := fun _ _ => Ok programDataAddr;
     newCreateAccountInstruction :=
       fun from to lamports space owner =>
         {| InstructionProgramId := systemProgramAddr;
            InstructionAccountMetas :=
              [{| Pubkey := from; MetaIsSigner := true; MetaIsWritable := true |};
               {| Pubkey := to; MetaIsSigner := true; MetaIsWritable := true |}];
            InstructionData :=
              le_encode 4 0 ++ le_encode 8 lamports ++ le_encode 8 space ++ owner |};
     NativeInvoke := fun _ _ _ => ret tt;
     Refuses := fun _ _ _ => None;
     ReadByteSlice := readByteSlice |}.

Definition noFeatures : Features := fun _ => false.

Definition execCtxWith (minBalance : Z -> Z) (slot : Z) : ExecutionCtx :=
  {| GlobalCtx_Features := noFeatures;
     RentSysvar := {| MinimumBalance := minBalance |};
     ClockSysvar := {| ClockSlot := slot |} |}.

Definition account (key owner : PublicKey) (lamports : Z) (data : list byte)
    (exe : bool) : Account :=
  {| Key := key; Owner := owner; Lamports := lamports; Data := data;
     Executable := exe |}.

Definition ia (idx : nat) (signer writable : bool) : InstructionAccount :=
  {| IndexInTransaction := idx; IsSigner := signer; IsWritable := writable |}.

Definition instruction (accts : list InstructionAccount) (data : list byte)
    : InstructionCtx :=
  {| ProgramKey := loaderId; InstructionAccounts := accts; InstrData := data |}.

Definition transaction (accts : list Account) (instrCtx : InstructionCtx)
    : TransactionCtx :=
  {| Accounts := accts; CurrentInstruction := Some instrCtx |}.

(** State headers as the decoder reads them. *)
Definition uninitializedBytes : list byte := le_encode 4 0.
Definition bufferBytes (auth : PublicKey) : list byte :=
  le_encode 4 1 ++ [x01] ++ auth.
Definition immutableBufferBytes : list byte := le_encode 4 1 ++ [x00].
Definition programBytes (pd : PublicKey) : list byte := le_encode 4 2 ++ pd.
Definition programDataBytes (slot : Z) (auth : PublicKey) : list byte :=
  le_encode 4 3 ++ le_encode 8 slot ++ [x01] ++ auth.

(** *** Upgrade: accounts 0 programData, 1 program, 2 buffer, 3 spill,
    4 rent, 5 clock, 6 authority *)

Definition upgradeInstr : InstructionCtx :=
  instruction
    [ia 0 false true; ia 1 false true; ia 2 false true; ia 3 false true;
     ia 4 false false; ia 5 false false; ia 6 true false]
    (le_encode 4 3).

Definition upgradeAccounts (pdSlot pdLamports bufferLamports spillLamports : Z)
    (bufferData : list byte) : list Account :=
  [account programDataAddr loaderId pdLamports
     (programDataBytes pdSlot authority ++ [xde; xad; xbe; xef]) false;
   account programAddr loaderId 1 (programBytes programDataAddr) true;
   account bufferAddr loaderId bufferLamports bufferData false;
   account spillAddr authority spillLamports [] false;
   account rentAddr systemProgramAddr 1 [] false;
   account clockAddr systemProgramAddr 1 [] false;
   account authority systemProgramAddr 1 [] false].

Definition upgradeTx (pdSlot pdLamports bufferLamports spillLamports : Z)
    (bufferData : list byte) : TransactionCtx :=
  transaction
    (upgradeAccounts pdSlot pdLamports bufferLamports spillLamports bufferData)
    upgradeInstr.

(** The upgrade of the spec's scenario E3: a buffer with the two bytes
    01 02, a program-data account last deployed in slot 41, the clock at
    slot 42. *)
Definition upgradeE3 : TransactionCtx :=
  upgradeTx 41 5 7 100 (bufferBytes authority ++ [x01; x02]).

(** *** Deploy: accounts 0 payer, 1 programData, 2 program, 3 buffer,
    4 rent, 5 clock, 6 system program, 7 authority *)

Definition deployInstr : InstructionCtx :=
  instruction
    [ia 0 true true; ia 1 false true; ia 2 false true; ia 3 false true;
     ia 4 false false; ia 5 false false; ia 6 false false; ia 7 true false]
    (le_encode 4 2 ++ le_encode 8 99).

Definition deployB4 : TransactionCtx :=
  transaction
    [account payerAddr systemProgramAddr 1000 [] false;
     account programDataAddr systemProgramAddr 0 [] false;
     account programAddr loaderId 1000 (replicate 36 x00) false;
     account bufferAddr loaderId 1000
       (bufferBytes authority ++ replicate 100 xaa) false;
     account rentAddr systemProgramAddr 1 [] false;
     account clockAddr systemProgramAddr 1 [] false;
     account systemProgramAddr systemProgramAddr 1 [] true;
     account authority systemProgramAddr 1 [] false]
    deployInstr.

(** *** InitializeBuffer and Write: accounts 0 buffer, 1 authority *)

Definition bufferInstr (signer : bool) (data : list byte) : InstructionCtx :=
  instruction [ia 0 false true; ia 1 signer false] data.

Definition bufferTx (signer : bool) (instrData bufferData : list byte)
    : TransactionCtx :=
  transaction
    [account bufferAddr loaderId 10 bufferData false;
     account authority systemProgramAddr 1 [] false]
    (bufferInstr signer instrData).

End Fixture.

(** ** Predicates used in the statements *)

(** What a successful decoding tells about the length of the input and the
    keys of the state. *)
Definition decoded_from (n : nat) (s : UpgradeableLoaderState) : Prop :=
  (Type_ s = 0 /\ (4 <= n)%nat) \/
  (Type_ s = 1 /\ AuthorityAddress (Buffer s) = None /\ (5 <= n)%nat) \/
  (Type_ s = 1 /\ (37 <= n)%nat /\
     exists k, AuthorityAddress (Buffer s) = Some k /\ length k = 32%nat) \/
  (Type_ s = 2 /\ (36 <= n)%nat /\
     length (ProgramDataAddress (Program s)) = 32%nat) \/
  (Type_ s = 3 /\ UpgradeAuthorityAddress (ProgramData s) = None /\
     (13 <= n)%nat) \/
  (Type_ s = 3 /\ (45 <= n)%nat /\
     exists k, UpgradeAuthorityAddress (ProgramData s) = Some k /\
               length k = 32%nat).

(** What the checks of Upgrade (lines 673-794) have established when they
    pass: the accounts they read and the locals they hand on. *)
Definition UpgradeChecked (execCtx : ExecutionCtx) (instrCtx : InstructionCtx)
    (txCtx : TransactionCtx) (loc : UpgradeLocals)
    (ia0 ia2 ia6 : InstructionAccount) (pd buf auth : Account)
    (bst : UpgradeableLoaderState) : Prop :=
  InstructionAccounts instrCtx !! 0%nat = Some ia0 /\
  InstructionAccounts instrCtx !! 2%nat = Some ia2 /\
  InstructionAccounts instrCtx !! 6%nat = Some ia6 /\
  Accounts txCtx !! IndexInTransaction ia0 = Some pd /\
  Accounts txCtx !! IndexInTransaction ia2 = Some buf /\
  Accounts txCtx !! IndexInTransaction ia6 = Some auth /\
  unmarshalUpgradeableLoaderState (Data buf) = Ok bst /\
  Type_ bst = UpgradeableLoaderStateTypeBuffer /\
  upgradeableLoaderSizeOfBufferMetaData < len (Data buf) /\
  ~ (SaturatingAddU64 (Lamports pd) (Lamports buf)
     < loc_programDataBalanceRequired loc) /\
  loc =
  {| loc_clock := ClockSysvar execCtx;
     loc_authorityKey := Key auth;
     loc_buffer := ia2;
     loc_bufferLamports := Lamports buf;
     loc_bufferDataOffset := upgradeableLoaderSizeOfBufferMetaData;
     loc_bufferDataLen :=
       len (Data buf) - upgradeableLoaderSizeOfBufferMetaData;
     loc_programData := ia0;
     loc_programDataBalanceRequired :=
       Z.max (MinimumBalance (RentSysvar execCtx) (len (Data pd))) 1 |}.

(** ** The payload of ExtendProgram (lines 41-43 and 95-99) *)

Record UpgradeableLoaderInstrExtendProgram : Type := {
  AdditionalBytes : Z
}.

Definition UpgradeableLoaderInstrExtendProgram_UnmarshalWithDecoder
    : SR Decoder UpgradeableLoaderInstrExtendProgram :=
  additionalBytes <- ReadUint32 ;;
  ret {| AdditionalBytes := additionalBytes |}.

(** ** The entry point of the loaders (lines 306-353) *)

(** What BpfLoaderProgramExecute uses and neither the sources nor the spec
    define: the addresses of the loaders, the compute units charged for
    each, the borrow of the program account of an instruction, and the
    compute meter of the execution context with its method Consume. They are
    parameters of the development. *)
Record Runtime : Type := {
  ComputeMeter : Type;
  NativeLoaderAddr : PublicKey;
  BpfLoaderUpgradeableAddr : PublicKey;
  BpfLoaderAddr : PublicKey;
  BpfLoaderDeprecatedAddr : PublicKey;
  CUUpgradeableLoaderComputeUnits : Z;
  CUDefaultLoaderComputeUnits : Z;
  CUDeprecatedLoaderComputeUnits : Z;
  BorrowLastProgramAccount : InstructionCtx -> M BorrowedAccount;
  Consume : Z -> ComputeMeter -> result unit * ComputeMeter
}.

Section EntryPoint.

Variables (host : Host) (rt : Runtime).

(** The entry point runs over the compute meter and the transaction
    context, both reached through the execution context. *)
Definition Exec (A : Type) : Type := SR (ComputeMeter rt * TransactionCtx) A.

Definition onTransaction {A : Type} (m : M A) : Exec A :=
  fun s =>
    let '(r, txCtx') := m (snd s) in (r, (fst s, txCtx')).

Definition ComputeMeter_Consume (cost : Z) : Exec unit :=
  fun s =>
    let '(r, cm') := Consume rt cost (fst s) in (r, (cm', snd s)).

Definition BpfLoaderProgramExecute (execCtx : ExecutionCtx) : Exec unit :=
  instrCtx <- onTransaction CurrentInstructionCtx ;;
  programAcct <- onTransaction (BorrowLastProgramAccount rt instrCtx) ;;
  programOwner <- onTransaction (BorrowedAccount_Owner programAcct) ;;
  if bool_decide (programOwner = NativeLoaderAddr rt) then
    programId <- onTransaction (LastProgramKey instrCtx) ;;
    if bool_decide (programId = BpfLoaderUpgradeableAddr rt) then
      ComputeMeter_Consume (CUUpgradeableLoaderComputeUnits rt) ;;
      onTransaction (ProcessUpgradeableLoaderInstruction host execCtx)
    else if bool_decide (programId = BpfLoaderAddr rt) then
      ComputeMeter_Consume (CUDefaultLoaderComputeUnits rt) ;;
      fail InstrErrUnsupportedProgramId
    else if bool_decide (programId = BpfLoaderDeprecatedAddr rt) then
      ComputeMeter_Consume (CUDeprecatedLoaderComputeUnits rt) ;;
      fail InstrErrUnsupportedProgramId
    else fail InstrErrUnsupportedProgramId
  else
    isExecutable <- onTransaction (BorrowedAccount_IsExecutable programAcct) ;;
    if negb isExecutable then fail InstrErrUnsupportedProgramId
    else
      (* TODO: program execution *)
      ret tt.

End EntryPoint.

(** ** cmd/radiance/blockstore/verifydata: the slots given to the workers
    (verifydata.go, lines 44-47, 61-72 and 105-127)

    [run] divides the slots from [slotLo] up to [slotHi] among the workers.
    A worker is started on the slots from [wLo] up to [stop]. The model
    gives the workers [run] starts, in the order of the loop; [None] stands
    for the two ways [run] panics before the loop: the explicit panic when
    slotLo > slotHi, and a division by a zero number of workers. [uint] is
    taken to be 64 bits wide. *)

Record worker : Type := {
  wLo : Z;
  stop : Z
}.

(** The loop of lines 105-127, with [n] iterations left. *)
Fixpoint run_loop (n : nat) (step slotHi cursor : Z) : list worker :=
  match n with
  | O => []
  | S n' =>
      let wLo := cursor in
      let wHi := addU64 wLo step in
      let wHi := if slotHi <? wHi then slotHi else wHi in
      let cursor := wHi in
      if wHi <=? wLo then []
      else {| wLo := wLo; stop := wHi |} :: run_loop n' step slotHi cursor
  end.

Definition run_workers (numCPU flagWorkers slotLo slotHi : Z)
    : option (list worker) :=
  let workers := flagWorkers in
  let workers := if workers =? 0 then numCPU else workers in
  if slotHi <? slotLo then None
  else
    let total := slotHi - slotLo in
    if workers =? 0 then None
    else
      let step := total / workers in
      let step := if step =? 0 then 1 else step in
      Some (run_loop (Z.to_nat workers) step slotHi slotLo).

(** ** Further predicates used in the statements *)

(** The byte strings the state decoder accepts. *)
Definition decodable (data : list byte) : Prop :=
  (4 <= length data)%nat /\
  let tag := le_decode (take 4 data) in
  tag = UpgradeableLoaderStateTypeUninitialized \/
  (tag = UpgradeableLoaderStateTypeBuffer /\
   exists flag, data !! 4%nat = Some flag /\
                (byteZ flag = 0 \/ (37 <= length data)%nat)) \/
  (tag = UpgradeableLoaderStateTypeProgram /\ (36 <= length data)%nat) \/
  (tag = UpgradeableLoaderStateTypeProgramData /\
   exists flag, data !! 12%nat = Some flag /\
                (byteZ flag = 0 \/ (45 <= length data)%nat)).

Definition is_Ok {A : Type} (r : result A) : bool :=
  match r with
  | Ok _ => true
  | _ => false
  end.

(** A computation that leaves the transaction context as it was, whatever
    its outcome. *)
Definition readonly {A : Type} (c : M A) : Prop :=
  forall txCtx, snd (c txCtx) = txCtx.

(** The account at index [j] of the transaction is one of the instruction
    accounts [idxs] of [instrCtx]. *)
Definition instructionAccountAt (instrCtx : InstructionCtx) (idxs : list nat)
    (j : nat) : Prop :=
  exists i ia,
    In i idxs /\ InstructionAccounts instrCtx !! i = Some ia /\
    IndexInTransaction ia = j.

(** What a handler may leave of an account it changes: its key, owner and
    executable flag; and besides them its lamports and the length of its
    data. *)
Definition keeps_identity (a a' : Account) : Prop :=
  Key a' = Key a /\ Owner a' = Owner a /\ Executable a' = Executable a.

Definition keeps_all_but_bytes (a a' : Account) : Prop :=
  keeps_identity a a' /\ Lamports a' = Lamports a /\
  length (Data a') = length (Data a).

(** From [txCtx] to [txCtx'] the current instruction and the number of
    accounts stay, every account is changed within [R] at most, and the
    accounts outside [P] are not changed at all. *)
Definition changes_only (P : nat -> Prop) (R : Account -> Account -> Prop)
    (txCtx txCtx' : TransactionCtx) : Prop :=
  CurrentInstruction txCtx' = CurrentInstruction txCtx /\
  length (Accounts txCtx') = length (Accounts txCtx) /\
  forall j a,
    Accounts txCtx !! j = Some a ->
    exists a', Accounts txCtx' !! j = Some a' /\ R a a' /\ (~ P j -> a' = a).

(** The workers [ws] are given the slots from [lo] up to [hi], each a
    non-empty range that begins where the one before ends. *)
Fixpoint tiles (lo : Z) (ws : list worker) (hi : Z) : Prop :=
  match ws with
  | [] => lo = hi
  | w :: ws' => wLo w = lo /\ lo < stop w /\ tiles (stop w) ws' hi
  end.

(** * Properties *)

(** ** The state codec *)

Lemma length_le_encode (n : nat) (v : Z) : length (le_encode n v) = n.
Proof. revert v; induction n as [|n IH]; intros v; simpl; [reflexivity|]. by rewrite IH. Qed.

Lemma ReadBytes_Ok (n : nat) (dec : Decoder) (bs : list byte) (dec' : Decoder) :
  ReadBytes n dec = (Ok bs, dec') ->
  (n <= length dec)%nat /\ bs = take n dec /\ dec' = drop n dec.
Proof.
  unfold ReadBytes. destruct (length dec <? n)%nat eqn:E; [discriminate|].
  apply Nat.ltb_ge in E. intros [= <- <-]. auto.
Qed.

Lemma unmarshal_decoded_from (data : list byte) (s : UpgradeableLoaderState) :
  unmarshalUpgradeableLoaderState data = Ok s -> decoded_from (length data) s.
Proof.
  unfold unmarshalUpgradeableLoaderState,
    UpgradeableLoaderState_UnmarshalWithDecoder, ReadUint32, bind, ret, fail.
  destruct (ReadBytes 4 data) as [[tag| |] d1] eqn:E1; try discriminate.
  apply ReadBytes_Ok in E1 as (L1 & -> & ->).
  assert (Hd : length (drop 4 data) = (length data - 4)%nat) by apply length_drop.
  set (ty := le_decode (take 4 data)). unfold decoded_from.
  destruct (ty =? _) eqn:T0.
  { intros [= <-]. left. simpl. split; [by apply Z.eqb_eq in T0 | lia]. }
  destruct (ty =? UpgradeableLoaderStateTypeBuffer) eqn:T1.
  { apply Z.eqb_eq in T1.
    unfold UpgradeableLoaderStateBuffer_UnmarshalWithDecoder, ReadBool, bind, ret.
    destruct (drop 4 data) as [|b d2] eqn:E2; [discriminate|]. simpl in Hd.
    destruct (negb (byteZ b =? 0)).
    - destruct (ReadBytes PublicKeyLength d2) as [[k| |] d3] eqn:E3; try discriminate.
      apply ReadBytes_Ok in E3 as (L3 & -> & ->). unfold PublicKeyLength in *.
      intros [= <-]. right; right; left. simpl. split; [exact T1|].
      split; [lia|]. eexists; split; [reflexivity|]. rewrite length_take. lia.
    - intros [= <-]. right; left. simpl. repeat split; [exact T1 | lia]. }
  destruct (ty =? UpgradeableLoaderStateTypeProgram) eqn:T2.
  { apply Z.eqb_eq in T2.
    unfold UpgradeableLoaderStateProgram_UnmarshalWithDecoder, bind, ret.
    destruct (ReadBytes PublicKeyLength (drop 4 data)) as [[k| |] d3] eqn:E3;
      try discriminate.
    apply ReadBytes_Ok in E3 as (L3 & -> & ->). unfold PublicKeyLength in *.
    intros [= <-]. do 3 right; left. simpl. split; [exact T2|]. split; [lia|].
    unfold go_copy, zeroPublicKey, PublicKeyLength.
    rewrite length_app, length_drop, !length_take, length_replicate. lia. }
  destruct (ty =? UpgradeableLoaderStateTypeProgramData) eqn:T3; [|discriminate].
  apply Z.eqb_eq in T3.
  unfold UpgradeableLoaderStateProgramData_UnmarshalWithDecoder, ReadUint64,
    ReadBool, bind, ret.
  destruct (ReadBytes 8 (drop 4 data)) as [[sl| |] d2] eqn:E2; try discriminate.
  apply ReadBytes_Ok in E2 as (L2 & -> & ->).
  assert (Hd2 : length (drop 8 (drop 4 data)) = (length data - 12)%nat)
    by (rewrite !length_drop; lia).
  destruct (drop 8 (drop 4 data)) as [|b d3] eqn:E3; [discriminate|].
  simpl in Hd2.
  destruct (negb (byteZ b =? 0)).
  - destruct (ReadBytes PublicKeyLength d3) as [[k| |] d4] eqn:E4; try discriminate.
    apply ReadBytes_Ok in E4 as (L4 & -> & ->). unfold PublicKeyLength in *.
    intros [= <-]. do 5 right. simpl. split; [exact T3|]. split; [lia|].
    eexists; split; [reflexivity|]. rewrite length_take. lia.
  - intros [= <-]. do 4 right; left. simpl. repeat split; [exact T3 | lia].
Qed.

Lemma marshal_too_short (n : nat) (s : UpgradeableLoaderState) (bs : list byte) :
  decoded_from n s ->
  marshalUpgradeableLoaderState s = Ok bs ->
  ~ decoded_from (length bs) s.
Proof.
  unfold marshalUpgradeableLoaderState, UpgradeableLoaderState_MarshalWithEncoder,
    UpgradeableLoaderStateBuffer_MarshalWithEncoder,
    UpgradeableLoaderStateProgram_MarshalWithEncoder,
    UpgradeableLoaderStateProgramData_MarshalWithEncoder,
    WriteBytes, WriteUint64, bind, ret, decoded_from.
  intros [(T & _)|[(T & A & _)|[(T & _ & k & A & Lk)|[(T & _ & Lk)|
          [(T & A & _)|(T & _ & k & A & Lk)]]]]]; rewrite T; simpl; try rewrite A;
    intros [= <-]; simpl; rewrite ?length_app, ?Lk, ?length_le_encode; simpl;
    intros [(T' & L)|[(T' & A' & L)|[(T' & L & k' & A' & Lk')|[(T' & L & Lk')|
          [(T' & A' & L)|(T' & L & k' & A' & Lk')]]]]]; simpl in *;
    try lia; try congruence.
Qed.

(** C1. The claim: decode (encode (decode b)) = decode b whenever b decodes,
    the encoder writing the tag and the flag of the optional key. The code
    breaks it, and on every input: the marshaller writes neither tag nor
    flag, so the bytes it writes for a decoded state are too few to decode
    to that state again. *)
Theorem C1_round_trip_never_holds (b bs : list byte) (s : UpgradeableLoaderState) :
  unmarshalUpgradeableLoaderState b = Ok s ->
  marshalUpgradeableLoaderState s = Ok bs ->
  unmarshalUpgradeableLoaderState bs <> Ok s.
Proof.
  intros Hd Hm Hd'. apply unmarshal_decoded_from in Hd, Hd'.
  exact (marshal_too_short _ _ _ Hd Hm Hd').
Qed.

(** The four bytes 00 00 00 00 decode to the Uninitialized state, the
    marshaller writes no byte for that state, and the empty byte string
    does not decode. *)
Lemma C1_witness :
  unmarshalUpgradeableLoaderState [x00; x00; x00; x00] = Ok zeroState /\
  marshalUpgradeableLoaderState zeroState = Ok [] /\
  unmarshalUpgradeableLoaderState [] <> Ok zeroState.
Proof.
  split; [reflexivity|]. split; [reflexivity|].
  apply (C1_round_trip_never_holds [x00; x00; x00; x00] [] zeroState);
    reflexivity.
Defined.

(** The decoder looks at the first 45 bytes at most. *)
Lemma ReadBytes_app (n : nat) (p x : list byte) :
  (n <= length p)%nat ->
  ReadBytes n (p ++ x) = (Ok (take n p), drop n p ++ x).
Proof.
  intros H. unfold ReadBytes.
  destruct (Nat.ltb_spec (length (p ++ x)) n) as [Hlt|_].
  - rewrite length_app in Hlt. lia.
  - by rewrite take_app_le, drop_app_le.
Qed.

Lemma ReadBool_app (p x : list byte) :
  (1 <= length p)%nat ->
  exists b, ReadBool (p ++ x) = (Ok b, drop 1 p ++ x) /\
            forall y, ReadBool (p ++ y) = (Ok b, drop 1 p ++ y).
Proof. destruct p as [|b p]; simpl; [lia|]. intros _. eauto. Qed.

Lemma unmarshal_app (p x y : list byte) :
  (45 <= length p)%nat ->
  unmarshalUpgradeableLoaderState (p ++ x)
  = unmarshalUpgradeableLoaderState (p ++ y).
Proof.
  intros Hp.
  unfold unmarshalUpgradeableLoaderState,
    UpgradeableLoaderState_UnmarshalWithDecoder,
    UpgradeableLoaderStateBuffer_UnmarshalWithDecoder,
    UpgradeableLoaderStateProgram_UnmarshalWithDecoder,
    UpgradeableLoaderStateProgramData_UnmarshalWithDecoder,
    ReadUint32, ReadUint64, bind, ret, fail, PublicKeyLength.
  rewrite !(ReadBytes_app 4) by lia.
  repeat match goal with |- context [if ?c then _ else _] => destruct c end;
    try reflexivity.
  - destruct (ReadBool_app (drop 4 p) x) as (b & -> & Hb);
      [rewrite length_drop; lia|].
    rewrite Hb. destruct b; [|reflexivity].
    rewrite !(ReadBytes_app 32) by (rewrite !length_drop; lia). reflexivity.
  - rewrite !(ReadBytes_app 32) by (rewrite !length_drop; lia). reflexivity.
  - rewrite !(ReadBytes_app 8) by (rewrite !length_drop; lia).
    destruct (ReadBool_app (drop 8 (drop 4 p)) x) as (b & -> & Hb);
      [rewrite !length_drop; lia|].
    rewrite Hb. destruct b; [|reflexivity].
    rewrite !(ReadBytes_app 32) by (rewrite !length_drop; lia). reflexivity.
Qed.

Lemma unmarshal_same_header (d d' : list byte) :
  (45 <= length d)%nat -> (45 <= length d')%nat ->
  take 45 d' = take 45 d ->
  unmarshalUpgradeableLoaderState d' = unmarshalUpgradeableLoaderState d.
Proof.
  intros H H' Heq. rewrite <- (take_drop 45 d), <- (take_drop 45 d'), Heq.
  apply unmarshal_app. rewrite length_take. lia.
Qed.

(** ** Running a handler step by step *)

Lemma bind_Ok {S A B : Type} (m : SR S A) (k : A -> SR S B) (s s' : S) (a : A) :
  m s = (Ok a, s') -> bind m k s = k a s'.
Proof. unfold bind. by intros ->. Qed.

Lemma bind_Err {S A B : Type} (m : SR S A) (k : A -> SR S B) (s s' : S)
    (e : GoError) :
  m s = (Err e, s') -> bind m k s = (Err e, s').
Proof. unfold bind. by intros ->. Qed.

Lemma bind_Panic {S A B : Type} (m : SR S A) (k : A -> SR S B) (s s' : S)
    (p : GoPanic) :
  m s = (Panic p, s') -> bind m k s = (Panic p, s').
Proof. unfold bind. by intros ->. Qed.

Section Accessors.

Variables (instrCtx : InstructionCtx) (txCtx : TransactionCtx).

Lemma CheckNum_Ok (n i : nat) (x : InstructionAccount) :
  InstructionAccounts instrCtx !! i = Some x -> (n <= S i)%nat ->
  CheckNumOfInstructionAccounts instrCtx n txCtx = (Ok tt, txCtx).
Proof.
  intros H Hn. apply lookup_lt_Some in H. unfold CheckNumOfInstructionAccounts.
  destruct (Nat.ltb_spec (length (InstructionAccounts instrCtx)) n);
    [lia | reflexivity].
Qed.

Lemma IndexOf_Ok (i : nat) (x : InstructionAccount) :
  InstructionAccounts instrCtx !! i = Some x ->
  IndexOfInstructionAccountInTransaction instrCtx i txCtx
  = (Ok (IndexInTransaction x), txCtx).
Proof. unfold IndexOfInstructionAccountInTransaction. by intros ->. Qed.

Lemma KeyOf_Ok (idx : nat) (a : Account) :
  Accounts txCtx !! idx = Some a ->
  KeyOfAccountAtIndex idx txCtx = (Ok (Key a), txCtx).
Proof. unfold KeyOfAccountAtIndex. by intros ->. Qed.

Lemma IsSigner_Ok (i : nat) (x : InstructionAccount) :
  InstructionAccounts instrCtx !! i = Some x ->
  IsInstructionAccountSigner instrCtx i txCtx = (Ok (IsSigner x), txCtx).
Proof. unfold IsInstructionAccountSigner. by intros ->. Qed.

Lemma Borrow_Ok (i : nat) (x : InstructionAccount) (a : Account) :
  InstructionAccounts instrCtx !! i = Some x ->
  Accounts txCtx !! IndexInTransaction x = Some a ->
  BorrowInstructionAccount instrCtx i txCtx = (Ok x, txCtx).
Proof. unfold BorrowInstructionAccount. by intros -> ->. Qed.

Lemma readAccount_Ok (x : BorrowedAccount) (a : Account) :
  Accounts txCtx !! IndexInTransaction x = Some a ->
  readAccount x txCtx = (Ok a, txCtx).
Proof. unfold readAccount. by intros ->. Qed.

Lemma Data_Ok (x : BorrowedAccount) (a : Account) :
  Accounts txCtx !! IndexInTransaction x = Some a ->
  BorrowedAccount_Data x txCtx = (Ok (Data a), txCtx).
Proof.
  intros H. unfold BorrowedAccount_Data.
  by rewrite (bind_Ok _ _ _ _ _ (readAccount_Ok _ _ H)).
Qed.

Lemma Lamports_Ok (x : BorrowedAccount) (a : Account) :
  Accounts txCtx !! IndexInTransaction x = Some a ->
  BorrowedAccount_Lamports x txCtx = (Ok (Lamports a), txCtx).
Proof.
  intros H. unfold BorrowedAccount_Lamports.
  by rewrite (bind_Ok _ _ _ _ _ (readAccount_Ok _ _ H)).
Qed.

Lemma IsExecutable_Ok (x : BorrowedAccount) (a : Account) :
  Accounts txCtx !! IndexInTransaction x = Some a ->
  BorrowedAccount_IsExecutable x txCtx = (Ok (Executable a), txCtx).
Proof.
  intros H. unfold BorrowedAccount_IsExecutable.
  by rewrite (bind_Ok _ _ _ _ _ (readAccount_Ok _ _ H)).
Qed.

Lemma Owner_Ok (x : BorrowedAccount) (a : Account) :
  Accounts txCtx !! IndexInTransaction x = Some a ->
  BorrowedAccount_Owner x txCtx = (Ok (Owner a), txCtx).
Proof.
  intros H. unfold BorrowedAccount_Owner.
  by rewrite (bind_Ok _ _ _ _ _ (readAccount_Ok _ _ H)).
Qed.

Lemma Key_Ok (x : BorrowedAccount) (a : Account) :
  Accounts txCtx !! IndexInTransaction x = Some a ->
  BorrowedAccount_Key x txCtx = (Ok (Key a), txCtx).
Proof.
  intros H. unfold BorrowedAccount_Key.
  by rewrite (bind_Ok _ _ _ _ _ (readAccount_Ok _ _ H)).
Qed.

Lemma IsWritable_Ok (x : BorrowedAccount) :
  BorrowedAccount_IsWritable x txCtx = (Ok (IsWritable x), txCtx).
Proof. reflexivity. Qed.

Lemma LastProgramKey_Ok :
  LastProgramKey instrCtx txCtx = (Ok (ProgramKey instrCtx), txCtx).
Proof. reflexivity. Qed.

Lemma checkAcctForSysvar_Ok (addr : PublicKey) (i : nat)
    (x : InstructionAccount) (a : Account) :
  InstructionAccounts instrCtx !! i = Some x ->
  Accounts txCtx !! IndexInTransaction x = Some a ->
  Key a = addr ->
  checkAcctForSysvar addr instrCtx i txCtx = (Ok tt, txCtx).
Proof.
  intros Hi Ha Hk. unfold checkAcctForSysvar.
  rewrite (bind_Ok _ _ _ _ _ (IndexOf_Ok _ _ Hi)).
  rewrite (bind_Ok _ _ _ _ _ (KeyOf_Ok _ _ Ha)).
  by rewrite bool_decide_true.
Qed.

Lemma Current_Ok :
  CurrentInstruction txCtx = Some instrCtx ->
  CurrentInstructionCtx txCtx = (Ok instrCtx, txCtx).
Proof. unfold CurrentInstructionCtx. by intros ->. Qed.

Lemma lift_Ok {A : Type} (r : result A) (a : A) :
  r = Ok a -> lift r txCtx = (Ok a, txCtx).
Proof. by intros ->. Qed.

End Accessors.

Create HintDb loader.
#[local] Hint Resolve IndexOf_Ok KeyOf_Ok IsSigner_Ok Borrow_Ok readAccount_Ok
  Data_Ok Lamports_Ok IsExecutable_Ok Owner_Ok Key_Ok IsWritable_Ok
  LastProgramKey_Ok
  checkAcctForSysvar_Ok Current_Ok lift_Ok : loader.
#[local] Hint Extern 1 (CheckNumOfInstructionAccounts _ _ _ = _) =>
  (eapply CheckNum_Ok; [eassumption | lia]) : loader.

(** One step of a run: the first computation of a [bind] succeeds. *)
Ltac step := erewrite bind_Ok by eauto with loader.

(** The decoder returns errors only; it does not panic. *)
Lemma ReadBytes_no_panic (n : nat) (dec dec' : Decoder) (p : GoPanic) :
  ReadBytes n dec <> (Panic p, dec').
Proof. unfold ReadBytes. by destruct (_ <? _)%nat. Qed.

Lemma ReadBool_no_panic (dec dec' : Decoder) (p : GoPanic) :
  ReadBool dec <> (Panic p, dec').
Proof. unfold ReadBool. by destruct dec. Qed.

Lemma unmarshal_no_panic (data : list byte) (p : GoPanic) :
  unmarshalUpgradeableLoaderState data <> Panic p.
Proof.
  unfold unmarshalUpgradeableLoaderState,
    UpgradeableLoaderState_UnmarshalWithDecoder,
    UpgradeableLoaderStateBuffer_UnmarshalWithDecoder,
    UpgradeableLoaderStateProgram_UnmarshalWithDecoder,
    UpgradeableLoaderStateProgramData_UnmarshalWithDecoder,
    ReadUint32, ReadUint64, bind, ret, fail.
  repeat match goal with
  | |- context [ReadBytes ?n ?d] =>
      let E := fresh in
      destruct (ReadBytes n d) as [[?| |?] ?] eqn:E;
      [| | exfalso; exact (ReadBytes_no_panic _ _ _ _ E)]
  | |- context [ReadBool ?d] =>
      let E := fresh in
      destruct (ReadBool d) as [[[|]| |?] ?] eqn:E;
      [| | | exfalso; exact (ReadBool_no_panic _ _ _ E)]
  | |- context [if ?c then _ else _] => destruct c
  end; discriminate.
Qed.

Lemma unmarshal_Err (data : list byte) (e : GoError) :
  unmarshalUpgradeableLoaderState data = Err e -> e = InstrErrInvalidAccountData.
Proof.
  unfold unmarshalUpgradeableLoaderState.
  destruct (UpgradeableLoaderState_UnmarshalWithDecoder _ _) as [[?| |] ?];
    congruence.
Qed.

(** ** Write *)

Section WriteRuns.

Variables (execCtx : ExecutionCtx) (instrCtx : InstructionCtx)
  (write : UpgradeableLoaderInstrWrite) (txCtx : TransactionCtx)
  (ia0 ia1 : InstructionAccount) (a0 a1 : Account).
Hypothesis H0 : InstructionAccounts instrCtx !! 0%nat = Some ia0.
Hypothesis H1 : InstructionAccounts instrCtx !! 1%nat = Some ia1.
Hypothesis HA0 : Accounts txCtx !! IndexInTransaction ia0 = Some a0.
Hypothesis HA1 : Accounts txCtx !! IndexInTransaction ia1 = Some a1.

Lemma Write_not_Buffer :
  (forall st, unmarshalUpgradeableLoaderState (Data a0) = Ok st ->
              Type_ st <> UpgradeableLoaderStateTypeBuffer) ->
  UpgradeableLoaderWrite execCtx instrCtx write txCtx
  = (Err InstrErrInvalidAccountData, txCtx).
Proof.
  intros Hn. unfold UpgradeableLoaderWrite. do 3 step.
  destruct (unmarshalUpgradeableLoaderState (Data a0)) as [st|e|p] eqn:Hs.
  - step. specialize (Hn st eq_refl). apply Z.eqb_neq in Hn. rewrite Hn.
    reflexivity.
  - apply unmarshal_Err in Hs as ->. reflexivity.
  - by apply unmarshal_no_panic in Hs.
Qed.

Lemma Write_Buffer (st : UpgradeableLoaderState) :
  unmarshalUpgradeableLoaderState (Data a0) = Ok st ->
  Type_ st = UpgradeableLoaderStateTypeBuffer ->
  (AuthorityAddress (Buffer st) = None ->
   UpgradeableLoaderWrite execCtx instrCtx write txCtx
   = (Err InstrErrImmutable, txCtx)) /\
  (forall k, AuthorityAddress (Buffer st) = Some k ->
     (k <> Key a1 ->
      UpgradeableLoaderWrite execCtx instrCtx write txCtx
      = (Err InstrErrIncorrectAuthority, txCtx)) /\
     (k = Key a1 -> IsSigner ia1 = false ->
      UpgradeableLoaderWrite execCtx instrCtx write txCtx
      = (Err InstrErrMissingRequiredSignature, txCtx))).
Proof.
  intros Hs Ht. unfold UpgradeableLoaderWrite. do 4 step. rewrite Ht. simpl.
  split; [intros -> ; reflexivity|]. intros k ->. split.
  - intros Hk. unfold bind at 1. do 2 step.
    rewrite bool_decide_false by exact Hk. reflexivity.
  - intros -> Hsig. unfold bind at 1. do 2 step.
    rewrite bool_decide_true by reflexivity. simpl. step. rewrite Hsig.
    reflexivity.
Qed.

Hypothesis Hcur : CurrentInstruction txCtx = Some instrCtx.

Lemma Write_authorized (st : UpgradeableLoaderState) :
  unmarshalUpgradeableLoaderState (Data a0) = Ok st ->
  Type_ st = UpgradeableLoaderStateTypeBuffer ->
  AuthorityAddress (Buffer st) = Some (Key a1) ->
  IsSigner ia1 = true ->
  UpgradeableLoaderWrite execCtx instrCtx write txCtx
  = writeProgramData execCtx
      (addU64 upgradeableLoaderSizeOfBufferMetaData (Offset write))
      (Bytes write) txCtx.
Proof.
  intros Hs Ht Ha Hsig. unfold UpgradeableLoaderWrite. do 4 step. rewrite Ht.
  simpl. rewrite Ha. unfold bind at 1. do 2 step.
  rewrite bool_decide_true by reflexivity. simpl. step. rewrite Hsig.
  reflexivity.
Qed.

Lemma writeProgramData_run (off : Z) (bytes : list byte) :
  0 <= off ->
  off + len bytes <= MaxUint64 ->
  writeProgramData execCtx off bytes txCtx =
  if len (Data a0) <? off + len bytes
  then (Err InstrErrAccountDataTooSmall, txCtx)
  else (Ok tt,
        withAccount (IndexInTransaction ia0)
          {| Key := Key a0; Owner := Owner a0; Lamports := Lamports a0;
             Data := take (Z.to_nat off) (Data a0) ++ bytes ++
                     drop (Z.to_nat (off + len bytes)) (Data a0);
             Executable := Executable a0 |} txCtx).
Proof.
  intros Hoff Hmax. unfold writeProgramData. do 3 step.
  unfold SaturatingAddU64.
  destruct (Z.ltb_spec MaxUint64 (off + len bytes)); [lia|].
  destruct (Z.ltb_spec (len (Data a0)) (off + len bytes)); [reflexivity|].
  step. unfold copy_into_slice, go_slice.
  assert (Hlen : 0 <= len bytes) by (unfold len; lia).
  destruct (Z.leb_spec 0 off); [|lia].
  destruct (Z.leb_spec off (off + len bytes)); [|lia].
  destruct (Z.leb_spec (off + len bytes) (Z.of_nat (length (Data a0))));
    [|unfold len in *; lia].
  simpl. step. unfold setAccountData. step. unfold writeAccount.
  do 4 f_equal. unfold go_copy.
  replace (off + len bytes - off) with (len bytes) by lia.
  unfold len in *. rewrite Nat2Z.id.
  rewrite take_ge, drop_ge; rewrite ?length_take, ?length_drop;
    [by rewrite app_nil_r | lia ..].
Qed.

End WriteRuns.

(** C7. For a Write call whose instruction accounts 0 and 1 exist: on an
    account whose state is Buffer, an authority of None gives Immutable;
    otherwise an authority other than the key of instruction account 1 gives
    IncorrectAuthority; otherwise an account 1 that did not sign gives
    MissingRequiredSignature; and on an account whose state is not Buffer
    (another tag, or bytes that do not decode) the call gives
    InvalidAccountData. In each case the accounts are left as they were. *)
Theorem C7_Write_authority_errors
    (execCtx : ExecutionCtx) (instrCtx : InstructionCtx)
    (write : UpgradeableLoaderInstrWrite) (txCtx : TransactionCtx)
    (ia0 ia1 : InstructionAccount) (a0 a1 : Account) :
  InstructionAccounts instrCtx !! 0%nat = Some ia0 ->
  InstructionAccounts instrCtx !! 1%nat = Some ia1 ->
  Accounts txCtx !! IndexInTransaction ia0 = Some a0 ->
  Accounts txCtx !! IndexInTransaction ia1 = Some a1 ->
  let run := UpgradeableLoaderWrite execCtx instrCtx write txCtx in
  (forall st,
     unmarshalUpgradeableLoaderState (Data a0) = Ok st ->
     Type_ st = UpgradeableLoaderStateTypeBuffer ->
     (AuthorityAddress (Buffer st) = None ->
      run = (Err InstrErrImmutable, txCtx)) /\
     (forall k, AuthorityAddress (Buffer st) = Some k ->
        (k <> Key a1 -> run = (Err InstrErrIncorrectAuthority, txCtx)) /\
        (k = Key a1 -> IsSigner ia1 = false ->
         run = (Err InstrErrMissingRequiredSignature, txCtx)))) /\
  ((forall st,
      unmarshalUpgradeableLoaderState (Data a0) = Ok st ->
      Type_ st <> UpgradeableLoaderStateTypeBuffer) ->
   run = (Err InstrErrInvalidAccountData, txCtx)).
Proof.
  intros H0 H1 HA0 HA1 run. split.
  - intros st Hs Ht. eapply Write_Buffer; eassumption.
  - eapply Write_not_Buffer; eassumption.
Qed.

(** The spec's scenario B3: a Write on a buffer whose state is 01 00
    (authority None). *)
Lemma C7_witness :
  UpgradeableLoaderWrite (Fixture.execCtxWith (fun _ => 10) 42)
    (Fixture.bufferInstr true []) {| Offset := 0; Bytes := [xaa] |}
    (Fixture.bufferTx true [] Fixture.immutableBufferBytes)
  = (Err InstrErrImmutable,
     Fixture.bufferTx true [] Fixture.immutableBufferBytes).
Proof.
  pose proof (C7_Write_authority_errors (Fixture.execCtxWith (fun _ => 10) 42)
                (Fixture.bufferInstr true []) {| Offset := 0; Bytes := [xaa] |}
                (Fixture.bufferTx true [] Fixture.immutableBufferBytes)
                _ _ _ _ eq_refl eq_refl eq_refl eq_refl) as [HB _].
  eapply HB; reflexivity.
Defined.



(** ** Inverting a successful run

    When a run has succeeded, each of its steps has: the lemmas below say
    what a successful step tells, and the tactics take a run apart step by
    step. *)

Lemma bind_Ok_inv {S A B : Type} (m : SR S A) (k : A -> SR S B) (s s' : S)
    (b : B) :
  bind m k s = (Ok b, s') ->
  exists a s1, m s = (Ok a, s1) /\ k a s1 = (Ok b, s').
Proof. unfold bind. destruct (m s) as [[a| |] s1]; try discriminate. eauto. Qed.

Section Inversions.

Variable instrCtx : InstructionCtx.

Lemma CheckNum_inv (txCtx txCtx' : TransactionCtx) (n : nat) (u : unit) :
  CheckNumOfInstructionAccounts instrCtx n txCtx = (Ok u, txCtx') ->
  txCtx' = txCtx /\ (n <= length (InstructionAccounts instrCtx))%nat.
Proof.
  unfold CheckNumOfInstructionAccounts.
  destruct (Nat.ltb_spec (length (InstructionAccounts instrCtx)) n);
    [discriminate|].
  intros [= <-]. auto.
Qed.

Lemma IndexOf_inv (txCtx txCtx' : TransactionCtx) (i n : nat) :
  IndexOfInstructionAccountInTransaction instrCtx i txCtx = (Ok n, txCtx') ->
  txCtx' = txCtx /\
  exists x, InstructionAccounts instrCtx !! i = Some x /\
            n = IndexInTransaction x.
Proof.
  unfold IndexOfInstructionAccountInTransaction.
  destruct (InstructionAccounts instrCtx !! i); [|discriminate].
  intros [= <- <-]. eauto.
Qed.

Lemma KeyOf_inv (txCtx txCtx' : TransactionCtx) (idx : nat) (k : PublicKey) :
  KeyOfAccountAtIndex idx txCtx = (Ok k, txCtx') ->
  txCtx' = txCtx /\ exists a, Accounts txCtx !! idx = Some a /\ k = Key a.
Proof.
  unfold KeyOfAccountAtIndex. destruct (Accounts txCtx !! idx); [|discriminate].
  intros [= <- <-]. eauto.
Qed.

Lemma IsSigner_inv (txCtx txCtx' : TransactionCtx) (i : nat) (b : bool) :
  IsInstructionAccountSigner instrCtx i txCtx = (Ok b, txCtx') ->
  txCtx' = txCtx /\
  exists x, InstructionAccounts instrCtx !! i = Some x /\ b = IsSigner x.
Proof.
  unfold IsInstructionAccountSigner.
  destruct (InstructionAccounts instrCtx !! i); [|discriminate].
  intros [= <- <-]. eauto.
Qed.

Lemma Borrow_inv (txCtx txCtx' : TransactionCtx) (i : nat)
    (x : BorrowedAccount) :
  BorrowInstructionAccount instrCtx i txCtx = (Ok x, txCtx') ->
  txCtx' = txCtx /\ InstructionAccounts instrCtx !! i = Some x /\
  exists a, Accounts txCtx !! IndexInTransaction x = Some a.
Proof.
  unfold BorrowInstructionAccount.
  destruct (InstructionAccounts instrCtx !! i) as [y|]; [|discriminate].
  destruct (Accounts txCtx !! IndexInTransaction y) eqn:E; [|discriminate].
  intros [= <- <-]. eauto.
Qed.

Lemma readAccount_inv (txCtx txCtx' : TransactionCtx) (x : BorrowedAccount)
    (a : Account) :
  readAccount x txCtx = (Ok a, txCtx') ->
  txCtx' = txCtx /\ Accounts txCtx !! IndexInTransaction x = Some a.
Proof.
  unfold readAccount.
  destruct (Accounts txCtx !! IndexInTransaction x); [|discriminate].
  intros [= <- <-]. eauto.
Qed.

(** The reading methods of a borrowed account all have this shape. *)
Lemma field_inv {A : Type} (txCtx txCtx' : TransactionCtx)
    (proj : Account -> A) (x : BorrowedAccount) (v : A) :
  bind (readAccount x) (fun a => ret (proj a)) txCtx = (Ok v, txCtx') ->
  txCtx' = txCtx /\
  exists a, Accounts txCtx !! IndexInTransaction x = Some a /\ v = proj a.
Proof.
  intros H. apply bind_Ok_inv in H as (a & s1 & E & H).
  apply readAccount_inv in E as [-> E]. injection H as <- <-. eauto.
Qed.

Lemma LastProgramKey_inv (txCtx txCtx' : TransactionCtx) (k : PublicKey) :
  LastProgramKey instrCtx txCtx = (Ok k, txCtx') ->
  txCtx' = txCtx /\ k = ProgramKey instrCtx.
Proof. intros [= <- <-]. auto. Qed.

Lemma IsWritable_inv (txCtx txCtx' : TransactionCtx) (x : BorrowedAccount)
    (b : bool) :
  BorrowedAccount_IsWritable x txCtx = (Ok b, txCtx') ->
  txCtx' = txCtx /\ b = IsWritable x.
Proof. intros [= <- <-]. auto. Qed.

Lemma lift_inv {A : Type} (txCtx txCtx' : TransactionCtx) (r : result A)
    (a : A) :
  lift r txCtx = (Ok a, txCtx') -> txCtx' = txCtx /\ r = Ok a.
Proof. intros [= -> <-]. auto. Qed.

Lemma ret_inv {A : Type} (txCtx txCtx' : TransactionCtx) (v a : A) :
  ret v txCtx = (Ok a, txCtx') -> txCtx' = txCtx /\ a = v.
Proof. intros [= -> <-]. auto. Qed.

Lemma fail_inv {A : Type} (txCtx txCtx' : TransactionCtx) (e : GoError)
    (a : A) :
  fail e txCtx = (Ok a, txCtx') -> False.
Proof. discriminate. Qed.

Lemma panic_inv {A : Type} (txCtx txCtx' : TransactionCtx) (p : GoPanic)
    (a : A) :
  panic p txCtx = (Ok a, txCtx') -> False.
Proof. discriminate. Qed.

Lemma checkAcctForSysvar_inv (txCtx txCtx' : TransactionCtx)
    (addr : PublicKey) (i : nat) (u : unit) :
  checkAcctForSysvar addr instrCtx i txCtx = (Ok u, txCtx') ->
  txCtx' = txCtx.
Proof.
  unfold checkAcctForSysvar. intros H.
  apply bind_Ok_inv in H as (n & s1 & E & H). apply IndexOf_inv in E as [-> _].
  apply bind_Ok_inv in H as (k & s2 & E & H). apply KeyOf_inv in E as [-> _].
  destruct (bool_decide _); [|discriminate]. by injection H.
Qed.

End Inversions.

(** What the successful step [E] tells; the store is the one before. *)
Ltac inv_acc E :=
  first
    [ apply CheckNum_inv in E as [-> E]
    | apply IndexOf_inv in E as [-> (? & E & ->)]
    | apply KeyOf_inv in E as [-> (? & E & ->)]
    | apply IsSigner_inv in E as [-> (? & E & ->)]
    | apply Borrow_inv in E as [-> (E & ? & ?)]
    | apply field_inv in E as [-> (? & E & ->)]
    | apply readAccount_inv in E as [-> E]
    | apply LastProgramKey_inv in E as [-> ->]
    | apply IsWritable_inv in E as [-> ->]
    | apply ret_inv in E as [-> ->]
    | apply lift_inv in E as [-> E]
    | apply checkAcctForSysvar_inv in E as ->
    | (apply fail_inv in E; contradiction)
    | (apply panic_inv in E; contradiction) ].

(** The first step of the successful run [H], as [E]; [H] is the rest. *)
Ltac inv_bind_as H E :=
  apply bind_Ok_inv in H as (? & ? & E & H).

Ltac inv_bind H :=
  let E := fresh "E" in inv_bind_as H E; inv_acc E.

(** A check that returns an error in its first, or in its second, branch. *)
Ltac inv_if H :=
  match type of H with
  | (if ?c then _ else _) _ = _ =>
      let C := fresh "C" in
      destruct c eqn:C; [by apply fail_inv in H|]
  end.

Ltac inv_ifnot H :=
  match type of H with
  | (if ?c then _ else _) _ = _ =>
      let C := fresh "C" in
      destruct c eqn:C; [|by apply fail_inv in H]
  end.

(** Writes. *)
Lemma lookup_withAccount (idx j : nat) (a b : Account)
    (txCtx : TransactionCtx) :
  Accounts txCtx !! idx = Some b ->
  Accounts (withAccount idx a txCtx) !! j
  = if decide (j = idx) then Some a else Accounts txCtx !! j.
Proof.
  intros H. apply lookup_lt_Some in H. simpl.
  destruct (decide (j = idx)) as [->|Hne].
  - by apply list_lookup_insert_eq.
  - by apply list_lookup_insert_ne.
Qed.

Lemma mutate_inv (host : Host) (acct : BorrowedAccount) (mut : Mutation)
    (change : Account -> result Account) (txCtx txCtx' : TransactionCtx)
    (u : unit) :
  mutate host acct mut change txCtx = (Ok u, txCtx') ->
  exists a a',
    Accounts txCtx !! IndexInTransaction acct = Some a /\
    change a = Ok a' /\
    txCtx' = withAccount (IndexInTransaction acct) a' txCtx.
Proof.
  unfold mutate. destruct (Refuses _ _ _ _); [discriminate|].
  destruct (Accounts txCtx !! _) as [a|] eqn:E; [|discriminate].
  destruct (change a) as [a'| |] eqn:Ec; try discriminate.
  intros [= <-]. eauto.
Qed.

Lemma setAccountData_inv (acct : BorrowedAccount) (data : list byte)
    (txCtx txCtx' : TransactionCtx) (u : unit) :
  setAccountData acct data txCtx = (Ok u, txCtx') ->
  exists a,
    Accounts txCtx !! IndexInTransaction acct = Some a /\
    txCtx' = withAccount (IndexInTransaction acct)
               {| Key := Key a; Owner := Owner a; Lamports := Lamports a;
                  Data := data; Executable := Executable a |} txCtx.
Proof.
  unfold setAccountData. intros H. inv_bind H. injection H as <-. eauto.
Qed.

Ltac inv_mut E :=
  first
    [ apply mutate_inv in E as (? & ? & E & ? & ->)
    | apply setAccountData_inv in E as (? & E & ->) ].

(** Resolve a lookup in a store that was just written. *)
Ltac lookup_written :=
  erewrite lookup_withAccount by eassumption;
  first [ rewrite decide_True by congruence
        | rewrite decide_False by congruence ];
  first [ eassumption | reflexivity ].

(** After a write, name the new store, record what the accounts of interest
    are in it, and forget how it was built. *)
Ltac written_at tx' j :=
  let T := fresh "T" in
  eassert (T : Accounts tx' !! j = Some _) by (subst tx'; lookup_written).

Ltac new_store i0 i2 i3 :=
  match goal with
  | H : context [withAccount ?i ?a ?tx] |- _ =>
      let tx' := fresh "tx" in
      set (tx' := withAccount i a tx) in *;
      written_at tx' i0; written_at tx' i2; written_at tx' i3;
      clearbody tx';
      repeat match goal with
      | L : Accounts tx !! _ = Some _ |- _ => clear L
      end
  end.

Ltac new_store2 i0 i2 :=
  match goal with
  | H : context [withAccount ?i ?a ?tx] |- _ =>
      let tx' := fresh "tx" in
      set (tx' := withAccount i a tx) in *;
      written_at tx' i0; written_at tx' i2;
      clearbody tx';
      repeat match goal with
      | L : Accounts tx !! _ = Some _ |- _ => clear L
      end
  end.

(** Two lookups of one entry give one account. *)
Ltac same_lookups :=
  unfold BorrowedAccount in *;
  cbn [Key Owner Lamports Data Executable IndexInTransaction] in *;
  repeat match goal with
  | H1 : ?o = Some ?x, H2 : ?o = Some ?y |- _ =>
      assert (x = y) by congruence; first [subst x | subst y]; clear H1
  end;
  cbn [Key Owner Lamports Data Executable IndexInTransaction] in *.

(** Slices and copies. *)
Lemma go_copy_nil (dst : list byte) : go_copy dst [] = dst.
Proof. unfold go_copy. by rewrite take_nil. Qed.

Lemma length_go_copy (dst src : list byte) :
  length (go_copy dst src) = length dst.
Proof. unfold go_copy. rewrite length_app, length_take, length_drop. lia. Qed.

Lemma go_slice_Ok (s : list byte) (lo hi : Z) (r : list byte) :
  go_slice s lo hi = Ok r ->
  0 <= lo /\ lo <= hi /\ hi <= len s /\
  r = take (Z.to_nat (hi - lo)) (drop (Z.to_nat lo) s) /\
  length r = Z.to_nat (hi - lo).
Proof.
  unfold go_slice, len.
  destruct (Z.leb_spec 0 lo); [|discriminate].
  destruct (Z.leb_spec lo hi); [|discriminate].
  destruct (Z.leb_spec hi (Z.of_nat (length s))); [|discriminate].
  simpl. intros [= <-]. repeat split; try lia.
  rewrite length_take, length_drop. lia.
Qed.

Lemma copy_into_slice_Ok (s : list byte) (lo hi : Z) (src s' : list byte) :
  copy_into_slice s lo hi src = Ok s' ->
  0 <= lo /\ lo <= hi /\ hi <= len s /\
  length s' = length s /\
  take (Z.to_nat lo) s' = take (Z.to_nat lo) s.
Proof.
  unfold copy_into_slice.
  destruct (go_slice s lo hi) as [dst| |] eqn:E; try discriminate.
  apply go_slice_Ok in E as (Hlo & Hhi & Hlen & -> & Hl). intros [= <-].
  unfold len in *. repeat split; try lia.
  - rewrite !length_app, length_go_copy, Hl, length_take, length_drop. lia.
  - rewrite take_app_length'; [reflexivity|]. rewrite length_take. lia.
Qed.

(** ** Upgrade *)

Section UpgradeRuns.

Variable host : Host.

Lemma Upgrade_checks_inv (execCtx : ExecutionCtx) (instrCtx : InstructionCtx)
    (txCtx txCtx' : TransactionCtx) (loc : UpgradeLocals) :
  UpgradeableLoaderUpgrade_checks host execCtx instrCtx txCtx = (Ok loc, txCtx') ->
  txCtx' = txCtx /\
  exists ia0 ia2 ia6 pd buf auth bst,
    UpgradeChecked execCtx instrCtx txCtx loc ia0 ia2 ia6 pd buf auth bst.
Proof.
  unfold UpgradeableLoaderUpgrade_checks, checkAcctForRentSysvar,
    checkAcctForClockSysvar. intros H.
  do 10 inv_bind H. inv_if H. inv_bind H. inv_if H. do 2 inv_bind H. inv_if H.
  do 2 inv_bind H. inv_bind_as H G1. inv_ifnot G1. inv_if G1. inv_acc G1.
  do 2 inv_bind H. inv_bind_as H G2.
  match type of G2 with
  | context [unmarshalUpgradeableLoaderState ?d] =>
      destruct (unmarshalUpgradeableLoaderState d) as [bst| |] eqn:Hbst;
      [inv_acc G2 | by apply panic_inv in G2 | by apply panic_inv in G2]
  end.
  inv_bind_as H G3. inv_ifnot G3. inv_if G3. inv_bind G3. inv_if G3. inv_acc G3.
  do 3 inv_bind H. inv_if H. do 3 inv_bind H. inv_if H. inv_bind H. inv_if H.
  inv_acc H. same_lookups.
  apply orb_false_elim in C7 as [C7a C7b].
  apply Z.ltb_ge in C7a. apply Z.eqb_neq in C7b. apply Z.ltb_ge in C9.
  unfold SaturatingSubU64, upgradeableLoaderSizeOfBufferMetaData in *.
  match type of C7b with
  | context [?l <? 37] => destruct (Z.ltb_spec l 37); [lia|]
  end.
  split; [reflexivity|].
  unfold UpgradeChecked. do 7 eexists.
  repeat (split; [eassumption|]).
  split; [by apply Z.eqb_eq|].
  split; [unfold upgradeableLoaderSizeOfBufferMetaData; lia|].
  unfold ReadRentSysvar, ReadClockSysvar in *. simpl.
  match goal with
  | |- context [Z.max ?m 1] => destruct (Z.ltb_spec 1 m)
  end.
  - rewrite Z.max_l by lia. split; [lia | reflexivity].
  - rewrite Z.max_r by lia. split; [lia | reflexivity].
Qed.

Lemma Upgrade_commit_inv (execCtx : ExecutionCtx) (instrCtx : InstructionCtx)
    (txCtx txCtx' : TransactionCtx) (loc : UpgradeLocals)
    (ia0 ia2 ia3 ia6 : InstructionAccount) (pd buf sp auth : Account)
    (bst : UpgradeableLoaderState) :
  UpgradeChecked execCtx instrCtx txCtx loc ia0 ia2 ia6 pd buf auth bst ->
  UpgradeableLoaderUpgrade_commit host execCtx instrCtx loc txCtx = (Ok tt, txCtx') ->
  InstructionAccounts instrCtx !! 3%nat = Some ia3 ->
  Accounts txCtx !! IndexInTransaction ia3 = Some sp ->
  IndexInTransaction ia3 <> IndexInTransaction ia0 ->
  IndexInTransaction ia3 <> IndexInTransaction ia2 ->
  exists pd' buf' sp' st,
    Accounts txCtx' !! IndexInTransaction ia0 = Some pd' /\
    Accounts txCtx' !! IndexInTransaction ia2 = Some buf' /\
    Accounts txCtx' !! IndexInTransaction ia3 = Some sp' /\
    Lamports pd' = loc_programDataBalanceRequired loc /\
    Lamports buf' = 0 /\
    Lamports sp' = Lamports sp +
      SaturatingSubU64 (SaturatingAddU64 (Lamports pd) (Lamports buf))
        (loc_programDataBalanceRequired loc) /\
    unmarshalUpgradeableLoaderState (Data pd) = Ok st /\
    Type_ st = UpgradeableLoaderStateTypeProgramData /\
    Slot (ProgramData st) <> ClockSlot (ClockSysvar execCtx) /\
    upgradeableLoaderSizeOfProgramDataMetaData <= len (Data pd) /\
    length (Data pd') = length (Data pd) /\
    take (Z.to_nat upgradeableLoaderSizeOfProgramDataMetaData) (Data pd')
    = take (Z.to_nat upgradeableLoaderSizeOfProgramDataMetaData) (Data pd).
Proof.
  intros (H0 & H2 & H6 & HA0 & HA2 & HA6 & Hbst & Hbt & Hbl & Hfunds & ->).
  intros H H3 HA3 N30 N32.
  unfold UpgradeableLoaderUpgrade_commit in H.
  cbn [loc_clock loc_authorityKey loc_buffer loc_bufferLamports
       loc_bufferDataOffset loc_bufferDataLen loc_programData
       loc_programDataBalanceRequired] in *.
  do 2 inv_bind H. inv_bind_as H G1. inv_ifnot G1. inv_if G1.
  destruct (UpgradeAuthorityAddress _) as [ua|] eqn:Hua;
    [|by apply fail_inv in G1].
  inv_if G1. inv_bind G1. inv_if G1. inv_acc G1. same_lookups.
  assert (N02 : IndexInTransaction ia0 <> IndexInTransaction ia2).
  { intros Heq.
    match goal with
    | L : Accounts txCtx !! IndexInTransaction ia0 = Some _ |- _ =>
        rewrite Heq in L
    end.
    same_lookups. apply Z.eqb_eq in C.
    match goal with
    | D1 : unmarshalUpgradeableLoaderState ?d = Ok ?s1,
      D2 : unmarshalUpgradeableLoaderState ?d = Ok ?s2 |- _ =>
        assert (s1 = s2) by congruence; subst s1
    end.
    rewrite Hbt in C. discriminate. }
  unfold setUpgradeableLoaderAccountState in H. inv_bind_as H G2. inv_bind G2.
  inv_mut G2. same_lookups.
  match goal with Hc : Ok _ = Ok _ |- _ => injection Hc as <- end.
  rewrite go_copy_nil in *.
  new_store (IndexInTransaction ia0) (IndexInTransaction ia2)
    (IndexInTransaction ia3).
  inv_bind H. inv_if H. inv_bind H. inv_if H. do 4 inv_bind H.
  inv_bind_as H W1. inv_mut W1. same_lookups.
  new_store (IndexInTransaction ia0) (IndexInTransaction ia2)
    (IndexInTransaction ia3).
  do 2 inv_bind H. inv_bind_as H W2. inv_mut W2. same_lookups.
  new_store (IndexInTransaction ia0) (IndexInTransaction ia2)
    (IndexInTransaction ia3).
  do 2 inv_bind H. same_lookups.
  inv_bind_as H W3. unfold CheckedAddLamports in W3. inv_mut W3. same_lookups.
  match goal with
  | Hc : (if ?c then _ else _) = Ok _ |- _ =>
      destruct c; [discriminate Hc | injection Hc as <-]
  end.
  new_store (IndexInTransaction ia0) (IndexInTransaction ia2)
    (IndexInTransaction ia3).
  inv_bind_as H W4. unfold SetLamports in W4. inv_mut W4. same_lookups.
  match goal with Hc : Ok _ = Ok _ |- _ => injection Hc as <- end.
  new_store (IndexInTransaction ia0) (IndexInTransaction ia2)
    (IndexInTransaction ia3).
  inv_bind_as H W5. unfold SetLamports in W5. inv_mut W5. same_lookups.
  match goal with Hc : Ok _ = Ok _ |- _ => injection Hc as <- end.
  new_store (IndexInTransaction ia0) (IndexInTransaction ia2)
    (IndexInTransaction ia3).
  inv_bind_as H W6. unfold SetDataLength in W6. inv_mut W6. same_lookups.
  match goal with Hc : Ok _ = Ok _ |- _ => injection Hc as <- end.
  new_store (IndexInTransaction ia0) (IndexInTransaction ia2)
    (IndexInTransaction ia3).
  inv_acc H.
  match goal with
  | Hc : copy_into_slice _ _ _ _ = Ok _ |- _ =>
      apply copy_into_slice_Ok in Hc as (Hc1 & Hc2 & Hc3 & Hc4 & Hc5)
  end.
  match goal with
  | Hs : go_slice _ (SaturatingAddU64 _ _) _ = Ok _ |- _ =>
      apply go_slice_Ok in Hs as (Hs1 & Hs2 & Hs3 & _ & Hs5)
  end.
  do 4 eexists. repeat (split; [eassumption|]). cbn [Lamports Data].
  repeat (split; [reflexivity|]).
  split; [eassumption|]. split; [by apply Z.eqb_eq|].
  split; [apply Z.eqb_neq in C0; congruence|].
  unfold len in *.
  split; [lia|]. split.
  - rewrite length_app, length_take, length_replicate, Hs5. lia.
  - rewrite take_app_le by (rewrite length_take; lia).
    rewrite take_take. rewrite Nat.min_l by lia. exact Hc5.
Qed.

(** The same run, whatever the spill account is: the first 45 bytes of the
    program-data account, which hold its state, are not changed. *)
Lemma Upgrade_commit_header (execCtx : ExecutionCtx) (instrCtx : InstructionCtx)
    (txCtx txCtx' : TransactionCtx) (loc : UpgradeLocals)
    (ia0 ia2 ia6 : InstructionAccount) (pd buf auth : Account)
    (bst : UpgradeableLoaderState) :
  UpgradeChecked execCtx instrCtx txCtx loc ia0 ia2 ia6 pd buf auth bst ->
  UpgradeableLoaderUpgrade_commit host execCtx instrCtx loc txCtx = (Ok tt, txCtx') ->
  exists pd' st,
    Accounts txCtx' !! IndexInTransaction ia0 = Some pd' /\
    unmarshalUpgradeableLoaderState (Data pd) = Ok st /\
    Type_ st = UpgradeableLoaderStateTypeProgramData /\
    Slot (ProgramData st) <> ClockSlot (ClockSysvar execCtx) /\
    UpgradeAuthorityAddress (ProgramData st) = Some (Key auth) /\
    upgradeableLoaderSizeOfProgramDataMetaData <= len (Data pd) /\
    length (Data pd') = length (Data pd) /\
    take (Z.to_nat upgradeableLoaderSizeOfProgramDataMetaData) (Data pd')
    = take (Z.to_nat upgradeableLoaderSizeOfProgramDataMetaData) (Data pd).
Proof.
  intros (H0 & H2 & H6 & HA0 & HA2 & HA6 & Hbst & Hbt & Hbl & Hfunds & ->).
  intros H.
  unfold UpgradeableLoaderUpgrade_commit in H.
  cbn [loc_clock loc_authorityKey loc_buffer loc_bufferLamports
       loc_bufferDataOffset loc_bufferDataLen loc_programData
       loc_programDataBalanceRequired] in *.
  do 2 inv_bind H. inv_bind_as H G1. inv_ifnot G1. inv_if G1.
  destruct (UpgradeAuthorityAddress _) as [ua|] eqn:Hua;
    [|by apply fail_inv in G1].
  inv_if G1. inv_bind G1. inv_if G1. inv_acc G1. same_lookups.
  assert (N02 : IndexInTransaction ia0 <> IndexInTransaction ia2).
  { intros Heq.
    match goal with
    | L : Accounts txCtx !! IndexInTransaction ia0 = Some _ |- _ =>
        rewrite Heq in L
    end.
    same_lookups. apply Z.eqb_eq in C.
    match goal with
    | D1 : unmarshalUpgradeableLoaderState ?d = Ok ?s1,
      D2 : unmarshalUpgradeableLoaderState ?d = Ok ?s2 |- _ =>
        assert (s1 = s2) by congruence; subst s1
    end.
    rewrite Hbt in C. discriminate. }
  unfold setUpgradeableLoaderAccountState in H. inv_bind_as H G2. inv_bind G2.
  inv_mut G2. same_lookups.
  match goal with Hc : Ok _ = Ok _ |- _ => injection Hc as <- end.
  rewrite go_copy_nil in *.
  new_store2 (IndexInTransaction ia0) (IndexInTransaction ia2).
  inv_bind H. inv_if H. inv_bind H. inv_if H. do 4 inv_bind H.
  inv_bind_as H W1. inv_mut W1. same_lookups.
  new_store2 (IndexInTransaction ia0) (IndexInTransaction ia2).
  do 2 inv_bind H. inv_bind_as H W2. inv_mut W2. same_lookups.
  new_store2 (IndexInTransaction ia0) (IndexInTransaction ia2).
  do 2 inv_bind H. same_lookups.
  match goal with
  | L : InstructionAccounts instrCtx !! 3%nat = Some ?ia3 |- _ =>
      destruct ia3 as [i3 s3 w3]; cbn [IndexInTransaction] in *;
      destruct (decide (i3 = IndexInTransaction ia0)) as [->|N30];
      [ | destruct (decide (i3 = IndexInTransaction ia2)) as [->|N32] ]
  end; same_lookups.
  all: inv_bind_as H W3; unfold CheckedAddLamports in W3; inv_mut W3;
    same_lookups;
    match goal with
    | Hc : (if ?c then _ else _) = Ok _ |- _ =>
        destruct c; [discriminate Hc | injection Hc as <-]
    end;
    new_store2 (IndexInTransaction ia0) (IndexInTransaction ia2);
    inv_bind_as H W4; unfold SetLamports in W4; inv_mut W4; same_lookups;
    match goal with Hc : Ok _ = Ok _ |- _ => injection Hc as <- end;
    new_store2 (IndexInTransaction ia0) (IndexInTransaction ia2);
    inv_bind_as H W5; unfold SetLamports in W5; inv_mut W5; same_lookups;
    match goal with Hc : Ok _ = Ok _ |- _ => injection Hc as <- end;
    new_store2 (IndexInTransaction ia0) (IndexInTransaction ia2);
    inv_bind_as H W6; unfold SetDataLength in W6; inv_mut W6; same_lookups;
    match goal with Hc : Ok _ = Ok _ |- _ => injection Hc as <- end;
    new_store2 (IndexInTransaction ia0) (IndexInTransaction ia2);
    inv_acc H;
    match goal with
    | Hc : copy_into_slice _ _ _ _ = Ok _ |- _ =>
        apply copy_into_slice_Ok in Hc as (Hc1 & Hc2 & Hc3 & Hc4 & Hc5)
    end;
    match goal with
    | Hs : go_slice _ (SaturatingAddU64 _ _) _ = Ok _ |- _ =>
        apply go_slice_Ok in Hs as (Hs1 & Hs2 & Hs3 & _ & Hs5)
    end;
    do 2 eexists; split; [eassumption|]; cbn [Lamports Data];
    (split; [eassumption|]); (split; [by apply Z.eqb_eq|]);
    (split; [apply Z.eqb_neq in C0; congruence|]);
    (split;
     [apply negb_false_iff, bool_decide_eq_true in C1; congruence|]);
    unfold len in *; (split; [lia|]); split;
    [ rewrite length_app, length_take, length_replicate, Hs5; lia
    | rewrite take_app_le by (rewrite length_take; lia);
      rewrite take_take; rewrite Nat.min_l by lia; exact Hc5 ].
Qed.

End UpgradeRuns.

(** C8. An Upgrade call that has passed every check before the decoding of
    the program-data state (lines 673-794), on a program-data account whose
    state is ProgramData with the slot of the clock, fails with
    InvalidArgument and leaves the accounts as they were. *)
Theorem C8_Upgrade_same_slot_InvalidArgument
    (host : Host) (execCtx : ExecutionCtx) (instrCtx : InstructionCtx)
    (txCtx txCtx1 : TransactionCtx) (loc : UpgradeLocals)
    (ia0 : InstructionAccount) (pd : Account) (st : UpgradeableLoaderState) :
  UpgradeableLoaderUpgrade_checks host execCtx instrCtx txCtx = (Ok loc, txCtx1) ->
  InstructionAccounts instrCtx !! 0%nat = Some ia0 ->
  Accounts txCtx !! IndexInTransaction ia0 = Some pd ->
  unmarshalUpgradeableLoaderState (Data pd) = Ok st ->
  Type_ st = UpgradeableLoaderStateTypeProgramData ->
  ClockSlot (ClockSysvar execCtx) = Slot (ProgramData st) ->
  UpgradeableLoaderUpgrade host execCtx instrCtx txCtx
  = (Err InstrErrInvalidArgument, txCtx).
Proof.
  intros Hchecks H0 HA0 Hst Hty Hslot.
  unfold UpgradeableLoaderUpgrade. rewrite (bind_Ok _ _ _ _ _ Hchecks).
  apply Upgrade_checks_inv in Hchecks
    as [-> (ia0' & ia2 & ia6 & pd' & buf & auth & bst & Hc)].
  destruct Hc as (H0' & _ & _ & HA0' & _ & _ & _ & _ & _ & _ & ->).
  same_lookups.
  unfold UpgradeableLoaderUpgrade_commit.
  cbn [loc_clock loc_authorityKey loc_buffer loc_bufferLamports
       loc_bufferDataOffset loc_bufferDataLen loc_programData
       loc_programDataBalanceRequired].
  do 2 step. rewrite Hty, Hslot, !Z.eqb_refl. reflexivity.
Qed.

(** The spec's scenario B5: programData.slot = clock.slot = 42. *)
Lemma C8_witness :
  UpgradeableLoaderUpgrade Fixture.permissiveHost
    (Fixture.execCtxWith (fun _ => 10) 42) Fixture.upgradeInstr
    (Fixture.upgradeTx 42 5 7 100
       (Fixture.bufferBytes Fixture.authority ++ [x01; x02]))
  = (Err InstrErrInvalidArgument,
     Fixture.upgradeTx 42 5 7 100
       (Fixture.bufferBytes Fixture.authority ++ [x01; x02])).
Proof.
  eapply C8_Upgrade_same_slot_InvalidArgument;
    [vm_compute; reflexivity | reflexivity | reflexivity
    | vm_compute; reflexivity | reflexivity | reflexivity].
Defined.

(** C6, as the code has it. For a successful Upgrade whose spill account is
    another account than the program-data and the buffer account, and whose
    program-data and buffer lamports add up within u64: the lamports needed
    are max(MinimumBalance(len(programData.data)), 1), the program-data and
    buffer lamports cover them, afterwards the buffer holds 0 lamports and
    the program-data account holds the needed lamports, and the three
    changes of balance add up to 0. *)
Theorem C6_Upgrade_conserves_lamports
    (host : Host) (execCtx : ExecutionCtx) (instrCtx : InstructionCtx)
    (txCtx txCtx' : TransactionCtx)
    (ia0 ia2 ia3 : InstructionAccount) (pd buf sp : Account) :
  UpgradeableLoaderUpgrade host execCtx instrCtx txCtx = (Ok tt, txCtx') ->
  InstructionAccounts instrCtx !! 0%nat = Some ia0 ->
  InstructionAccounts instrCtx !! 2%nat = Some ia2 ->
  InstructionAccounts instrCtx !! 3%nat = Some ia3 ->
  Accounts txCtx !! IndexInTransaction ia0 = Some pd ->
  Accounts txCtx !! IndexInTransaction ia2 = Some buf ->
  Accounts txCtx !! IndexInTransaction ia3 = Some sp ->
  IndexInTransaction ia3 <> IndexInTransaction ia0 ->
  IndexInTransaction ia3 <> IndexInTransaction ia2 ->
  Lamports pd + Lamports buf <= MaxUint64 ->
  let required :=
    Z.max (MinimumBalance (RentSysvar execCtx) (len (Data pd))) 1 in
  exists pd' buf' sp',
    Accounts txCtx' !! IndexInTransaction ia0 = Some pd' /\
    Accounts txCtx' !! IndexInTransaction ia2 = Some buf' /\
    Accounts txCtx' !! IndexInTransaction ia3 = Some sp' /\
    required <= Lamports pd + Lamports buf /\
    Lamports buf' = 0 /\
    Lamports pd' = required /\
    (Lamports pd' - Lamports pd) + (Lamports sp' - Lamports sp)
    + (Lamports buf' - Lamports buf) = 0.
Proof.
  intros Hrun H0 H2 H3 HA0 HA2 HA3 N30 N32 Hsum required.
  unfold UpgradeableLoaderUpgrade in Hrun.
  apply bind_Ok_inv in Hrun as (loc & tx1 & Hchecks & Hcommit).
  apply Upgrade_checks_inv in Hchecks
    as [-> (ia0' & ia2' & ia6 & pd0 & buf0 & auth & bst & Hc)].
  pose proof Hc as (H0' & H2' & _ & HA0' & HA2' & _ & _ & _ & _ & Hfunds & Hloc).
  same_lookups.
  destruct (Upgrade_commit_inv _ _ _ _ _ _ _ _ _ _ _ _ _ _ _ Hc Hcommit H3 HA3
              N30 N32)
    as (pd' & buf' & sp' & st & T0 & T2 & T3 & Lpd & Lbuf & Lsp & _).
  rewrite Hloc in Lpd, Lsp, Hfunds.
  cbn [loc_programDataBalanceRequired] in Lpd, Lsp, Hfunds.
  exists pd', buf', sp'. repeat (split; [assumption|]).
  revert Hfunds Lsp. unfold SaturatingAddU64, SaturatingSubU64.
  match goal with
  | |- context [MaxUint64 <? ?s] => destruct (Z.ltb_spec MaxUint64 s); [lia|]
  end.
  match goal with
  | |- context [?a <? ?b] => destruct (Z.ltb_spec a b)
  end; intros Hfunds Lsp; [lia|].
  subst required. repeat split; lia.
Qed.

(** The spec's scenario E3: 5 + 7 lamports against a minimum balance of 10;
    the spill account receives 2. *)
Lemma C6_witness :
  exists txCtx',
    UpgradeableLoaderUpgrade Fixture.permissiveHost
      (Fixture.execCtxWith (fun _ => 10) 42) Fixture.upgradeInstr
      Fixture.upgradeE3 = (Ok tt, txCtx') /\
    Lamports <$> Accounts txCtx' !! 3%nat = Some 102.
Proof.
  eexists. split; [vm_compute; reflexivity|].
  edestruct (C6_Upgrade_conserves_lamports Fixture.permissiveHost
               (Fixture.execCtxWith (fun _ => 10) 42) Fixture.upgradeInstr
               Fixture.upgradeE3)
    as (pd' & buf' & sp' & _ & _ & T3 & _ & L2 & L0 & Hsum);
    [vm_compute; reflexivity | reflexivity | reflexivity | reflexivity
    | reflexivity | reflexivity | reflexivity
    | vm_compute; discriminate | vm_compute; discriminate
    | vm_compute; discriminate |].
  reflexivity.
Defined.

(** C6 as the spec states it does not hold: with a rent whose minimum
    balance is 0, and program-data and buffer lamports that add up beyond
    u64, the Upgrade succeeds, the program-data account is left with
    1 lamport (not the minimum balance 0), and the three changes of balance
    add up to -1. *)
Lemma C6_counterexample :
  let execCtx := Fixture.execCtxWith (fun _ => 0) 42 in
  let txCtx :=
    Fixture.upgradeTx 41 MaxUint64 1 0
      (Fixture.bufferBytes Fixture.authority ++ [x01; x02]) in
  exists txCtx' pd pd' buf' sp',
    UpgradeableLoaderUpgrade Fixture.permissiveHost execCtx
      Fixture.upgradeInstr txCtx = (Ok tt, txCtx') /\
    Accounts txCtx !! 0%nat = Some pd /\
    Accounts txCtx' !! 0%nat = Some pd' /\
    Accounts txCtx' !! 2%nat = Some buf' /\
    Accounts txCtx' !! 3%nat = Some sp' /\
    Lamports pd' <> MinimumBalance (RentSysvar execCtx) (len (Data pd)) /\
    (Lamports pd' - MaxUint64) + (Lamports sp' - 0) + (Lamports buf' - 1) <> 0.
Proof.
  do 5 eexists. split; [vm_compute; reflexivity|].
  repeat (split; [reflexivity|]). split; vm_compute; discriminate.
Qed.

(** C2. The claim: after a successful Upgrade the program-data account
    decodes to a ProgramData state whose slot is clock.slot and whose
    authority is the key of account 6. The code breaks it: the state it
    builds (line 824) has no Type, the marshaller writes no byte for it, and
    the header of the account stays as it was. So after every successful
    Upgrade the program-data account decodes to the state it had before;
    the authority of that state is the key of account 6, but its slot is not
    clock.slot, since the Upgrade passed the same-slot check. *)
Theorem C2_Upgrade_leaves_the_old_slot
    (host : Host) (execCtx : ExecutionCtx) (instrCtx : InstructionCtx)
    (txCtx txCtx' : TransactionCtx) (ia0 : InstructionAccount) (pd : Account) :
  UpgradeableLoaderUpgrade host execCtx instrCtx txCtx = (Ok tt, txCtx') ->
  InstructionAccounts instrCtx !! 0%nat = Some ia0 ->
  Accounts txCtx !! IndexInTransaction ia0 = Some pd ->
  exists pd' st ia6 auth,
    Accounts txCtx' !! IndexInTransaction ia0 = Some pd' /\
    unmarshalUpgradeableLoaderState (Data pd) = Ok st /\
    unmarshalUpgradeableLoaderState (Data pd') = Ok st /\
    Type_ st = UpgradeableLoaderStateTypeProgramData /\
    InstructionAccounts instrCtx !! 6%nat = Some ia6 /\
    Accounts txCtx !! IndexInTransaction ia6 = Some auth /\
    UpgradeAuthorityAddress (ProgramData st) = Some (Key auth) /\
    Slot (ProgramData st) <> ClockSlot (ClockSysvar execCtx).
Proof.
  intros Hrun H0 HA0.
  unfold UpgradeableLoaderUpgrade in Hrun.
  apply bind_Ok_inv in Hrun as (loc & tx1 & Hchecks & Hcommit).
  apply Upgrade_checks_inv in Hchecks
    as [-> (ia0' & ia2 & ia6 & pd0 & buf & auth & bst & Hc)].
  pose proof Hc as (H0' & _ & H6 & HA0' & _ & HA6 & _).
  same_lookups.
  destruct (Upgrade_commit_header _ _ _ _ _ _ _ _ _ _ _ _ _ Hc Hcommit)
    as (pd' & st & T0 & Hst & Hty & Hslot & Hauth & Hlen & Hlen' & Hhead).
  exists pd', st, ia6, auth. repeat (split; [assumption|]).
  split; [|repeat (split; [assumption|]); assumption].
  rewrite <- Hst. unfold len, upgradeableLoaderSizeOfProgramDataMetaData in *.
  apply unmarshal_same_header; [lia | lia | exact Hhead].
Qed.

(** The spec's scenario E3, with the clock at slot 42: the Upgrade succeeds
    and the program-data account still decodes to slot 41. *)
Lemma C2_witness :
  exists pd' st,
    fst (UpgradeableLoaderUpgrade Fixture.permissiveHost
           (Fixture.execCtxWith (fun _ => 10) 42) Fixture.upgradeInstr
           Fixture.upgradeE3) = Ok tt /\
    Accounts
      (snd (UpgradeableLoaderUpgrade Fixture.permissiveHost
              (Fixture.execCtxWith (fun _ => 10) 42) Fixture.upgradeInstr
              Fixture.upgradeE3)) !! 0%nat = Some pd' /\
    unmarshalUpgradeableLoaderState (Data pd') = Ok st /\
    Slot (ProgramData st) = 41.
Proof.
  edestruct (C2_Upgrade_leaves_the_old_slot Fixture.permissiveHost
               (Fixture.execCtxWith (fun _ => 10) 42) Fixture.upgradeInstr
               Fixture.upgradeE3
               (snd (UpgradeableLoaderUpgrade Fixture.permissiveHost
                       (Fixture.execCtxWith (fun _ => 10) 42)
                       Fixture.upgradeInstr Fixture.upgradeE3)))
    as (pd' & st & ia6 & auth & T0 & Hst & Hst' & _);
    [vm_compute; reflexivity | reflexivity | reflexivity |].
  exists pd', st. split; [vm_compute; reflexivity|].
  split; [exact T0|]. split; [exact Hst'|].
  vm_compute in Hst. injection Hst as <-. reflexivity.
Defined.

(** ** The dispatcher *)

(** C9. For the instruction being executed: when its data begins with a u32
    opcode outside 0..3 (4 to 7 among them), or with opcode 1 or 2 followed
    by a payload that does not decode, the dispatcher returns
    InvalidInstructionData and leaves the accounts as they were. *)
Theorem C9_dispatch_InvalidInstructionData
    (host : Host) (execCtx : ExecutionCtx) (txCtx : TransactionCtx)
    (instrCtx : InstructionCtx) :
  CurrentInstruction txCtx = Some instrCtx ->
  let run := ProcessUpgradeableLoaderInstruction host execCtx txCtx in
  (forall opcode rest,
     ReadUint32 (InstrData instrCtx) = (Ok opcode, rest) ->
     ~ (0 <= opcode <= 3) ->
     run = (Err InstrErrInvalidInstructionData, txCtx)) /\
  (forall rest e rest',
     ReadUint32 (InstrData instrCtx)
     = (Ok UpgradeableLoaderInstrTypeWrite, rest) ->
     UpgradeableLoaderInstrWrite_UnmarshalWithDecoder host rest = (Err e, rest') ->
     run = (Err InstrErrInvalidInstructionData, txCtx)) /\
  (forall rest e rest',
     ReadUint32 (InstrData instrCtx)
     = (Ok UpgradeableLoaderInstrTypeDeployWithMaxDataLen, rest) ->
     UpgradeableLoaderInstrDeployWithMaxDataLen_UnmarshalWithDecoder rest
     = (Err e, rest') ->
     run = (Err InstrErrInvalidInstructionData, txCtx)).
Proof.
  intros Hcur run. subst run. unfold ProcessUpgradeableLoaderInstruction.
  rewrite (bind_Ok _ _ _ _ _ (Current_Ok _ _ Hcur)).
  split; [|split].
  - intros opcode rest -> Hop.
    unfold UpgradeableLoaderInstrTypeInitializeBuffer,
      UpgradeableLoaderInstrTypeWrite,
      UpgradeableLoaderInstrTypeDeployWithMaxDataLen,
      UpgradeableLoaderInstrTypeUpgrade.
    destruct (Z.eqb_spec opcode 0); [lia|].
    destruct (Z.eqb_spec opcode 1); [lia|].
    destruct (Z.eqb_spec opcode 2); [lia|].
    destruct (Z.eqb_spec opcode 3); [lia|]. reflexivity.
  - intros rest e rest' -> ->. reflexivity.
  - intros rest e rest' -> ->. reflexivity.
Qed.

(** An instruction with the reserved opcode 4 (SetAuthority). *)
Lemma C9_witness :
  ProcessUpgradeableLoaderInstruction Fixture.permissiveHost
    (Fixture.execCtxWith (fun _ => 10) 42)
    (Fixture.bufferTx true (le_encode 4 4)
       (Fixture.bufferBytes Fixture.authority))
  = (Err InstrErrInvalidInstructionData,
     Fixture.bufferTx true (le_encode 4 4)
       (Fixture.bufferBytes Fixture.authority)).
Proof.
  eapply (proj1 (C9_dispatch_InvalidInstructionData Fixture.permissiveHost
                   (Fixture.execCtxWith (fun _ => 10) 42)
                   (Fixture.bufferTx true (le_encode 4 4)
                      (Fixture.bufferBytes Fixture.authority))
                   _ eq_refl));
    [vm_compute; reflexivity | vm_compute; intros [_ H]; apply H; reflexivity].
Defined.

(** ** DeployWithMaxDataLen *)

(** Whatever the accounts, DeployWithMaxDataLen does not succeed: once the
    program account has been found Uninitialized, the state the buffer
    checks look at is decoded from the program account again (line 528) and
    is not a Buffer. *)
Lemma Deploy_never_succeeds
    (host : Host) (execCtx : ExecutionCtx) (instrCtx : InstructionCtx)
    (deploy : UpgradeableLoaderInstrDeployWithMaxDataLen)
    (txCtx txCtx' : TransactionCtx) (u : unit) :
  UpgradeableLoaderDeployWithMaxDataLen host execCtx instrCtx deploy txCtx
  <> (Ok u, txCtx').
Proof.
  unfold UpgradeableLoaderDeployWithMaxDataLen, checkAcctForRentSysvar,
    checkAcctForClockSysvar. intros H.
  do 8 inv_bind H. inv_bind_as H G. cbv beta in G.
  destruct (IndexOfInstructionAccountInTransaction instrCtx 1 txCtx)
    as [[n| |] s] eqn:EI; [| |discriminate G].
  - inv_acc EI. inv_bind G. inv_acc G.
    do 3 inv_bind H. inv_if H. inv_bind H. inv_if H. do 2 inv_bind H. inv_if H.
    do 4 inv_bind H. same_lookups.
    match goal with
    | D1 : unmarshalUpgradeableLoaderState ?d = Ok ?s1,
      D2 : unmarshalUpgradeableLoaderState ?d = Ok ?s2 |- _ =>
        assert (s1 = s2) by congruence; subst s1
    end.
    inv_if H.
    repeat match goal with
    | C : negb (_ =? _) = false |- _ =>
        apply negb_false_iff, Z.eqb_eq in C
    end.
    unfold UpgradeableLoaderStateTypeBuffer,
      UpgradeableLoaderStateTypeUninitialized in *. congruence.
  - unfold IndexOfInstructionAccountInTransaction in EI.
    match goal with
    | L : InstructionAccounts instrCtx !! 1%nat = Some _ |- _ =>
        rewrite L in EI; discriminate EI
    end.
Qed.

(** C3. The claim: the Buffer-tag and authority checks of
    DeployWithMaxDataLen look at the state of the buffer account, so that
    the spec's scenario B4 fails with AccountDataTooSmall. The code breaks
    it: the state it checks for the Buffer tag is decoded from the program
    account (line 528). So a call with eight accounts and the two sysvars in
    place, whose program account (index 2) is Uninitialized, at least 36
    bytes long and rent exempt, returns InvalidArgument whatever the buffer
    account (index 3) holds and whatever max_data_len is. *)
Theorem C3_Deploy_checks_the_program_account
    (host : Host) (execCtx : ExecutionCtx) (instrCtx : InstructionCtx)
    (deploy : UpgradeableLoaderInstrDeployWithMaxDataLen)
    (txCtx : TransactionCtx)
    (ia0 ia1 ia2 ia3 ia4 ia5 ia7 : InstructionAccount)
    (payer pd program buf rent clock : Account)
    (pst : UpgradeableLoaderState) :
  InstructionAccounts instrCtx !! 0%nat = Some ia0 ->
  InstructionAccounts instrCtx !! 1%nat = Some ia1 ->
  InstructionAccounts instrCtx !! 2%nat = Some ia2 ->
  InstructionAccounts instrCtx !! 3%nat = Some ia3 ->
  InstructionAccounts instrCtx !! 4%nat = Some ia4 ->
  InstructionAccounts instrCtx !! 5%nat = Some ia5 ->
  InstructionAccounts instrCtx !! 7%nat = Some ia7 ->
  Accounts txCtx !! IndexInTransaction ia0 = Some payer ->
  Accounts txCtx !! IndexInTransaction ia1 = Some pd ->
  Accounts txCtx !! IndexInTransaction ia2 = Some program ->
  Accounts txCtx !! IndexInTransaction ia3 = Some buf ->
  Accounts txCtx !! IndexInTransaction ia4 = Some rent ->
  Accounts txCtx !! IndexInTransaction ia5 = Some clock ->
  Key rent = SysvarRentAddr host ->
  Key clock = SysvarClockAddr host ->
  unmarshalUpgradeableLoaderState (Data program) = Ok pst ->
  Type_ pst = UpgradeableLoaderStateTypeUninitialized ->
  upgradeableLoaderSizeOfProgram <= len (Data program) ->
  MinimumBalance (RentSysvar execCtx) (len (Data program)) <= Lamports program ->
  UpgradeableLoaderDeployWithMaxDataLen host execCtx instrCtx deploy txCtx
  = (Err InstrErrInvalidArgument, txCtx).
Proof.
  intros H0 H1 H2 H3 H4 H5 H7 HA0 HA1 HA2 HA3 HA4 HA5 Krent Kclock Hpst Hty
    Hlen Hrent.
  unfold UpgradeableLoaderDeployWithMaxDataLen, checkAcctForRentSysvar,
    checkAcctForClockSysvar, ReadRentSysvar.
  do 8 step.
  unfold bind at 1. rewrite (IndexOf_Ok _ _ _ _ H1). step.
  change (ret (Some (Key pd)) txCtx) with (Ok (Some (Key pd)), txCtx).
  cbv beta iota. do 3 step.
  rewrite Hty. simpl. step.
  destruct (Z.ltb_spec (len (Data program)) upgradeableLoaderSizeOfProgram);
    [lia|].
  do 2 step.
  destruct (Z.ltb_spec (Lamports program)
              (MinimumBalance (RentSysvar execCtx) (len (Data program))));
    [lia|].
  do 4 step. rewrite Hty. reflexivity.
Qed.

(** The spec's scenario B4: the program account is Uninitialized, 36 bytes
    long and funded; the buffer account holds a Buffer state whose authority
    is the key of account 7, which signed, followed by 100 bytes;
    max_data_len is 99. *)
Lemma C3_witness :
  (exists buffer st,
     Accounts Fixture.deployB4 !! 3%nat = Some buffer /\
     unmarshalUpgradeableLoaderState (Data buffer) = Ok st /\
     Type_ st = UpgradeableLoaderStateTypeBuffer /\
     AuthorityAddress (Buffer st) = Some Fixture.authority /\
     Key <$> Accounts Fixture.deployB4 !! 7%nat = Some Fixture.authority /\
     IsSigner <$> InstructionAccounts Fixture.deployInstr !! 7%nat = Some true /\
     SaturatingSubU64 (len (Data buffer)) upgradeableLoaderSizeOfBufferMetaData
     = 100) /\
  UpgradeableLoaderDeployWithMaxDataLen Fixture.permissiveHost
    (Fixture.execCtxWith (fun _ => 10) 42) Fixture.deployInstr
    {| MaxDataLen := 99 |} Fixture.deployB4
  = (Err InstrErrInvalidArgument, Fixture.deployB4).
Proof.
  split.
  - do 2 eexists. repeat (split; [vm_compute; reflexivity|]).
    vm_compute; reflexivity.
  - eapply (C3_Deploy_checks_the_program_account Fixture.permissiveHost);
      try reflexivity; vm_compute; discriminate.
Defined.

(** ** Upgrade on a buffer that does not decode *)

(** C4. The claim: an Upgrade whose buffer account holds bytes that do not
    decode returns an error. The code breaks it: the error of the decoding
    is dropped (line 752) and the nil state is dereferenced. So an Upgrade
    that passes the checks on the program account (executable, writable,
    owned by the loader, a Program state that points to account 0) and whose
    buffer account does not decode panics. *)
Theorem C4_Upgrade_panics_on_undecodable_buffer
    (host : Host) (execCtx : ExecutionCtx) (instrCtx : InstructionCtx)
    (txCtx : TransactionCtx)
    (ia0 ia1 ia2 ia4 ia5 ia6 : InstructionAccount)
    (pd program buf rent clock auth : Account)
    (pst : UpgradeableLoaderState) :
  InstructionAccounts instrCtx !! 0%nat = Some ia0 ->
  InstructionAccounts instrCtx !! 1%nat = Some ia1 ->
  InstructionAccounts instrCtx !! 2%nat = Some ia2 ->
  InstructionAccounts instrCtx !! 4%nat = Some ia4 ->
  InstructionAccounts instrCtx !! 5%nat = Some ia5 ->
  InstructionAccounts instrCtx !! 6%nat = Some ia6 ->
  Accounts txCtx !! IndexInTransaction ia0 = Some pd ->
  Accounts txCtx !! IndexInTransaction ia1 = Some program ->
  Accounts txCtx !! IndexInTransaction ia2 = Some buf ->
  Accounts txCtx !! IndexInTransaction ia4 = Some rent ->
  Accounts txCtx !! IndexInTransaction ia5 = Some clock ->
  Accounts txCtx !! IndexInTransaction ia6 = Some auth ->
  Key rent = SysvarRentAddr host ->
  Key clock = SysvarClockAddr host ->
  Executable program = true ->
  IsWritable ia1 = true ->
  Owner program = ProgramKey instrCtx ->
  unmarshalUpgradeableLoaderState (Data program) = Ok pst ->
  Type_ pst = UpgradeableLoaderStateTypeProgram ->
  ProgramDataAddress (Program pst) = Key pd ->
  (forall st, unmarshalUpgradeableLoaderState (Data buf) <> Ok st) ->
  UpgradeableLoaderUpgrade host execCtx instrCtx txCtx
  = (Panic NilPointerDereference, txCtx).
Proof.
  intros H0 H1 H2 H4 H5 H6 HA0 HA1 HA2 HA4 HA5 HA6 Krent Kclock Hexe Hwr Hown
    Hpst Hpty Hpaddr Hbad.
  unfold UpgradeableLoaderUpgrade.
  erewrite bind_Panic; [reflexivity|].
  unfold UpgradeableLoaderUpgrade_checks, checkAcctForRentSysvar,
    checkAcctForClockSysvar.
  do 10 step. rewrite Hexe. simpl. step. rewrite Hwr. simpl. do 2 step.
  rewrite Hown, bool_decide_true by reflexivity. simpl.
  do 2 step. rewrite Hpty, Hpaddr. simpl.
  rewrite bool_decide_true by reflexivity. simpl.
  unfold bind at 1. simpl. do 2 step.
  destruct (unmarshalUpgradeableLoaderState (Data buf)) as [st| |] eqn:E.
  - exfalso. exact (Hbad st eq_refl).
  - reflexivity.
  - by apply unmarshal_no_panic in E.
Qed.

(** On the accounts of the spec's scenario E3, with a buffer account that
    carries the unknown tag 9. *)
Lemma C4_witness :
  UpgradeableLoaderUpgrade Fixture.permissiveHost
    (Fixture.execCtxWith (fun _ => 10) 42) Fixture.upgradeInstr
    (Fixture.upgradeTx 41 5 7 100
       (le_encode 4 9 ++ [x01] ++ Fixture.authority ++ [x01; x02]))
  = (Panic NilPointerDereference,
     Fixture.upgradeTx 41 5 7 100
       (le_encode 4 9 ++ [x01] ++ Fixture.authority ++ [x01; x02])).
Proof.
  eapply (C4_Upgrade_panics_on_undecodable_buffer Fixture.permissiveHost);
    try reflexivity.
  intros st. vm_compute. discriminate.
Defined.

(** The same with an empty buffer account. *)
Example Upgrade_panics_on_empty_buffer :
  fst (UpgradeableLoaderUpgrade Fixture.permissiveHost
         (Fixture.execCtxWith (fun _ => 10) 42) Fixture.upgradeInstr
         (Fixture.upgradeTx 41 5 7 100 []))
  = Panic NilPointerDereference.
Proof. vm_compute. reflexivity. Qed.

(** ** InitializeBuffer *)

(** C10. The claim: InitializeBuffer on an Uninitialized buffer succeeds and
    sets the buffer state to Buffer with the key of account 1 as authority,
    whoever signed. The handler makes no signer check indeed and builds that
    state, but the code breaks the claim: what it asks the host to write at
    the start of the account are the 32 bytes of the key alone, since the
    marshaller writes neither tag nor flag. The call returns what that
    write returns. *)
Theorem C10_InitializeBuffer_writes_the_bare_key
    (host : Host) (execCtx : ExecutionCtx) (instrCtx : InstructionCtx)
    (txCtx : TransactionCtx) (ia0 ia1 : InstructionAccount) (a0 a1 : Account)
    (st : UpgradeableLoaderState) :
  InstructionAccounts instrCtx !! 0%nat = Some ia0 ->
  InstructionAccounts instrCtx !! 1%nat = Some ia1 ->
  Accounts txCtx !! IndexInTransaction ia0 = Some a0 ->
  Accounts txCtx !! IndexInTransaction ia1 = Some a1 ->
  unmarshalUpgradeableLoaderState (Data a0) = Ok st ->
  Type_ st = UpgradeableLoaderStateTypeUninitialized ->
  let f := GlobalCtx_Features execCtx in
  UpgradeableLoaderInitializeBuffer host execCtx instrCtx txCtx
  = match Refuses host ia0 (MutSetState f (Key a1)) txCtx with
    | Some e => (Err e, txCtx)
    | None =>
        (Ok tt,
         withAccount (IndexInTransaction ia0)
           {| Key := Key a0; Owner := Owner a0; Lamports := Lamports a0;
              Data := go_copy (Data a0) (Key a1);
              Executable := Executable a0 |} txCtx)
    end.
Proof.
  intros H0 H1 HA0 HA1 Hst Hty f.
  unfold UpgradeableLoaderInitializeBuffer. do 4 step. rewrite Hty. simpl.
  do 2 step.
  unfold setUpgradeableLoaderAccountState, marshalUpgradeableLoaderState,
    UpgradeableLoaderState_MarshalWithEncoder,
    UpgradeableLoaderStateBuffer_MarshalWithEncoder, WriteBytes.
  simpl. unfold bind at 1, lift. simpl.
  unfold SetState, mutate. fold f. rewrite HA0.
  destruct (Refuses host ia0 (MutSetState f (Key a1)) txCtx); reflexivity.
Qed.

(** A buffer account of 37 zero bytes and an authority that did not sign:
    the call succeeds, and the account then begins with the key and does not
    decode to a Buffer state. *)
Lemma C10_witness :
  let run :=
    UpgradeableLoaderInitializeBuffer Fixture.permissiveHost
      (Fixture.execCtxWith (fun _ => 10) 42)
      (Fixture.bufferInstr false (le_encode 4 0))
      (Fixture.bufferTx false (le_encode 4 0) (replicate 37 x00)) in
  fst run = Ok tt /\
  Data <$> Accounts (snd run) !! 0%nat
  = Some (Fixture.authority ++ replicate 5 x00) /\
  unmarshalUpgradeableLoaderState (Fixture.authority ++ replicate 5 x00)
  = Err InstrErrInvalidAccountData.
Proof.
  intros run. subst run.
  erewrite (C10_InitializeBuffer_writes_the_bare_key Fixture.permissiveHost)
    by reflexivity.
  repeat split; vm_compute; reflexivity.
Defined.

(** * Further properties of the code *)

(** ** The state decoder (lines 101-260) *)

Lemma byteZ_byteOfZ (z : Z) : byteZ (byteOfZ z) = z mod 256.
Proof.
  unfold byteZ, byteOfZ.
  assert (H : 0 <= z mod 256 < 256) by (apply Z.mod_pos_bound; lia).
  destruct (Byte.of_N (Z.to_N (z mod 256))) as [b|] eqn:Hb.
  - apply Byte.to_of_N in Hb. rewrite Hb. lia.
  - apply Byte.of_N_None_iff in Hb. lia.
Qed.

Lemma le_decode_le_encode (n : nat) (v : Z) :
  le_decode (le_encode n v) = v mod 256 ^ Z.of_nat n.
Proof.
  revert v. induction n as [|n IH]; intros v.
  - simpl. by rewrite Z.mod_1_r.
  - cbn [le_encode le_decode]. rewrite IH, byteZ_byteOfZ.
    rewrite Nat2Z.inj_succ, Z.pow_succ_r by lia.
    rewrite Z.rem_mul_r by lia. lia.
Qed.

Lemma ReadBytes_exact (bs x : list byte) :
  ReadBytes (length bs) (bs ++ x) = (Ok bs, x).
Proof.
  rewrite ReadBytes_app by lia. by rewrite take_ge, drop_ge by lia.
Qed.

Lemma ReadBytes_short (n : nat) (d : list byte) :
  (length d < n)%nat -> ReadBytes n d = (Err ErrBinDecoder, d).
Proof.
  intros H. unfold ReadBytes.
  destruct (Nat.ltb_spec (length d) n); [reflexivity | lia].
Qed.

(** Reading back the [n] little-endian bytes of a value. *)
Lemma ReadUint_le_encode (n : nat) (v : Z) (x : list byte) :
  0 <= v < 256 ^ Z.of_nat n ->
  bind (ReadBytes n) (fun bs => ret (le_decode bs)) (le_encode n v ++ x)
  = (Ok v, x).
Proof.
  intros Hv. unfold bind.
  rewrite <- (length_le_encode n v) at 1. rewrite ReadBytes_exact.
  unfold ret. by rewrite le_decode_le_encode, Z.mod_small.
Qed.

Lemma ReadBool_lookup (d : list byte) (n : nat) :
  ReadBool (drop n d) =
  match d !! n with
  | Some b => (Ok (negb (byteZ b =? 0)), drop (S n) d)
  | None => (Err ErrBinDecoder, drop n d)
  end.
Proof.
  unfold ReadBool. destruct (d !! n) as [b|] eqn:Hb.
  - by rewrite (drop_S _ _ _ Hb).
  - apply lookup_ge_None in Hb. by rewrite drop_ge.
Qed.

Lemma unmarshal_Type (d : list byte) (st : UpgradeableLoaderState) :
  unmarshalUpgradeableLoaderState d = Ok st ->
  Type_ st = le_decode (take 4 d).
Proof.
  unfold unmarshalUpgradeableLoaderState,
    UpgradeableLoaderState_UnmarshalWithDecoder,
    UpgradeableLoaderStateBuffer_UnmarshalWithDecoder,
    UpgradeableLoaderStateProgram_UnmarshalWithDecoder,
    UpgradeableLoaderStateProgramData_UnmarshalWithDecoder,
    ReadUint32, ReadUint64, bind, ret, fail.
  unfold ReadBytes at 1. destruct (_ <? _)%nat; [discriminate|].
  repeat match goal with
  | |- context [ReadBytes ?n ?d] => destruct (ReadBytes n d) as [[?| |?] ?]
  | |- context [ReadBool ?d] => destruct (ReadBool d) as [[[|]| |?] ?]
  | |- context [if ?c then _ else _] => destruct c
  end; try discriminate; by intros [= <-].
Qed.

(** A state other than ProgramData is decoded from the first 37 bytes. *)
Lemma unmarshal_app_37 (p x y : list byte) :
  (37 <= length p)%nat ->
  le_decode (take 4 p) <> UpgradeableLoaderStateTypeProgramData ->
  unmarshalUpgradeableLoaderState (p ++ x)
  = unmarshalUpgradeableLoaderState (p ++ y).
Proof.
  intros Hp Ht.
  unfold unmarshalUpgradeableLoaderState,
    UpgradeableLoaderState_UnmarshalWithDecoder,
    UpgradeableLoaderStateBuffer_UnmarshalWithDecoder,
    UpgradeableLoaderStateProgram_UnmarshalWithDecoder,
    ReadUint32, bind, ret, fail, PublicKeyLength.
  rewrite !(ReadBytes_app 4) by lia.
  destruct (Z.eqb_spec (le_decode (take 4 p))
              UpgradeableLoaderStateTypeProgramData) as [|_]; [done|].
  repeat match goal with |- context [if ?c then _ else _] => destruct c end;
    try reflexivity.
  - destruct (ReadBool_app (drop 4 p) x) as (b & -> & Hb);
      [rewrite length_drop; lia|].
    rewrite Hb. destruct b; [|reflexivity].
    rewrite !(ReadBytes_app 32) by (rewrite !length_drop; lia). reflexivity.
  - rewrite !(ReadBytes_app 32) by (rewrite !length_drop; lia). reflexivity.
Qed.

Lemma unmarshal_Buffer_header (d d' : list byte) (st : UpgradeableLoaderState) :
  unmarshalUpgradeableLoaderState d = Ok st ->
  Type_ st = UpgradeableLoaderStateTypeBuffer ->
  length d' = length d ->
  take 37 d' = take 37 d ->
  unmarshalUpgradeableLoaderState d' = Ok st.
Proof.
  intros Hst Hty Hlen Htake. rewrite <- Hst.
  destruct (le_lt_dec 37 (length d)) as [L|L].
  - rewrite <- (take_drop 37 d), <- (take_drop 37 d'), Htake.
    apply unmarshal_app_37; [rewrite length_take; lia|].
    rewrite take_take. change (4 `min` 37)%nat with 4%nat.
    apply unmarshal_Type in Hst. rewrite <- Hst, Hty. discriminate.
  - rewrite take_ge in Htake by lia. rewrite take_ge in Htake by lia.
    by subst d'.
Qed.

(** X1. The state decoder looks at the first 45 bytes of the account data
    and at nothing else: a byte string decodes to what its first 45 bytes
    decode to, or fails as they do. *)
Theorem unmarshal_reads_the_first_45_bytes (data : list byte) :
  unmarshalUpgradeableLoaderState data
  = unmarshalUpgradeableLoaderState (take 45 data).
Proof.
  destruct (le_lt_dec 45 (length data)) as [H|H].
  - rewrite <- (take_drop 45 data) at 1.
    rewrite <- (app_nil_r (take 45 data)) at 2.
    apply unmarshal_app. rewrite length_take. lia.
  - rewrite take_ge by lia. reflexivity.
Qed.

Lemma unmarshal_Ok_iff_decodable (data : list byte) :
  (exists s, unmarshalUpgradeableLoaderState data = Ok s) <-> decodable data.
Proof.
  unfold unmarshalUpgradeableLoaderState,
    UpgradeableLoaderState_UnmarshalWithDecoder,
    UpgradeableLoaderStateBuffer_UnmarshalWithDecoder,
    UpgradeableLoaderStateProgram_UnmarshalWithDecoder,
    UpgradeableLoaderStateProgramData_UnmarshalWithDecoder,
    ReadUint32, ReadUint64, bind, ret, fail, decodable, PublicKeyLength,
    UpgradeableLoaderStateTypeUninitialized, UpgradeableLoaderStateTypeBuffer,
    UpgradeableLoaderStateTypeProgram, UpgradeableLoaderStateTypeProgramData.
  unfold ReadBytes at 1.
  destruct (Nat.ltb_spec (length data) 4) as [L4|L4].
  { split; [intros [s [=]] | intros [H _]; lia]. }
  set (tag := le_decode (take 4 data)). cbv zeta.
  destruct (Z.eqb_spec tag 0) as [T0|T0].
  { split; [intros _; split; [lia | left; assumption] | eauto]. }
  destruct (Z.eqb_spec tag 1) as [T1|T1].
  { rewrite ReadBool_lookup.
    destruct (data !! 4%nat) as [flag|] eqn:E4.
    - destruct (Z.eqb_spec (byteZ flag) 0) as [F|F]; simpl.
      + split; [|eauto]. intros _. split; [lia|]. right; left.
        split; [assumption|]. eauto.
      + unfold ReadBytes. rewrite length_drop.
        destruct (Nat.ltb_spec (length data - 5) 32) as [L|L].
        * split; [intros [s [=]]|].
          intros [_ [?|[(_ & f & [= <-] & [?|?])|[[? _]|[? _]]]]]; lia.
        * split; [|eauto]. intros _. split; [lia|]. right; left.
          split; [assumption|]. exists flag. split; [reflexivity|]. right. lia.
    - split; [intros [s [=]]|].
      intros [_ [?|[(_ & f & [=] & _)|[[? _]|[? _]]]]]; lia. }
  destruct (Z.eqb_spec tag 2) as [T2|T2].
  { unfold ReadBytes. rewrite length_drop.
    destruct (Nat.ltb_spec (length data - 4) 32) as [L|L].
    - split; [intros [s [=]]|].
      intros [_ [?|[[? _]|[[_ ?]|[? _]]]]]; lia.
    - split; [|eauto]. intros _. split; [lia|]. do 2 right; left.
      split; [assumption | lia]. }
  destruct (Z.eqb_spec tag 3) as [T3|T3].
  { unfold ReadBytes at 1. rewrite length_drop.
    destruct (Nat.ltb_spec (length data - 4) 8) as [L|L].
    - split; [intros [s [=]]|].
      intros [_ [?|[[? _]|[[? _]|(_ & f & Hf & _)]]]]; try lia.
      apply lookup_lt_Some in Hf. lia.
    - rewrite drop_drop. change (4 + 8)%nat with 12%nat.
      rewrite ReadBool_lookup.
      destruct (data !! 12%nat) as [flag|] eqn:E12.
      + destruct (Z.eqb_spec (byteZ flag) 0) as [F|F]; simpl.
        * split; [|eauto]. intros _. split; [lia|]. do 3 right.
          split; [assumption|]. eauto.
        * unfold ReadBytes. rewrite length_drop.
          destruct (Nat.ltb_spec (length data - 13) 32) as [L'|L'].
          -- split; [intros [s [=]]|].
             intros [_ [?|[[? _]|[[? _]|(_ & f & [= <-] & [?|?])]]]]; lia.
          -- split; [|eauto]. intros _. split; [lia|]. do 3 right.
             split; [assumption|]. exists flag. split; [reflexivity|].
             right. lia.
      + split; [intros [s [=]]|].
        intros [_ [?|[[? _]|[[? _]|(_ & f & [=] & _)]]]]; lia. }
  split; [intros [s [=]]|]. intros [_ [?|[[? _]|[[? _]|[? _]]]]]; lia.
Qed.

Lemma unmarshal_not_decodable (data : list byte) :
  ~ decodable data ->
  unmarshalUpgradeableLoaderState data = Err InstrErrInvalidAccountData.
Proof.
  intros Hn.
  destruct (unmarshalUpgradeableLoaderState data) as [s|e|p] eqn:Hr.
  - exfalso. apply Hn, unmarshal_Ok_iff_decodable. eauto.
  - by apply unmarshal_Err in Hr as ->.
  - by apply unmarshal_no_panic in Hr.
Qed.

(** X2. The byte strings that decode are those of at least 4 bytes whose
    little-endian tag is 0; or 1, with a flag byte at index 4 that is zero
    or is followed by 32 bytes; or 2, followed by 32 bytes; or 3, with a
    flag byte at index 12 that is zero or is followed by 32 bytes. On every
    other byte string (the empty one, a tag above 3, a key cut short) the
    decoder returns InvalidAccountData; it never panics. *)
Theorem unmarshal_accepts_the_decodable (data : list byte) :
  ((exists s, unmarshalUpgradeableLoaderState data = Ok s) <-> decodable data) /\
  (~ decodable data ->
   unmarshalUpgradeableLoaderState data = Err InstrErrInvalidAccountData).
Proof.
  split; [apply unmarshal_Ok_iff_decodable | apply unmarshal_not_decodable].
Qed.

(** A buffer header cut after 20 of the 32 bytes of its key is not
    decodable, and decodes to InvalidAccountData. *)
Lemma unmarshal_accepts_the_decodable_witness :
  unmarshalUpgradeableLoaderState
    (le_encode 4 1 ++ [x01] ++ replicate 20 x07)
  = Err InstrErrInvalidAccountData.
Proof.
  apply (proj2 (unmarshal_accepts_the_decodable
                  (le_encode 4 1 ++ [x01] ++ replicate 20 x07))).
  intros [_ [H|[(_ & f & [= <-] & [H|H])|[[H _]|[H _]]]]];
    vm_compute in H; first [discriminate H | lia].
Defined.

(** X3. What the decoder reads from each layout, whatever follows it: the
    tag alone as Uninitialized; tag 1, a zero flag as a Buffer without
    authority; tag 1, a non-zero flag and 32 bytes as a Buffer with that
    authority; tag 2 and 32 bytes as a Program with that program-data
    address; tag 3, a u64 slot and a zero flag as ProgramData without
    authority; tag 3, the slot, a non-zero flag and 32 bytes as ProgramData
    with that authority. Tag and slot are little-endian; the fields of the
    other variants are left at their zero values. *)
Theorem unmarshal_of_layout (k : PublicKey) (slot : Z) (flag : byte)
    (rest : list byte) :
  length k = PublicKeyLength ->
  0 <= slot <= MaxUint64 ->
  byteZ flag <> 0 ->
  unmarshalUpgradeableLoaderState (le_encode 4 0 ++ rest) = Ok zeroState /\
  unmarshalUpgradeableLoaderState (le_encode 4 1 ++ [x00] ++ rest)
  = Ok {| Type_ := UpgradeableLoaderStateTypeBuffer;
          Buffer := {| AuthorityAddress := None |};
          Program := zeroProgram; ProgramData := zeroProgramData |} /\
  unmarshalUpgradeableLoaderState (le_encode 4 1 ++ [flag] ++ k ++ rest)
  = Ok {| Type_ := UpgradeableLoaderStateTypeBuffer;
          Buffer := {| AuthorityAddress := Some k |};
          Program := zeroProgram; ProgramData := zeroProgramData |} /\
  unmarshalUpgradeableLoaderState (le_encode 4 2 ++ k ++ rest)
  = Ok {| Type_ := UpgradeableLoaderStateTypeProgram;
          Buffer := zeroBuffer;
          Program := {| ProgramDataAddress := k |};
          ProgramData := zeroProgramData |} /\
  unmarshalUpgradeableLoaderState
    (le_encode 4 3 ++ le_encode 8 slot ++ [x00] ++ rest)
  = Ok {| Type_ := UpgradeableLoaderStateTypeProgramData;
          Buffer := zeroBuffer; Program := zeroProgram;
          ProgramData := {| Slot := slot;
                            UpgradeAuthorityAddress := None |} |} /\
  unmarshalUpgradeableLoaderState
    (le_encode 4 3 ++ le_encode 8 slot ++ [flag] ++ k ++ rest)
  = Ok {| Type_ := UpgradeableLoaderStateTypeProgramData;
          Buffer := zeroBuffer; Program := zeroProgram;
          ProgramData := {| Slot := slot;
                            UpgradeAuthorityAddress := Some k |} |}.
Proof.
  intros Hk Hslot Hflag.
  assert (Hs : 0 <= slot < 256 ^ Z.of_nat 8) by (unfold MaxUint64 in *; lia).
  apply Z.eqb_neq in Hflag.
  unfold unmarshalUpgradeableLoaderState,
    UpgradeableLoaderState_UnmarshalWithDecoder,
    UpgradeableLoaderStateBuffer_UnmarshalWithDecoder,
    UpgradeableLoaderStateProgram_UnmarshalWithDecoder,
    UpgradeableLoaderStateProgramData_UnmarshalWithDecoder,
    ReadUint32, ReadUint64.
  split; [reflexivity|]. split; [reflexivity|].
  split; [|split; [|split]].
  - rewrite (bind_Ok _ _ _ _ _ (ReadUint_le_encode 4 1 _ ltac:(simpl; lia))).
    cbn [Z.eqb UpgradeableLoaderStateTypeUninitialized
         UpgradeableLoaderStateTypeBuffer Pos.eqb].
    unfold bind at 1 2. cbn [ReadBool app]. rewrite Hflag. cbn [negb].
    unfold bind. rewrite <- Hk, ReadBytes_exact. reflexivity.
  - rewrite (bind_Ok _ _ _ _ _ (ReadUint_le_encode 4 2 _ ltac:(simpl; lia))).
    cbn [Z.eqb UpgradeableLoaderStateTypeUninitialized
         UpgradeableLoaderStateTypeBuffer UpgradeableLoaderStateTypeProgram
         Pos.eqb].
    unfold bind. rewrite <- Hk, ReadBytes_exact. unfold ret.
    do 3 f_equal. unfold go_copy, zeroState, zeroProgram, zeroPublicKey.
    cbn [Program ProgramDataAddress].
    rewrite length_replicate, Hk, take_ge, drop_ge;
      rewrite ?length_replicate; [by rewrite app_nil_r | lia ..].
  - rewrite (bind_Ok _ _ _ _ _ (ReadUint_le_encode 4 3 _ ltac:(simpl; lia))).
    cbn [Z.eqb UpgradeableLoaderStateTypeUninitialized
         UpgradeableLoaderStateTypeBuffer UpgradeableLoaderStateTypeProgram
         UpgradeableLoaderStateTypeProgramData Pos.eqb].
    unfold bind at 1.
    rewrite (bind_Ok _ _ _ _ _ (ReadUint_le_encode 8 slot _ Hs)).
    reflexivity.
  - rewrite (bind_Ok _ _ _ _ _ (ReadUint_le_encode 4 3 _ ltac:(simpl; lia))).
    cbn [Z.eqb UpgradeableLoaderStateTypeUninitialized
         UpgradeableLoaderStateTypeBuffer UpgradeableLoaderStateTypeProgram
         UpgradeableLoaderStateTypeProgramData Pos.eqb].
    unfold bind at 1.
    rewrite (bind_Ok _ _ _ _ _ (ReadUint_le_encode 8 slot _ Hs)).
    unfold bind at 1. cbn [ReadBool app]. rewrite Hflag. cbn [negb].
    unfold bind. rewrite <- Hk, ReadBytes_exact. reflexivity.
Qed.

(** The program-data header of slot 41 and of the authority of the
    fixtures, with the flag byte FF and four bytes after it. *)
Lemma unmarshal_of_layout_witness :
  unmarshalUpgradeableLoaderState
    (le_encode 4 3 ++ le_encode 8 41 ++ [xff] ++ Fixture.authority ++
     [xde; xad; xbe; xef])
  = Ok {| Type_ := UpgradeableLoaderStateTypeProgramData;
          Buffer := zeroBuffer; Program := zeroProgram;
          ProgramData :=
            {| Slot := 41;
               UpgradeAuthorityAddress := Some Fixture.authority |} |}.
Proof.
  apply (unmarshal_of_layout Fixture.authority 41 xff [xde; xad; xbe; xef]);
    [reflexivity | unfold MaxUint64; lia | vm_compute; discriminate].
Defined.

(** ** The instruction payloads (lines 78-99) and the dispatcher *)

Lemma Write_payload (host : Host) (offset : Z) (rest : list byte) :
  0 <= offset < 2 ^ 32 ->
  UpgradeableLoaderInstrWrite_UnmarshalWithDecoder host
    (le_encode 4 offset ++ rest)
  = match ReadByteSlice host rest with
    | (Ok bytes, rest') => (Ok {| Offset := offset; Bytes := bytes |}, rest')
    | (Err e, rest') => (Err e, rest')
    | (Panic p, rest') => (Panic p, rest')
    end.
Proof.
  intros Ho. unfold UpgradeableLoaderInstrWrite_UnmarshalWithDecoder, ReadUint32.
  rewrite (bind_Ok _ _ _ _ _ (ReadUint_le_encode 4 offset rest Ho)).
  unfold bind. by destruct (ReadByteSlice host rest) as [[?| |] ?].
Qed.

Lemma Deploy_payload (maxDataLen : Z) (rest : list byte) :
  0 <= maxDataLen <= MaxUint64 ->
  UpgradeableLoaderInstrDeployWithMaxDataLen_UnmarshalWithDecoder
    (le_encode 8 maxDataLen ++ rest)
  = (Ok {| MaxDataLen := maxDataLen |}, rest).
Proof.
  intros Hm.
  assert (H8 : 0 <= maxDataLen < 256 ^ Z.of_nat 8)
    by (unfold MaxUint64 in Hm; lia).
  unfold UpgradeableLoaderInstrDeployWithMaxDataLen_UnmarshalWithDecoder,
    ReadUint64.
  by rewrite (bind_Ok _ _ _ _ _ (ReadUint_le_encode 8 maxDataLen rest H8)).
Qed.

(** X4. The payload decoders read little-endian fields and leave the bytes
    after them: Write a u32 offset, then the byte slice as the library reads
    it; DeployWithMaxDataLen a u64; ExtendProgram a u32. On fewer than four
    bytes each of them fails and leaves the decoder where it was. *)
Theorem payload_decoders_read_le_fields (host : Host)
    (offset additionalBytes maxDataLen : Z) (rest : list byte) :
  0 <= offset < 2 ^ 32 ->
  0 <= additionalBytes < 2 ^ 32 ->
  0 <= maxDataLen <= MaxUint64 ->
  UpgradeableLoaderInstrWrite_UnmarshalWithDecoder host
    (le_encode 4 offset ++ rest)
  = match ReadByteSlice host rest with
    | (Ok bytes, rest') => (Ok {| Offset := offset; Bytes := bytes |}, rest')
    | (Err e, rest') => (Err e, rest')
    | (Panic p, rest') => (Panic p, rest')
    end /\
  UpgradeableLoaderInstrDeployWithMaxDataLen_UnmarshalWithDecoder
    (le_encode 8 maxDataLen ++ rest)
  = (Ok {| MaxDataLen := maxDataLen |}, rest) /\
  UpgradeableLoaderInstrExtendProgram_UnmarshalWithDecoder
    (le_encode 4 additionalBytes ++ rest)
  = (Ok {| AdditionalBytes := additionalBytes |}, rest) /\
  (forall short : list byte,
     (length short < 4)%nat ->
     UpgradeableLoaderInstrWrite_UnmarshalWithDecoder host short
     = (Err ErrBinDecoder, short) /\
     UpgradeableLoaderInstrDeployWithMaxDataLen_UnmarshalWithDecoder short
     = (Err ErrBinDecoder, short) /\
     UpgradeableLoaderInstrExtendProgram_UnmarshalWithDecoder short
     = (Err ErrBinDecoder, short)).
Proof.
  intros Ho Ha Hm.
  split; [by apply Write_payload|]. split; [by apply Deploy_payload|]. split.
  - unfold UpgradeableLoaderInstrExtendProgram_UnmarshalWithDecoder, ReadUint32.
    by rewrite (bind_Ok _ _ _ _ _ (ReadUint_le_encode 4 additionalBytes rest Ha)).
  - intros short Hs.
    unfold UpgradeableLoaderInstrWrite_UnmarshalWithDecoder,
      UpgradeableLoaderInstrDeployWithMaxDataLen_UnmarshalWithDecoder,
      UpgradeableLoaderInstrExtendProgram_UnmarshalWithDecoder,
      ReadUint32, ReadUint64, bind.
    rewrite (ReadBytes_short 4), (ReadBytes_short 8) by lia. auto.
Qed.

(** The payload of the spec's scenario B2: offset 2 and the four bytes
    AA BB CC DD behind their u64 length. *)
Lemma payload_decoders_read_le_fields_witness :
  UpgradeableLoaderInstrWrite_UnmarshalWithDecoder Fixture.permissiveHost
    (le_encode 4 2 ++ le_encode 8 4 ++ [xaa; xbb; xcc; xdd])
  = (Ok {| Offset := 2; Bytes := [xaa; xbb; xcc; xdd] |}, []).
Proof.
  destruct (payload_decoders_read_le_fields Fixture.permissiveHost 2 0 0
              (le_encode 8 4 ++ [xaa; xbb; xcc; xdd]))
    as [-> _]; [lia | lia | unfold MaxUint64; lia |].
  reflexivity.
Defined.

(** X5. Where the dispatcher sends the instruction being executed: on
    opcode 0 to InitializeBuffer and on opcode 3 to Upgrade, whatever bytes
    follow the opcode; on opcode 1 to Write with the offset and the byte
    slice of the payload; on opcode 2 to DeployWithMaxDataLen with the u64
    of the payload, whatever bytes follow it. Instruction data of fewer than
    four bytes gives InvalidInstructionData. *)
Theorem dispatch_routes (host : Host) (execCtx : ExecutionCtx)
    (txCtx : TransactionCtx) (instrCtx : InstructionCtx) (rest : list byte) :
  CurrentInstruction txCtx = Some instrCtx ->
  let run := ProcessUpgradeableLoaderInstruction host execCtx txCtx in
  (InstrData instrCtx = le_encode 4 0 ++ rest ->
   run = UpgradeableLoaderInitializeBuffer host execCtx instrCtx txCtx) /\
  (forall offset bytes rest',
     0 <= offset < 2 ^ 32 ->
     InstrData instrCtx = le_encode 4 1 ++ le_encode 4 offset ++ rest ->
     ReadByteSlice host rest = (Ok bytes, rest') ->
     run = UpgradeableLoaderWrite execCtx instrCtx
             {| Offset := offset; Bytes := bytes |} txCtx) /\
  (forall maxDataLen,
     0 <= maxDataLen <= MaxUint64 ->
     InstrData instrCtx = le_encode 4 2 ++ le_encode 8 maxDataLen ++ rest ->
     run = UpgradeableLoaderDeployWithMaxDataLen host execCtx instrCtx
             {| MaxDataLen := maxDataLen |} txCtx) /\
  (InstrData instrCtx = le_encode 4 3 ++ rest ->
   run = UpgradeableLoaderUpgrade host execCtx instrCtx txCtx) /\
  ((length (InstrData instrCtx) < 4)%nat ->
   run = (Err InstrErrInvalidInstructionData, txCtx)).
Proof.
  intros Hcur run. subst run. unfold ProcessUpgradeableLoaderInstruction.
  rewrite (bind_Ok _ _ _ _ _ (Current_Ok _ _ Hcur)).
  split; [|split; [|split; [|split]]].
  - intros ->. reflexivity.
  - intros offset bytes rest' Ho -> Hb.
    change (ReadUint32 (le_encode 4 1 ++ le_encode 4 offset ++ rest))
      with (Ok 1, le_encode 4 offset ++ rest). cbv iota beta.
    change (1 =? UpgradeableLoaderInstrTypeInitializeBuffer) with false.
    change (1 =? UpgradeableLoaderInstrTypeWrite) with true. cbv iota.
    rewrite Write_payload by exact Ho. by rewrite Hb.
  - intros maxDataLen Hm ->.
    change (ReadUint32 (le_encode 4 2 ++ le_encode 8 maxDataLen ++ rest))
      with (Ok 2, le_encode 8 maxDataLen ++ rest). cbv iota beta.
    change (2 =? UpgradeableLoaderInstrTypeInitializeBuffer) with false.
    change (2 =? UpgradeableLoaderInstrTypeWrite) with false.
    change (2 =? UpgradeableLoaderInstrTypeDeployWithMaxDataLen) with true.
    cbv iota. by rewrite Deploy_payload by exact Hm.
  - intros ->. reflexivity.
  - intros Hs. unfold ReadUint32, bind. by rewrite ReadBytes_short.
Qed.

(** An instruction of opcode 3 followed by three stray bytes runs Upgrade;
    on the accounts of the spec's scenario B5 it fails as Upgrade does. *)
Lemma dispatch_routes_witness :
  let instrCtx :=
    Fixture.instruction (InstructionAccounts Fixture.upgradeInstr)
      (le_encode 4 3 ++ [x01; x02; x03]) in
  let txCtx :=
    Fixture.transaction
      (Fixture.upgradeAccounts 42 5 7 100
         (Fixture.bufferBytes Fixture.authority ++ [x01; x02])) instrCtx in
  ProcessUpgradeableLoaderInstruction Fixture.permissiveHost
    (Fixture.execCtxWith (fun _ => 10) 42) txCtx
  = (Err InstrErrInvalidArgument, txCtx).
Proof.
  intros instrCtx txCtx.
  destruct (dispatch_routes Fixture.permissiveHost
              (Fixture.execCtxWith (fun _ => 10) 42) txCtx instrCtx
              [x01; x02; x03] eq_refl) as (_ & _ & _ & H & _).
  rewrite H by reflexivity. vm_compute. reflexivity.
Defined.

(** ** InitializeBuffer (lines 355-391) *)

(** X6. The errors of InitializeBuffer. With fewer than two instruction
    accounts it returns the host's error for a missing account. With
    account 0 in place: when the account's data does not decode it returns
    InvalidAccountData, and when it decodes to a state other than
    Uninitialized it returns AccountAlreadyInitialized, whatever account 1
    is. In each case the accounts are left as they were. *)
Theorem InitializeBuffer_errors (host : Host) (execCtx : ExecutionCtx)
    (instrCtx : InstructionCtx) (txCtx : TransactionCtx) :
  let run := UpgradeableLoaderInitializeBuffer host execCtx instrCtx txCtx in
  ((length (InstructionAccounts instrCtx) < 2)%nat ->
   run = (Err NotEnoughAccountKeys, txCtx)) /\
  (forall ia0 a0,
     (2 <= length (InstructionAccounts instrCtx))%nat ->
     InstructionAccounts instrCtx !! 0%nat = Some ia0 ->
     Accounts txCtx !! IndexInTransaction ia0 = Some a0 ->
     (~ decodable (Data a0) ->
      run = (Err InstrErrInvalidAccountData, txCtx)) /\
     (forall st,
        unmarshalUpgradeableLoaderState (Data a0) = Ok st ->
        Type_ st <> UpgradeableLoaderStateTypeUninitialized ->
        run = (Err InstrErrAccountAlreadyInitialized, txCtx))).
Proof.
  intros run. subst run. unfold UpgradeableLoaderInitializeBuffer. split.
  - intros Hlen. unfold bind at 1, CheckNumOfInstructionAccounts.
    destruct (Nat.ltb_spec (length (InstructionAccounts instrCtx)) 2);
      [reflexivity | lia].
  - intros ia0 a0 Hlen H0 HA0.
    assert (Hn : CheckNumOfInstructionAccounts instrCtx 2 txCtx = (Ok tt, txCtx)).
    { unfold CheckNumOfInstructionAccounts.
      destruct (Nat.ltb_spec (length (InstructionAccounts instrCtx)) 2);
        [lia | reflexivity]. }
    rewrite (bind_Ok _ _ _ _ _ Hn). do 2 step. split.
    + intros Hd.
      by rewrite (unmarshal_not_decodable _ Hd).
    + intros st Hst Hty. step. apply Z.eqb_neq in Hty. by rewrite Hty.
Qed.

(** The spec's scenario B1: InitializeBuffer on an account that holds a
    Buffer state already. *)
Lemma InitializeBuffer_errors_witness :
  UpgradeableLoaderInitializeBuffer Fixture.permissiveHost
    (Fixture.execCtxWith (fun _ => 10) 42)
    (Fixture.bufferInstr true (le_encode 4 0))
    (Fixture.bufferTx true (le_encode 4 0)
       (Fixture.bufferBytes Fixture.authority))
  = (Err InstrErrAccountAlreadyInitialized,
     Fixture.bufferTx true (le_encode 4 0)
       (Fixture.bufferBytes Fixture.authority)).
Proof.
  eapply (proj2 (InitializeBuffer_errors Fixture.permissiveHost
                   (Fixture.execCtxWith (fun _ => 10) 42)
                   (Fixture.bufferInstr true (le_encode 4 0))
                   (Fixture.bufferTx true (le_encode 4 0)
                      (Fixture.bufferBytes Fixture.authority))));
    [simpl; lia | reflexivity | reflexivity | vm_compute; reflexivity
    | vm_compute; discriminate].
Defined.

(** ** Write (lines 284-304 and 393-444) *)

Lemma Write_Ok_inv (execCtx : ExecutionCtx) (instrCtx : InstructionCtx)
    (write : UpgradeableLoaderInstrWrite) (txCtx txCtx' : TransactionCtx) :
  UpgradeableLoaderWrite execCtx instrCtx write txCtx = (Ok tt, txCtx') ->
  exists ia0 ia1 a0 a1 st,
    InstructionAccounts instrCtx !! 0%nat = Some ia0 /\
    InstructionAccounts instrCtx !! 1%nat = Some ia1 /\
    Accounts txCtx !! IndexInTransaction ia0 = Some a0 /\
    Accounts txCtx !! IndexInTransaction ia1 = Some a1 /\
    unmarshalUpgradeableLoaderState (Data a0) = Ok st /\
    Type_ st = UpgradeableLoaderStateTypeBuffer /\
    AuthorityAddress (Buffer st) = Some (Key a1) /\
    IsSigner ia1 = true /\
    writeProgramData execCtx
      (addU64 upgradeableLoaderSizeOfBufferMetaData (Offset write))
      (Bytes write) txCtx = (Ok tt, txCtx').
Proof.
  unfold UpgradeableLoaderWrite. intros H.
  do 4 inv_bind H. inv_bind_as H G. inv_ifnot G.
  destruct (AuthorityAddress _) as [k|] eqn:Hk; [|by apply fail_inv in G].
  do 2 inv_bind G. inv_if G. inv_bind G. inv_if G. inv_acc G.
  same_lookups.
  repeat match goal with
  | Hc : negb (bool_decide _) = false |- _ =>
      apply negb_false_iff, bool_decide_eq_true in Hc
  | Hc : negb _ = false |- _ => apply negb_false_iff in Hc
  | Hc : (_ =? _) = true |- _ => apply Z.eqb_eq in Hc
  | x : unit |- _ => destruct x
  end.
  do 5 eexists. repeat (split; [eassumption|]).
  split; [by subst|]. split; [eassumption|]. exact H.
Qed.

Lemma addU64_offset (offset : Z) :
  0 <= offset < 2 ^ 32 ->
  addU64 upgradeableLoaderSizeOfBufferMetaData offset = 37 + offset.
Proof.
  intros Hr. unfold addU64, upgradeableLoaderSizeOfBufferMetaData.
  apply Z.mod_small. lia.
Qed.

Lemma withAccount_twice (i : nat) (a b : Account) (txCtx : TransactionCtx) :
  withAccount i a (withAccount i b txCtx) = withAccount i a txCtx.
Proof. unfold withAccount. simpl. by rewrite list_insert_insert_eq. Qed.

(** X7. A Write succeeds only with the signature of the buffer's authority:
    after a successful Write, instruction account 0 held a Buffer state
    whose authority is the key of instruction account 1, and that account
    signed. *)
Theorem Write_needs_the_authority_signature
    (execCtx : ExecutionCtx) (instrCtx : InstructionCtx)
    (write : UpgradeableLoaderInstrWrite) (txCtx txCtx' : TransactionCtx) :
  UpgradeableLoaderWrite execCtx instrCtx write txCtx = (Ok tt, txCtx') ->
  exists ia0 ia1 a0 a1 st,
    InstructionAccounts instrCtx !! 0%nat = Some ia0 /\
    InstructionAccounts instrCtx !! 1%nat = Some ia1 /\
    Accounts txCtx !! IndexInTransaction ia0 = Some a0 /\
    Accounts txCtx !! IndexInTransaction ia1 = Some a1 /\
    unmarshalUpgradeableLoaderState (Data a0) = Ok st /\
    Type_ st = UpgradeableLoaderStateTypeBuffer /\
    AuthorityAddress (Buffer st) = Some (Key a1) /\
    IsSigner ia1 = true.
Proof.
  intros H. apply Write_Ok_inv in H
    as (ia0 & ia1 & a0 & a1 & st & H0 & H1 & HA0 & HA1 & Hst & Hty & Hau & Hsig
        & _).
  exists ia0, ia1, a0, a1, st. auto 10.
Qed.

(** The Write of the spec's scenario E1 succeeds; its account 1 signed. *)
Lemma Write_needs_the_authority_signature_witness :
  IsSigner <$> InstructionAccounts (Fixture.bufferInstr true []) !! 1%nat
  = Some true.
Proof.
  edestruct (Write_needs_the_authority_signature
               (Fixture.execCtxWith (fun _ => 10) 42)
               (Fixture.bufferInstr true [])
               {| Offset := 0; Bytes := [xde; xad; xbe; xef] |}
               (Fixture.bufferTx true []
                  (Fixture.bufferBytes Fixture.authority ++ replicate 4 x00)))
    as (ia0 & ia1 & a0 & a1 & st & _ & H1 & _ & _ & _ & _ & _ & Hsig);
    [vm_compute; reflexivity|].
  rewrite H1. simpl. by rewrite Hsig.
Defined.

(** X8. A Write does not touch the header of the buffer: after a successful
    Write of the instruction being executed, with a u32 offset and a byte
    slice of a length Go can have, the first 37 bytes of the buffer account
    are what they were, and the account decodes to the state it had, the
    authority among it. *)
Theorem Write_keeps_the_buffer_header
    (execCtx : ExecutionCtx) (instrCtx : InstructionCtx)
    (write : UpgradeableLoaderInstrWrite) (txCtx txCtx' : TransactionCtx)
    (ia0 : InstructionAccount) (a0 : Account) :
  CurrentInstruction txCtx = Some instrCtx ->
  0 <= Offset write < 2 ^ 32 ->
  len (Bytes write) < 2 ^ 63 ->
  InstructionAccounts instrCtx !! 0%nat = Some ia0 ->
  Accounts txCtx !! IndexInTransaction ia0 = Some a0 ->
  UpgradeableLoaderWrite execCtx instrCtx write txCtx = (Ok tt, txCtx') ->
  exists a0',
    Accounts txCtx' !! IndexInTransaction ia0 = Some a0' /\
    take 37 (Data a0') = take 37 (Data a0) /\
    unmarshalUpgradeableLoaderState (Data a0')
    = unmarshalUpgradeableLoaderState (Data a0).
Proof.
  intros Hcur Ho Hb H0 HA0 Hrun.
  apply Write_Ok_inv in Hrun
    as (ia0' & ia1 & b0 & a1 & st & H0' & H1 & HA0' & HA1 & Hst & Hty & Hau
        & Hsig & Hw).
  assert (ia0' = ia0) by congruence. subst ia0'.
  assert (b0 = a0) by congruence. subst b0.
  rewrite addU64_offset in Hw by exact Ho.
  assert (Hl : 0 <= len (Bytes write)) by (unfold len; lia).
  erewrite writeProgramData_run in Hw;
    [|eassumption ..| lia | unfold MaxUint64; lia].
  destruct (Z.ltb_spec (len (Data a0)) (37 + Offset write + len (Bytes write)))
    as [|Hfit]; [discriminate|].
  injection Hw as <-. eexists.
  split; [erewrite lookup_withAccount by eassumption; by rewrite decide_True|].
  cbn [Data].
  assert (Hhead : take 37
            (take (Z.to_nat (37 + Offset write)) (Data a0) ++ Bytes write ++
             drop (Z.to_nat (37 + Offset write + len (Bytes write))) (Data a0))
          = take 37 (Data a0)).
  { rewrite take_app_le by (rewrite length_take; unfold len in *; lia).
    rewrite take_take. f_equal. lia. }
  split; [exact Hhead|]. rewrite Hst.
  eapply unmarshal_Buffer_header; [exact Hst | exact Hty | | exact Hhead].
  unfold len in *. rewrite !length_app, length_take, length_drop. lia.
Qed.

(** After the Write of the spec's scenario E1 the buffer account still
    decodes to a Buffer state with the authority of the fixtures. *)
Lemma Write_keeps_the_buffer_header_witness :
  exists a0',
    Accounts
      (snd (UpgradeableLoaderWrite (Fixture.execCtxWith (fun _ => 10) 42)
              (Fixture.bufferInstr true [])
              {| Offset := 0; Bytes := [xde; xad; xbe; xef] |}
              (Fixture.bufferTx true []
                 (Fixture.bufferBytes Fixture.authority ++ replicate 4 x00))))
    !! 0%nat = Some a0' /\
    unmarshalUpgradeableLoaderState (Data a0')
    = Ok {| Type_ := UpgradeableLoaderStateTypeBuffer;
            Buffer := {| AuthorityAddress := Some Fixture.authority |};
            Program := zeroProgram; ProgramData := zeroProgramData |}.
Proof.
  edestruct (Write_keeps_the_buffer_header
               (Fixture.execCtxWith (fun _ => 10) 42)
               (Fixture.bufferInstr true [])
               {| Offset := 0; Bytes := [xde; xad; xbe; xef] |}
               (Fixture.bufferTx true []
                  (Fixture.bufferBytes Fixture.authority ++ replicate 4 x00))
               (snd (UpgradeableLoaderWrite
                       (Fixture.execCtxWith (fun _ => 10) 42)
                       (Fixture.bufferInstr true [])
                       {| Offset := 0; Bytes := [xde; xad; xbe; xef] |}
                       (Fixture.bufferTx true []
                          (Fixture.bufferBytes Fixture.authority ++
                           replicate 4 x00)))))
    as (a0' & HA & _ & Hst);
    [reflexivity | simpl; lia | vm_compute; reflexivity | reflexivity
    | reflexivity | vm_compute; reflexivity |].
  exists a0'. split; [exact HA|]. rewrite Hst. vm_compute. reflexivity.
Defined.

(** X9. Writing in two parts is writing at once: after a successful Write
    of [b1] at [offset], a Write of [b2] at [offset + len b1] returns what
    the Write of [b1 ++ b2] at [offset] returns on the accounts before the
    first Write, and when that is a success it leaves the accounts that one
    Write would have left. The offsets are u32 and the byte slices of a
    length Go can have. *)
Theorem Write_in_two_parts
    (execCtx : ExecutionCtx) (instrCtx : InstructionCtx)
    (txCtx txCtx1 : TransactionCtx) (offset : Z) (b1 b2 : list byte) :
  CurrentInstruction txCtx = Some instrCtx ->
  0 <= offset ->
  offset + len b1 < 2 ^ 32 ->
  len b2 < 2 ^ 63 ->
  UpgradeableLoaderWrite execCtx instrCtx
    {| Offset := offset; Bytes := b1 |} txCtx = (Ok tt, txCtx1) ->
  let second :=
    UpgradeableLoaderWrite execCtx instrCtx
      {| Offset := offset + len b1; Bytes := b2 |} txCtx1 in
  let whole :=
    UpgradeableLoaderWrite execCtx instrCtx
      {| Offset := offset; Bytes := b1 ++ b2 |} txCtx in
  fst second = fst whole /\ (fst whole = Ok tt -> second = whole).
Proof.
  intros Hcur Ho Ho1 Hb2 Hfirst second whole.
  assert (Hl1 : 0 <= len b1) by (unfold len; lia).
  assert (Hl2 : 0 <= len b2) by (unfold len; lia).
  assert (Hl12 : len (b1 ++ b2) = len b1 + len b2)
    by (unfold len; rewrite length_app; lia).
  apply Write_Ok_inv in Hfirst
    as (ia0 & ia1 & a0 & a1 & st & H0 & H1 & HA0 & HA1 & Hst & Hty & Hau & Hsig
        & Hw).
  cbn [Offset Bytes] in Hw. rewrite addU64_offset in Hw by lia.
  erewrite writeProgramData_run in Hw; [|eassumption ..| lia |
    unfold MaxUint64; lia].
  destruct (Z.ltb_spec (len (Data a0)) (37 + offset + len b1)) as [|Hfit];
    [discriminate|].
  injection Hw as <-.
  set (a0' := {| Key := Key a0; Owner := Owner a0; Lamports := Lamports a0;
                 Data := take (Z.to_nat (37 + offset)) (Data a0) ++ b1 ++
                         drop (Z.to_nat (37 + offset + len b1)) (Data a0);
                 Executable := Executable a0 |}).
  assert (Hlen' : length (Data a0') = length (Data a0)).
  { subst a0'. cbn [Data]. unfold len in *.
    rewrite !length_app, length_take, length_drop. lia. }
  assert (Hhead : take 37 (Data a0') = take 37 (Data a0)).
  { subst a0'. cbn [Data]. rewrite take_app_le by (rewrite length_take;
      unfold len in *; lia).
    rewrite take_take. f_equal. lia. }
  assert (HA0' : Accounts (withAccount (IndexInTransaction ia0) a0' txCtx)
                 !! IndexInTransaction ia0 = Some a0').
  { erewrite lookup_withAccount by eassumption. by rewrite decide_True. }
  assert (HA1' : exists a1',
             Accounts (withAccount (IndexInTransaction ia0) a0' txCtx)
             !! IndexInTransaction ia1 = Some a1' /\ Key a1' = Key a1).
  { erewrite lookup_withAccount by eassumption.
    destruct (decide (IndexInTransaction ia1 = IndexInTransaction ia0)) as [Heq|_].
    - exists a0'. split; [reflexivity|]. rewrite Heq in HA1.
      assert (a1 = a0) by congruence. by subst a1.
    - eauto. }
  destruct HA1' as (a1' & HA1' & Hkey).
  assert (Hst' : unmarshalUpgradeableLoaderState (Data a0') = Ok st)
    by (eapply unmarshal_Buffer_header; eassumption).
  subst second whole.
  erewrite (Write_authorized execCtx instrCtx _
              (withAccount (IndexInTransaction ia0) a0' txCtx));
    [| eassumption | eassumption | exact HA0' | exact HA1'
     | exact Hst' | exact Hty | by rewrite Hkey | exact Hsig].
  erewrite (Write_authorized execCtx instrCtx _ txCtx); [|eassumption ..].
  cbn [Offset Bytes]. rewrite !addU64_offset by lia.
  erewrite writeProgramData_run;
    [| exact H0 | exact HA0' | exact Hcur | lia | unfold MaxUint64; lia].
  erewrite (writeProgramData_run execCtx instrCtx txCtx);
    [| exact H0 | exact HA0 | exact Hcur | lia
     | rewrite Hl12; unfold MaxUint64; lia].
  rewrite Hl12.
  replace (len (Data a0')) with (len (Data a0)) by (unfold len; lia).
  replace (37 + (offset + len b1) + len b2)
    with (37 + offset + (len b1 + len b2)) by lia.
  destruct (Z.ltb_spec (len (Data a0)) (37 + offset + (len b1 + len b2)))
    as [|Hfit2]; [split; [reflexivity | discriminate]|].
  split; [reflexivity|]. intros _. rewrite withAccount_twice.
  do 2 f_equal. subst a0'. cbn [Key Owner Lamports Data Executable].
  f_equal. unfold len in *.
  replace (Z.to_nat (37 + (offset + Z.of_nat (length b1))))
    with (length (take (Z.to_nat (37 + offset)) (Data a0) ++ b1))
    by (rewrite length_app, length_take; lia).
  rewrite (app_assoc _ b1 (drop _ _)).
  rewrite take_app_length. rewrite <- !app_assoc. do 3 f_equal.
  rewrite (app_assoc _ b1 (drop _ _)).
  rewrite drop_app_ge by (rewrite length_app, length_take; lia).
  rewrite drop_drop. f_equal. rewrite length_app, length_take. lia.
Qed.

(** The four bytes of the spec's scenario E1 written as DE AD and then
    BE EF. *)
Lemma Write_in_two_parts_witness :
  let execCtx := Fixture.execCtxWith (fun _ => 10) 42 in
  let instrCtx := Fixture.bufferInstr true [] in
  let txCtx :=
    Fixture.bufferTx true []
      (Fixture.bufferBytes Fixture.authority ++ replicate 4 x00) in
  let first :=
    UpgradeableLoaderWrite execCtx instrCtx
      {| Offset := 0; Bytes := [xde; xad] |} txCtx in
  UpgradeableLoaderWrite execCtx instrCtx
    {| Offset := 2; Bytes := [xbe; xef] |} (snd first)
  = UpgradeableLoaderWrite execCtx instrCtx
      {| Offset := 0; Bytes := [xde; xad; xbe; xef] |} txCtx.
Proof.
  intros execCtx instrCtx txCtx first.
  apply (Write_in_two_parts execCtx instrCtx txCtx (snd first) 0
           [xde; xad] [xbe; xef]);
    [reflexivity | lia | vm_compute; reflexivity | vm_compute; reflexivity
    | vm_compute; reflexivity | vm_compute; reflexivity].
Defined.

(** ** What the handlers leave alone *)

Lemma readonly_ret {A : Type} (a : A) : readonly (ret a).
Proof. by intros s. Qed.

Lemma readonly_fail {A : Type} (e : GoError) : readonly (@fail _ A e).
Proof. by intros s. Qed.

Lemma readonly_panic {A : Type} (p : GoPanic) : readonly (@panic _ A p).
Proof. by intros s. Qed.

Lemma readonly_lift {A : Type} (r : result A) : readonly (lift r).
Proof. by intros s. Qed.

Lemma readonly_bind {A B : Type} (m : M A) (k : A -> M B) :
  readonly m -> (forall a, readonly (k a)) -> readonly (bind m k).
Proof.
  intros Hm Hk s. unfold bind. specialize (Hm s).
  destruct (m s) as [[a| |] s1]; simpl in Hm; subst s1;
    [apply Hk | reflexivity | reflexivity].
Qed.

Lemma readonly_Ok_inv {A : Type} (m : M A) (txCtx txCtx' : TransactionCtx)
    (a : A) :
  readonly m -> m txCtx = (Ok a, txCtx') -> txCtx' = txCtx.
Proof. intros Hm H. specialize (Hm txCtx). by rewrite H in Hm. Qed.

Lemma readonly_CurrentInstructionCtx : readonly CurrentInstructionCtx.
Proof.
  intros s. unfold CurrentInstructionCtx. by destruct (CurrentInstruction s).
Qed.

Lemma readonly_CheckNum (instrCtx : InstructionCtx) (n : nat) :
  readonly (CheckNumOfInstructionAccounts instrCtx n).
Proof.
  intros s. unfold CheckNumOfInstructionAccounts. by destruct (_ <? _)%nat.
Qed.

Lemma readonly_IndexOf (instrCtx : InstructionCtx) (i : nat) :
  readonly (IndexOfInstructionAccountInTransaction instrCtx i).
Proof.
  intros s. unfold IndexOfInstructionAccountInTransaction.
  by destruct (_ !! _).
Qed.

Lemma readonly_KeyOf (idx : nat) : readonly (KeyOfAccountAtIndex idx).
Proof. intros s. unfold KeyOfAccountAtIndex. by destruct (_ !! _). Qed.

Lemma readonly_IsSigner (instrCtx : InstructionCtx) (i : nat) :
  readonly (IsInstructionAccountSigner instrCtx i).
Proof. intros s. unfold IsInstructionAccountSigner. by destruct (_ !! _). Qed.

Lemma readonly_LastProgramKey (instrCtx : InstructionCtx) :
  readonly (LastProgramKey instrCtx).
Proof. by intros s. Qed.

Lemma readonly_Borrow (instrCtx : InstructionCtx) (i : nat) :
  readonly (BorrowInstructionAccount instrCtx i).
Proof.
  intros s. unfold BorrowInstructionAccount.
  destruct (_ !! _); [|reflexivity]. by destruct (_ !! _).
Qed.

Lemma readonly_readAccount (acct : BorrowedAccount) :
  readonly (readAccount acct).
Proof. intros s. unfold readAccount. by destruct (_ !! _). Qed.

Lemma readonly_field {A : Type} (acct : BorrowedAccount) (proj : Account -> A) :
  readonly (bind (readAccount acct) (fun a => ret (proj a))).
Proof.
  apply readonly_bind; [apply readonly_readAccount | intros; apply readonly_ret].
Qed.

Lemma readonly_IsWritable (acct : BorrowedAccount) :
  readonly (BorrowedAccount_IsWritable acct).
Proof. by intros s. Qed.

Lemma readonly_checkAcctForSysvar (addr : PublicKey) (instrCtx : InstructionCtx)
    (i : nat) :
  readonly (checkAcctForSysvar addr instrCtx i).
Proof.
  unfold checkAcctForSysvar.
  apply readonly_bind; [apply readonly_IndexOf | intros idx].
  apply readonly_bind; [apply readonly_KeyOf | intros key].
  destruct (bool_decide _); [apply readonly_ret | apply readonly_fail].
Qed.

(** The key of instruction account 1 as DeployWithMaxDataLen reads it. *)
Lemma readonly_optional_key (instrCtx : InstructionCtx) (i : nat) :
  readonly
    (fun txCtx =>
       match IndexOfInstructionAccountInTransaction instrCtx i txCtx with
       | (Ok authorityIdx, txCtx') =>
           (k <- KeyOfAccountAtIndex authorityIdx ;; ret (Some k)) txCtx'
       | (Err _, txCtx') => (Ok None, txCtx')
       | (Panic p, txCtx') => (Panic p, txCtx')
       end).
Proof.
  intros s. unfold IndexOfInstructionAccountInTransaction.
  destruct (_ !! _); [|reflexivity]. unfold ret at 1, bind, KeyOfAccountAtIndex.
  by destruct (_ !! _).
Qed.

Ltac readonly_leaf :=
  first
    [ apply readonly_ret | apply readonly_fail | apply readonly_panic
    | apply readonly_lift | apply readonly_CurrentInstructionCtx
    | apply readonly_CheckNum | apply readonly_IndexOf | apply readonly_KeyOf
    | apply readonly_IsSigner | apply readonly_LastProgramKey
    | apply readonly_Borrow | apply readonly_field
    | apply readonly_readAccount | apply readonly_IsWritable
    | apply readonly_checkAcctForSysvar | apply readonly_optional_key ].

Ltac readonly_tac :=
  repeat first
    [ readonly_leaf
    | apply readonly_bind; [|intros ?]
    | match goal with
      | |- readonly (if ?c then _ else _) => destruct c
      | |- readonly (match ?x with _ => _ end) => destruct x
      end ].

Lemma readonly_Upgrade_checks (host : Host) (execCtx : ExecutionCtx)
    (instrCtx : InstructionCtx) :
  readonly (UpgradeableLoaderUpgrade_checks host execCtx instrCtx).
Proof.
  unfold UpgradeableLoaderUpgrade_checks, checkAcctForRentSysvar,
    checkAcctForClockSysvar.
  readonly_tac.
Qed.

(** X10. The checks of Upgrade up to the funds check (lines 673-794) change
    nothing: whatever they return, an error, a panic or the locals of a
    passed check, the transaction context is what it was. *)
Theorem Upgrade_checks_change_nothing (host : Host) (execCtx : ExecutionCtx)
    (instrCtx : InstructionCtx) (txCtx : TransactionCtx) :
  snd (UpgradeableLoaderUpgrade_checks host execCtx instrCtx txCtx) = txCtx.
Proof. apply readonly_Upgrade_checks. Qed.

Lemma keeps_identity_refl (a : Account) : keeps_identity a a.
Proof. by unfold keeps_identity. Qed.

Lemma keeps_identity_trans (a b c : Account) :
  keeps_identity a b -> keeps_identity b c -> keeps_identity a c.
Proof. unfold keeps_identity. intuition congruence. Qed.

Lemma keeps_all_but_bytes_refl (a : Account) : keeps_all_but_bytes a a.
Proof. by unfold keeps_all_but_bytes, keeps_identity. Qed.

Lemma keeps_all_but_bytes_trans (a b c : Account) :
  keeps_all_but_bytes a b -> keeps_all_but_bytes b c ->
  keeps_all_but_bytes a c.
Proof. unfold keeps_all_but_bytes, keeps_identity. intuition congruence. Qed.

Section Footprint.

Variables (P : nat -> Prop) (R : Account -> Account -> Prop).
Hypothesis R_refl : forall a, R a a.
Hypothesis R_trans : forall a b c, R a b -> R b c -> R a c.

Lemma changes_only_refl (txCtx : TransactionCtx) :
  changes_only P R txCtx txCtx.
Proof. unfold changes_only. repeat split. eauto. Qed.

Lemma changes_only_trans (tx1 tx2 tx3 : TransactionCtx) :
  changes_only P R tx1 tx2 -> changes_only P R tx2 tx3 ->
  changes_only P R tx1 tx3.
Proof.
  intros (C1 & L1 & H1) (C2 & L2 & H2). split; [congruence|].
  split; [congruence|]. intros j a Ha.
  destruct (H1 j a Ha) as (b & Hb & Rab & Eb).
  destruct (H2 j b Hb) as (c & Hc & Rbc & Ec).
  exists c. split; [exact Hc|]. split; [eauto|].
  intros Hn. rewrite (Ec Hn). auto.
Qed.

Lemma changes_only_withAccount (txCtx : TransactionCtx) (i : nat)
    (a a' : Account) :
  Accounts txCtx !! i = Some a -> P i -> R a a' ->
  changes_only P R txCtx (withAccount i a' txCtx).
Proof.
  intros Ha Hp Hr. split; [reflexivity|].
  split; [simpl; apply length_insert|]. intros j b Hb.
  erewrite lookup_withAccount by exact Ha.
  destruct (decide (j = i)) as [->|Hne].
  - assert (b = a) by congruence. subst b. exists a'. tauto.
  - exists b. auto.
Qed.

Lemma changes_ro {A : Type} (m : M A) (txCtx : TransactionCtx) :
  readonly m -> changes_only P R txCtx (snd (m txCtx)).
Proof. intros Hm. rewrite Hm. apply changes_only_refl. Qed.

Lemma changes_bind {A B : Type} (m : M A) (k : A -> M B)
    (txCtx : TransactionCtx) :
  changes_only P R txCtx (snd (m txCtx)) ->
  (forall a tx1, m txCtx = (Ok a, tx1) ->
                 changes_only P R tx1 (snd (k a tx1))) ->
  changes_only P R txCtx (snd (bind m k txCtx)).
Proof.
  intros Hm Hk. unfold bind.
  destruct (m txCtx) as [[a| |] tx1] eqn:Hr; simpl in Hm; [|exact Hm ..].
  eapply changes_only_trans; [exact Hm | by apply Hk].
Qed.

Lemma changes_mutate (host : Host) (acct : BorrowedAccount) (mut : Mutation)
    (change : Account -> result Account) (txCtx : TransactionCtx) :
  P (IndexInTransaction acct) ->
  (forall a a', Accounts txCtx !! IndexInTransaction acct = Some a ->
                change a = Ok a' -> R a a') ->
  changes_only P R txCtx (snd (mutate host acct mut change txCtx)).
Proof.
  intros Hp Hr. unfold mutate.
  destruct (Refuses _ _ _ _); [apply changes_only_refl|].
  destruct (Accounts txCtx !! _) as [a|] eqn:Ha; [|apply changes_only_refl].
  destruct (change a) as [a'| |] eqn:Hc; [|apply changes_only_refl ..].
  eapply changes_only_withAccount; eauto.
Qed.

Lemma changes_setAccountData (acct : BorrowedAccount) (data : list byte)
    (txCtx : TransactionCtx) :
  P (IndexInTransaction acct) ->
  (forall a, Accounts txCtx !! IndexInTransaction acct = Some a ->
             R a {| Key := Key a; Owner := Owner a; Lamports := Lamports a;
                    Data := data; Executable := Executable a |}) ->
  changes_only P R txCtx (snd (setAccountData acct data txCtx)).
Proof.
  intros Hp Hr. unfold setAccountData, bind, readAccount.
  destruct (Accounts txCtx !! _) as [a|] eqn:Ha; [|apply changes_only_refl].
  eapply changes_only_withAccount; eauto.
Qed.

End Footprint.

Lemma Current_inv (txCtx txCtx' : TransactionCtx) (instrCtx : InstructionCtx) :
  CurrentInstructionCtx txCtx = (Ok instrCtx, txCtx') ->
  txCtx' = txCtx /\ CurrentInstruction txCtx = Some instrCtx.
Proof.
  unfold CurrentInstructionCtx.
  destruct (CurrentInstruction txCtx); [|discriminate]. by intros [= <- <-].
Qed.

(** What a step that has succeeded tells: what the accessor tells, or for a
    check that changes nothing, that the store is the one before. *)
Ltac learn E :=
  first
    [ inv_acc E
    | apply Current_inv in E as [-> E]
    | (apply readonly_Ok_inv in E as ->; [|solve [readonly_tac]])
    | idtac ].

(** The account a handle stands for is one of the accounts named. *)
Ltac named_account :=
  cbv beta;
  match goal with
  | H : InstructionAccounts ?ic !! ?i = Some ?x
    |- instructionAccountAt ?ic _ (IndexInTransaction ?x) =>
      exists i, x; split; [simpl; tauto | split; [exact H | reflexivity]]
  | H : InstructionAccounts ?ic !! ?i = Some ?x, Hc : _ = Some ?ic
    |- exists cur, _ = Some cur /\
                   instructionAccountAt cur _ (IndexInTransaction ?x) =>
      exists ic; split; [exact Hc|];
      exists i, x; split; [simpl; tauto | split; [exact H | reflexivity]]
  end.

Ltac kept :=
  unfold keeps_all_but_bytes, keeps_identity;
  cbn [Key Owner Lamports Data Executable];
  rewrite ?length_go_copy; tauto.

Ltac footprint Hrefl Htrans :=
  repeat
    lazymatch goal with
    | |- changes_only _ _ ?tx (snd (bind ?m ?k ?tx)) =>
        eapply changes_bind;
        [exact Htrans | | let E := fresh "E" in intros ? ? E; learn E]
    | |- changes_only _ _ ?tx (snd ((if ?c then _ else _) ?tx)) => destruct c
    | |- changes_only _ _ ?tx (snd (mutate _ _ _ _ ?tx)) =>
        eapply changes_mutate;
        [ exact Hrefl | named_account
        | let Hc := fresh in
          intros ? ? _ Hc;
          repeat match type of Hc with
                 | (if ?c then _ else _) = _ => destruct c
                 end;
          first [discriminate Hc | injection Hc as <-; kept] ]
    | |- changes_only _ _ ?tx (snd (setAccountData _ _ ?tx)) =>
        eapply changes_setAccountData;
        [ exact Hrefl | named_account | intros ? ?; try kept ]
    | |- changes_only _ _ ?tx (snd (?m ?tx)) =>
        first
          [ eapply changes_ro; [exact Hrefl | solve [readonly_tac]]
          | progress unfold setUpgradeableLoaderAccountState, SetState,
              CheckedAddLamports, SetLamports, SetDataLength, SetExecutable ]
    end.

(** X11. InitializeBuffer changes the bytes of instruction account 0 at
    most. Whatever the call returns, the transaction has the accounts it
    had and the same current instruction; the accounts other than
    instruction account 0 are what they were; and that account has kept its
    key, owner, lamports, executable flag and the length of its data. *)
Theorem InitializeBuffer_changes_the_bytes_of_account_0
    (host : Host) (execCtx : ExecutionCtx) (instrCtx : InstructionCtx)
    (txCtx : TransactionCtx) :
  changes_only (instructionAccountAt instrCtx [0%nat]) keeps_all_but_bytes
    txCtx
    (snd (UpgradeableLoaderInitializeBuffer host execCtx instrCtx txCtx)).
Proof.
  unfold UpgradeableLoaderInitializeBuffer.
  footprint keeps_all_but_bytes_refl keeps_all_but_bytes_trans.
Qed.

(** X12. Write changes the bytes of one account at most: account 0 of the
    instruction being executed. Whatever the call returns, the transaction
    has the accounts it had and the same current instruction; every other
    account is what it was; and that account has kept its key, owner,
    lamports, executable flag and the length of its data. *)
Theorem Write_changes_the_bytes_of_account_0
    (execCtx : ExecutionCtx) (instrCtx : InstructionCtx)
    (write : UpgradeableLoaderInstrWrite) (txCtx : TransactionCtx) :
  changes_only
    (fun j => exists cur,
                CurrentInstruction txCtx = Some cur /\
                instructionAccountAt cur [0%nat] j)
    keeps_all_but_bytes txCtx
    (snd (UpgradeableLoaderWrite execCtx instrCtx write txCtx)).
Proof.
  unfold UpgradeableLoaderWrite, writeProgramData.
  footprint keeps_all_but_bytes_refl keeps_all_but_bytes_trans.
  same_lookups.
  match goal with
  | Hc : copy_into_slice _ _ _ _ = Ok _ |- _ =>
      apply copy_into_slice_Ok in Hc as (_ & _ & _ & Hc & _)
  end.
  unfold keeps_all_but_bytes, keeps_identity.
  cbn [Key Owner Lamports Data Executable]. tauto.
Qed.


(** ** DeployWithMaxDataLen (lines 446-670) *)

Lemma stops_bind {A B : Type} (m : M A) (k : A -> M B)
    (txCtx : TransactionCtx) :
  readonly m ->
  (forall a tx1, m txCtx = (Ok a, tx1) ->
                 snd (k a tx1) = tx1 /\ is_Ok (fst (k a tx1)) = false) ->
  snd (bind m k txCtx) = txCtx /\ is_Ok (fst (bind m k txCtx)) = false.
Proof.
  intros Hm Hk. unfold bind. specialize (Hm txCtx).
  destruct (m txCtx) as [[a| |] tx1] eqn:Hr; simpl in Hm; subst tx1;
    [by apply Hk | by split | by split].
Qed.

(** A run of DeployWithMaxDataLen, step by step: each step changes nothing,
    and a run that gets past the check of the Buffer tag has decoded the
    program account twice, once to the tag 0 and once to the tag 1. *)
Ltac deploy_stops :=
  unfold UpgradeableLoaderDeployWithMaxDataLen, checkAcctForRentSysvar,
    checkAcctForClockSysvar;
  repeat
    lazymatch goal with
    | |- snd (bind ?m ?k ?tx) = ?tx /\ _ =>
        apply stops_bind;
        [ solve [readonly_tac]
        | let E := fresh "E" in intros ? ? E; learn E ]
    | |- snd ((if ?c then _ else _) ?tx) = ?tx /\ _ =>
        let C := fresh "C" in destruct c eqn:C; [by split|]
    end;
  exfalso;
  repeat match goal with
  | C : negb (_ =? _) = false |- _ => apply negb_false_iff, Z.eqb_eq in C
  end;
  same_lookups;
  repeat match goal with
  | D1 : unmarshalUpgradeableLoaderState ?d = Ok ?s1,
    D2 : unmarshalUpgradeableLoaderState ?d = Ok ?s2 |- _ =>
      assert (s1 = s2) by congruence; subst s1; clear D1
  end;
  unfold UpgradeableLoaderStateTypeBuffer,
    UpgradeableLoaderStateTypeUninitialized in *; congruence.

(** X14. DeployWithMaxDataLen does nothing and never succeeds. Whatever the
    host, the accounts and max_data_len, the call returns an error or
    panics, and the transaction context is what it was: every path ends at
    the latest at the check of the Buffer tag, which looks at the state
    decoded from the program account (line 528) after that same state has
    been found Uninitialized (line 508), and no account is changed before
    that check. *)
Theorem Deploy_does_nothing_and_fails
    (host : Host) (execCtx : ExecutionCtx) (instrCtx : InstructionCtx)
    (deploy : UpgradeableLoaderInstrDeployWithMaxDataLen)
    (txCtx : TransactionCtx) :
  snd (UpgradeableLoaderDeployWithMaxDataLen host execCtx instrCtx deploy txCtx)
  = txCtx /\
  is_Ok (fst (UpgradeableLoaderDeployWithMaxDataLen host execCtx instrCtx
                deploy txCtx)) = false.
Proof. deploy_stops. Qed.

(** ** Upgrade (lines 672-875) *)

(** What the passed checks of lines 673-794 tell about the program account,
    the buffer's authority and the signer. *)
Lemma Upgrade_checks_authorized (host : Host) (execCtx : ExecutionCtx)
    (instrCtx : InstructionCtx) (txCtx txCtx' : TransactionCtx)
    (loc : UpgradeLocals) :
  UpgradeableLoaderUpgrade_checks host execCtx instrCtx txCtx = (Ok loc, txCtx') ->
  exists ia0 ia1 ia2 ia6 pd program buf auth pst bst,
    InstructionAccounts instrCtx !! 0%nat = Some ia0 /\
    InstructionAccounts instrCtx !! 1%nat = Some ia1 /\
    InstructionAccounts instrCtx !! 2%nat = Some ia2 /\
    InstructionAccounts instrCtx !! 6%nat = Some ia6 /\
    Accounts txCtx !! IndexInTransaction ia0 = Some pd /\
    Accounts txCtx !! IndexInTransaction ia1 = Some program /\
    Accounts txCtx !! IndexInTransaction ia2 = Some buf /\
    Accounts txCtx !! IndexInTransaction ia6 = Some auth /\
    IsSigner ia6 = true /\
    unmarshalUpgradeableLoaderState (Data buf) = Ok bst /\
    Type_ bst = UpgradeableLoaderStateTypeBuffer /\
    AuthorityAddress (Buffer bst) = Some (Key auth) /\
    unmarshalUpgradeableLoaderState (Data program) = Ok pst /\
    Type_ pst = UpgradeableLoaderStateTypeProgram /\
    ProgramDataAddress (Program pst) = Key pd /\
    Executable program = true /\
    IsWritable ia1 = true /\
    Owner program = ProgramKey instrCtx.
Proof.
  unfold UpgradeableLoaderUpgrade_checks, checkAcctForRentSysvar,
    checkAcctForClockSysvar. intros H.
  do 10 inv_bind H. inv_if H. inv_bind H. inv_if H. do 2 inv_bind H. inv_if H.
  do 2 inv_bind H. inv_bind_as H G1. inv_ifnot G1. inv_if G1. inv_acc G1.
  do 2 inv_bind H. inv_bind_as H G2.
  match type of G2 with
  | context [unmarshalUpgradeableLoaderState ?d] =>
      destruct (unmarshalUpgradeableLoaderState d) as [bst| |] eqn:Hbst;
      [inv_acc G2 | by apply panic_inv in G2 | by apply panic_inv in G2]
  end.
  inv_bind_as H G3. inv_ifnot G3. inv_if G3. inv_bind G3. inv_if G3. inv_acc G3.
  do 3 inv_bind H. inv_if H. do 3 inv_bind H. inv_if H. inv_bind H. inv_if H.
  inv_acc H. same_lookups.
  destruct (AuthorityAddress (Buffer bst)) as [k|] eqn:Hk;
    [|match goal with Hc : true = false |- _ => discriminate Hc end].
  repeat match goal with
  | Hc : negb (bool_decide _) = false |- _ =>
      apply negb_false_iff, bool_decide_eq_true in Hc
  | Hc : negb _ = false |- _ => apply negb_false_iff in Hc
  | Hc : (_ =? _) = true |- _ => apply Z.eqb_eq in Hc
  end.
  subst k.
  do 10 eexists. repeat (split; [eassumption|]). eassumption.
Qed.

(** X15. An Upgrade succeeds only with the signature of the one key that is
    the authority of both the buffer and the program. After a successful
    Upgrade, instruction account 6 signed; the buffer account (2) held a
    Buffer state and the program-data account (0) a ProgramData state, both
    with the key of account 6 as authority; and the program account (1) was
    executable, writable, owned by the program being executed, and held a
    Program state that points to the program-data account. *)
Theorem Upgrade_needs_the_authority_signature
    (host : Host) (execCtx : ExecutionCtx) (instrCtx : InstructionCtx)
    (txCtx txCtx' : TransactionCtx) :
  UpgradeableLoaderUpgrade host execCtx instrCtx txCtx = (Ok tt, txCtx') ->
  exists ia0 ia1 ia2 ia6 pd program buf auth pst bst pdst,
    InstructionAccounts instrCtx !! 0%nat = Some ia0 /\
    InstructionAccounts instrCtx !! 1%nat = Some ia1 /\
    InstructionAccounts instrCtx !! 2%nat = Some ia2 /\
    InstructionAccounts instrCtx !! 6%nat = Some ia6 /\
    Accounts txCtx !! IndexInTransaction ia0 = Some pd /\
    Accounts txCtx !! IndexInTransaction ia1 = Some program /\
    Accounts txCtx !! IndexInTransaction ia2 = Some buf /\
    Accounts txCtx !! IndexInTransaction ia6 = Some auth /\
    IsSigner ia6 = true /\
    unmarshalUpgradeableLoaderState (Data buf) = Ok bst /\
    Type_ bst = UpgradeableLoaderStateTypeBuffer /\
    AuthorityAddress (Buffer bst) = Some (Key auth) /\
    unmarshalUpgradeableLoaderState (Data pd) = Ok pdst /\
    Type_ pdst = UpgradeableLoaderStateTypeProgramData /\
    UpgradeAuthorityAddress (ProgramData pdst) = Some (Key auth) /\
    unmarshalUpgradeableLoaderState (Data program) = Ok pst /\
    Type_ pst = UpgradeableLoaderStateTypeProgram /\
    ProgramDataAddress (Program pst) = Key pd /\
    Executable program = true /\
    IsWritable ia1 = true /\
    Owner program = ProgramKey instrCtx.
Proof.
  intros Hrun. unfold UpgradeableLoaderUpgrade in Hrun.
  apply bind_Ok_inv in Hrun as (loc & tx1 & Hchecks & Hcommit).
  pose proof (Upgrade_checks_authorized _ _ _ _ _ _ Hchecks)
    as (ia0 & ia1 & ia2 & ia6 & pd & program & buf & auth & pst & bst & H0 & H1
        & H2 & H6 & HA0 & HA1 & HA2 & HA6 & Hsig & Hbst & Hbty & Hbau & Hpst
        & Hpty & Hpaddr & Hexe & Hwr & Hown).
  apply Upgrade_checks_inv in Hchecks
    as [-> (ia0' & ia2' & ia6' & pd' & buf' & auth' & bst' & Hc)].
  pose proof Hc as (H0' & _ & H6' & HA0' & _ & HA6' & _).
  assert (ia0' = ia0) by congruence. subst ia0'.
  assert (ia6' = ia6) by congruence. subst ia6'.
  assert (pd' = pd) by congruence. subst pd'.
  assert (auth' = auth) by congruence. subst auth'.
  destruct (Upgrade_commit_header _ _ _ _ _ _ _ _ _ _ _ _ _ Hc Hcommit)
    as (pd1 & pdst & _ & Hpdst & Hpdty & _ & Hpdau & _).
  exists ia0, ia1, ia2, ia6, pd, program, buf, auth, pst, bst, pdst.
  repeat (split; [assumption|]). assumption.
Qed.

(** The Upgrade of the spec's scenario E3 succeeds; its account 6 signed. *)
Lemma Upgrade_needs_the_authority_signature_witness :
  IsSigner <$> InstructionAccounts Fixture.upgradeInstr !! 6%nat = Some true.
Proof.
  edestruct (Upgrade_needs_the_authority_signature Fixture.permissiveHost
               (Fixture.execCtxWith (fun _ => 10) 42) Fixture.upgradeInstr
               Fixture.upgradeE3)
    as (ia0 & ia1 & ia2 & ia6 & pd & program & buf & auth & pst & bst & pdst
        & _ & _ & _ & H6 & _ & _ & _ & _ & Hsig & _);
    [vm_compute; reflexivity|].
  rewrite H6. simpl. by rewrite Hsig.
Defined.

(** The bytes Upgrade leaves in the program-data account: the header, the
    bytes of the buffer from byte 37 on, and zero bytes up to the length the
    account had. *)
Lemma upgrade_bytes (pdData bufData src copied fill : list byte) :
  let dstEnd :=
    SaturatingAddU64 upgradeableLoaderSizeOfProgramDataMetaData
      (len bufData - upgradeableLoaderSizeOfBufferMetaData) in
  len bufData < 2 ^ 63 ->
  upgradeableLoaderSizeOfBufferMetaData < len bufData ->
  go_slice bufData upgradeableLoaderSizeOfBufferMetaData (len bufData)
  = Ok src ->
  copy_into_slice pdData upgradeableLoaderSizeOfProgramDataMetaData dstEnd src
  = Ok copied ->
  go_slice copied dstEnd (len copied) = Ok fill ->
  take (Z.to_nat dstEnd) copied ++ replicate (length fill) x00
  = take 45 pdData ++ drop 37 bufData ++
    replicate (length pdData - (45 + (length bufData - 37))) x00.
Proof.
  cbv zeta.
  unfold upgradeableLoaderSizeOfProgramDataMetaData,
    upgradeableLoaderSizeOfBufferMetaData, SaturatingAddU64, MaxUint64.
  intros Hmax Hbl Hsrc Hcopy Hfill.
  destruct (Z.ltb_spec 18446744073709551615 (45 + (len bufData - 37)));
    [lia|].
  apply go_slice_Ok in Hsrc as (_ & _ & _ & -> & _).
  unfold copy_into_slice in Hcopy.
  destruct (go_slice pdData 45 (45 + (len bufData - 37))) as [dst| |] eqn:Hdst;
    try discriminate.
  apply go_slice_Ok in Hdst as (_ & _ & Hroom & -> & Hdl).
  injection Hcopy as <-.
  apply go_slice_Ok in Hfill as (_ & _ & _ & _ & ->).
  unfold len in *.
  rewrite (take_ge (drop _ bufData)) by (rewrite length_drop; lia).
  unfold go_copy. rewrite Hdl.
  rewrite (take_ge (drop _ bufData)) by (rewrite length_drop; lia).
  rewrite (drop_ge (take _ _)) by (rewrite Hdl, length_drop; lia).
  rewrite app_nil_r.
  change (Z.to_nat 45) with 45%nat. change (Z.to_nat 37) with 37%nat.
  rewrite !length_app, length_take, !length_drop.
  rewrite app_assoc.
  rewrite take_app_length' by (rewrite length_app, length_take, length_drop; lia).
  rewrite <- app_assoc. do 3 f_equal. lia.
Qed.

Lemma Upgrade_commit_data (host : Host) (execCtx : ExecutionCtx)
    (instrCtx : InstructionCtx) (txCtx txCtx' : TransactionCtx)
    (loc : UpgradeLocals) (ia0 ia2 ia6 : InstructionAccount)
    (pd buf auth : Account) (bst : UpgradeableLoaderState) :
  UpgradeChecked execCtx instrCtx txCtx loc ia0 ia2 ia6 pd buf auth bst ->
  UpgradeableLoaderUpgrade_commit host execCtx instrCtx loc txCtx = (Ok tt, txCtx') ->
  len (Data buf) < 2 ^ 63 ->
  exists pd' buf',
    Accounts txCtx' !! IndexInTransaction ia0 = Some pd' /\
    Accounts txCtx' !! IndexInTransaction ia2 = Some buf' /\
    Data pd'
    = take 45 (Data pd) ++ drop 37 (Data buf) ++
      replicate (length (Data pd) - (45 + (length (Data buf) - 37))) x00 /\
    Data buf' = take 37 (Data buf).
Proof.
  intros (H0 & H2 & H6 & HA0 & HA2 & HA6 & Hbst & Hbt & Hbl & Hfunds & ->).
  intros H Hmax.
  unfold UpgradeableLoaderUpgrade_commit in H.
  cbn [loc_clock loc_authorityKey loc_buffer loc_bufferLamports
       loc_bufferDataOffset loc_bufferDataLen loc_programData
       loc_programDataBalanceRequired] in *.
  do 2 inv_bind H. inv_bind_as H G1. inv_ifnot G1. inv_if G1.
  destruct (UpgradeAuthorityAddress _) as [ua|] eqn:Hua;
    [|by apply fail_inv in G1].
  inv_if G1. inv_bind G1. inv_if G1. inv_acc G1. same_lookups.
  assert (N02 : IndexInTransaction ia0 <> IndexInTransaction ia2).
  { intros Heq.
    match goal with
    | L : Accounts txCtx !! IndexInTransaction ia0 = Some _ |- _ =>
        rewrite Heq in L
    end.
    same_lookups. apply Z.eqb_eq in C.
    match goal with
    | D1 : unmarshalUpgradeableLoaderState ?d = Ok ?s1,
      D2 : unmarshalUpgradeableLoaderState ?d = Ok ?s2 |- _ =>
        assert (s1 = s2) by congruence; subst s1
    end.
    rewrite Hbt in C. discriminate. }
  unfold setUpgradeableLoaderAccountState in H. inv_bind_as H G2. inv_bind G2.
  inv_mut G2. same_lookups.
  match goal with Hc : Ok _ = Ok _ |- _ => injection Hc as <- end.
  rewrite go_copy_nil in *.
  new_store2 (IndexInTransaction ia0) (IndexInTransaction ia2).
  inv_bind H. inv_if H. inv_bind H. inv_if H. do 4 inv_bind H.
  inv_bind_as H W1. inv_mut W1. same_lookups.
  new_store2 (IndexInTransaction ia0) (IndexInTransaction ia2).
  do 2 inv_bind H. inv_bind_as H W2. inv_mut W2. same_lookups.
  new_store2 (IndexInTransaction ia0) (IndexInTransaction ia2).
  do 2 inv_bind H. same_lookups.
  match goal with
  | L : InstructionAccounts instrCtx !! 3%nat = Some ?ia3 |- _ =>
      destruct ia3 as [i3 s3 w3]; cbn [IndexInTransaction] in *;
      destruct (decide (i3 = IndexInTransaction ia0)) as [->|N30];
      [ | destruct (decide (i3 = IndexInTransaction ia2)) as [->|N32] ]
  end; same_lookups.
  all: inv_bind_as H W3; unfold CheckedAddLamports in W3; inv_mut W3;
    same_lookups;
    match goal with
    | Hc : (if ?c then _ else _) = Ok _ |- _ =>
        destruct c; [discriminate Hc | injection Hc as <-]
    end;
    new_store2 (IndexInTransaction ia0) (IndexInTransaction ia2);
    inv_bind_as H W4; unfold SetLamports in W4; inv_mut W4; same_lookups;
    match goal with Hc : Ok _ = Ok _ |- _ => injection Hc as <- end;
    new_store2 (IndexInTransaction ia0) (IndexInTransaction ia2);
    inv_bind_as H W5; unfold SetLamports in W5; inv_mut W5; same_lookups;
    match goal with Hc : Ok _ = Ok _ |- _ => injection Hc as <- end;
    new_store2 (IndexInTransaction ia0) (IndexInTransaction ia2);
    inv_bind_as H W6; unfold SetDataLength in W6; inv_mut W6; same_lookups;
    match goal with Hc : Ok _ = Ok _ |- _ => injection Hc as <- end;
    new_store2 (IndexInTransaction ia0) (IndexInTransaction ia2);
    inv_acc H.
  all: do 2 eexists; split; [eassumption|]; split; [eassumption|];
    cbn [Data]; split;
    [ eapply upgrade_bytes; eassumption
    | change (Z.to_nat (upgradeableLoaderSizeOfBuffer 0)) with 37%nat;
      unfold len, upgradeableLoaderSizeOfBufferMetaData in *;
      replace (37 - length (Data buf))%nat with 0%nat by lia;
      apply app_nil_r ].
Qed.

(** X16. What a successful Upgrade leaves in the two accounts, for a buffer
    of a length Go can have. The program-data account keeps its first 45
    bytes and its length; after those 45 bytes come the bytes of the buffer
    from byte 37 on, and then zero bytes to the end. The buffer account is
    cut down to its first 37 bytes. *)
Theorem Upgrade_installs_the_buffer_bytes
    (host : Host) (execCtx : ExecutionCtx) (instrCtx : InstructionCtx)
    (txCtx txCtx' : TransactionCtx) (ia0 ia2 : InstructionAccount)
    (pd buf : Account) :
  UpgradeableLoaderUpgrade host execCtx instrCtx txCtx = (Ok tt, txCtx') ->
  InstructionAccounts instrCtx !! 0%nat = Some ia0 ->
  InstructionAccounts instrCtx !! 2%nat = Some ia2 ->
  Accounts txCtx !! IndexInTransaction ia0 = Some pd ->
  Accounts txCtx !! IndexInTransaction ia2 = Some buf ->
  len (Data buf) < 2 ^ 63 ->
  exists pd' buf',
    Accounts txCtx' !! IndexInTransaction ia0 = Some pd' /\
    Accounts txCtx' !! IndexInTransaction ia2 = Some buf' /\
    Data pd'
    = take 45 (Data pd) ++ drop 37 (Data buf) ++
      replicate (length (Data pd) - (45 + (length (Data buf) - 37))) x00 /\
    length (Data pd') = length (Data pd) /\
    Data buf' = take 37 (Data buf).
Proof.
  intros Hrun H0 H2 HA0 HA2 Hmax.
  unfold UpgradeableLoaderUpgrade in Hrun.
  apply bind_Ok_inv in Hrun as (loc & tx1 & Hchecks & Hcommit).
  apply Upgrade_checks_inv in Hchecks
    as [-> (ia0' & ia2' & ia6 & pd0 & buf0 & auth & bst & Hc)].
  pose proof Hc as (H0' & H2' & _ & HA0' & HA2' & _).
  assert (ia0' = ia0) by congruence. subst ia0'.
  assert (ia2' = ia2) by congruence. subst ia2'.
  assert (pd0 = pd) by congruence. subst pd0.
  assert (buf0 = buf) by congruence. subst buf0.
  destruct (Upgrade_commit_header _ _ _ _ _ _ _ _ _ _ _ _ _ Hc Hcommit)
    as (pd1 & _ & T1 & _ & _ & _ & _ & _ & Hlen & _).
  destruct (Upgrade_commit_data _ _ _ _ _ _ _ _ _ _ _ _ _ Hc Hcommit Hmax)
    as (pd' & buf' & T0 & T2 & Hpd & Hbuf).
  assert (pd1 = pd') by congruence. subst pd1.
  exists pd', buf'. auto.
Qed.

(** The spec's scenario E3: a buffer with the two bytes 01 02 against a
    program of four bytes; the program-data account then holds its header,
    01 02 and two zero bytes, and the buffer account its header alone. *)
Lemma Upgrade_installs_the_buffer_bytes_witness :
  let txCtx' :=
    snd (UpgradeableLoaderUpgrade Fixture.permissiveHost
           (Fixture.execCtxWith (fun _ => 10) 42) Fixture.upgradeInstr
           Fixture.upgradeE3) in
  Data <$> Accounts txCtx' !! 0%nat
  = Some (Fixture.programDataBytes 41 Fixture.authority ++
          [x01; x02; x00; x00]) /\
  Data <$> Accounts txCtx' !! 2%nat
  = Some (Fixture.bufferBytes Fixture.authority).
Proof.
  intros txCtx'.
  edestruct (Upgrade_installs_the_buffer_bytes Fixture.permissiveHost
               (Fixture.execCtxWith (fun _ => 10) 42) Fixture.upgradeInstr
               Fixture.upgradeE3 txCtx')
    as (pd' & buf' & T0 & T2 & Hpd & _ & Hbuf);
    [vm_compute; reflexivity | reflexivity | reflexivity | reflexivity
    | reflexivity | vm_compute; reflexivity |].
  cbn [IndexInTransaction Fixture.ia] in T0, T2.
  rewrite T0, T2. simpl fmap. rewrite Hpd, Hbuf.
  split; vm_compute; reflexivity.
Defined.

(** ** The entry point (lines 306-353) *)

Lemma onTransaction_Ok (rt : Runtime) {A : Type} (m : M A)
    (cm : ComputeMeter rt) (txCtx txCtx' : TransactionCtx) (a : A) :
  m txCtx = (Ok a, txCtx') ->
  onTransaction rt m (cm, txCtx) = (Ok a, (cm, txCtx')).
Proof. unfold onTransaction. simpl. by intros ->. Qed.

(** X17. What BpfLoaderProgramExecute does with the instruction being
    executed, once its program account is borrowed. For a program account
    that the native loader does not own, nothing is run and no compute unit
    is charged: the call succeeds when the account is executable and fails
    with UnsupportedProgramId when it is not. For a program account of the
    native loader whose program id is the upgradeable loader, the units of
    the upgradeable loader are charged first; when the meter refuses, its
    error is returned and the dispatcher does not run; otherwise the result
    is the dispatcher's. For any other program id of the native loader the
    call never succeeds and leaves the accounts as they were. *)
Theorem BpfLoaderProgramExecute_cases
    (host : Host) (rt : Runtime) (execCtx : ExecutionCtx)
    (cm : ComputeMeter rt) (txCtx : TransactionCtx) (instrCtx : InstructionCtx)
    (programAcct : BorrowedAccount) (program : Account) :
  CurrentInstruction txCtx = Some instrCtx ->
  BorrowLastProgramAccount rt instrCtx txCtx = (Ok programAcct, txCtx) ->
  Accounts txCtx !! IndexInTransaction programAcct = Some program ->
  let run := BpfLoaderProgramExecute host rt execCtx (cm, txCtx) in
  (Owner program <> NativeLoaderAddr rt ->
   run = (if Executable program then Ok tt
          else Err InstrErrUnsupportedProgramId, (cm, txCtx))) /\
  (Owner program = NativeLoaderAddr rt ->
   ProgramKey instrCtx = BpfLoaderUpgradeableAddr rt ->
   run = match Consume rt (CUUpgradeableLoaderComputeUnits rt) cm with
         | (Ok _, cm') =>
             (fst (ProcessUpgradeableLoaderInstruction host execCtx txCtx),
              (cm',
               snd (ProcessUpgradeableLoaderInstruction host execCtx txCtx)))
         | (Err e, cm') => (Err e, (cm', txCtx))
         | (Panic p, cm') => (Panic p, (cm', txCtx))
         end) /\
  (Owner program = NativeLoaderAddr rt ->
   ProgramKey instrCtx <> BpfLoaderUpgradeableAddr rt ->
   is_Ok (fst run) = false /\ snd (snd run) = txCtx).
Proof.
  intros Hcur Hborrow HA run. subst run. unfold BpfLoaderProgramExecute.
  rewrite (bind_Ok _ _ _ _ _
             (onTransaction_Ok rt _ cm _ _ _ (Current_Ok _ _ Hcur))).
  rewrite (bind_Ok _ _ _ _ _ (onTransaction_Ok rt _ cm _ _ _ Hborrow)).
  rewrite (bind_Ok _ _ _ _ _
             (onTransaction_Ok rt _ cm _ _ _ (Owner_Ok _ _ _ HA))).
  split; [|split].
  - intros Hown. rewrite bool_decide_false by exact Hown.
    rewrite (bind_Ok _ _ _ _ _
               (onTransaction_Ok rt _ cm _ _ _ (IsExecutable_Ok _ _ _ HA))).
    by destruct (Executable program).
  - intros Hown Hid. rewrite bool_decide_true by exact Hown.
    rewrite (bind_Ok _ _ _ _ _
               (onTransaction_Ok rt _ cm _ _ _ (LastProgramKey_Ok _ _))).
    rewrite bool_decide_true by exact Hid.
    unfold bind, ComputeMeter_Consume, onTransaction. simpl.
    destruct (Consume rt _ cm) as [[[]| |] cm']; try reflexivity.
    simpl. by destruct (ProcessUpgradeableLoaderInstruction _ _ _).
  - intros Hown Hid. rewrite bool_decide_true by exact Hown.
    rewrite (bind_Ok _ _ _ _ _
               (onTransaction_Ok rt _ cm _ _ _ (LastProgramKey_Ok _ _))).
    rewrite bool_decide_false by exact Hid.
    unfold bind, ComputeMeter_Consume, fail. simpl.
    repeat match goal with
    | |- context [bool_decide ?p] => destruct (bool_decide p)
    end; simpl; auto;
    match goal with
    | |- context [Consume rt ?c cm] =>
        destruct (Consume rt c cm) as [[[]| |] ?]
    end; simpl; auto.
Qed.

(** A runtime whose meter is the number of units left, and whose program
    account is instruction account 1. *)
Lemma BpfLoaderProgramExecute_cases_witness :
  let rt :=
    {| ComputeMeter := Z;
       NativeLoaderAddr := Fixture.keyOf x01;
       BpfLoaderUpgradeableAddr := Fixture.loaderId;
       BpfLoaderAddr := Fixture.keyOf x03;
       BpfLoaderDeprecatedAddr := Fixture.keyOf x04;
       CUUpgradeableLoaderComputeUnits := 2370;
       CUDefaultLoaderComputeUnits := 570;
       CUDeprecatedLoaderComputeUnits := 1140;
       BorrowLastProgramAccount :=
         fun instrCtx => BorrowInstructionAccount instrCtx 1;
       Consume :=
         fun cost cm =>
           if cm <? cost then (Err (ErrHost "ComputationalBudgetExceeded"), 0)
           else (Ok tt, cm - cost) |} in
  BpfLoaderProgramExecute Fixture.permissiveHost rt
    (Fixture.execCtxWith (fun _ => 10) 42) (1000, Fixture.upgradeE3)
  = (Ok tt, (1000, Fixture.upgradeE3)).
Proof.
  intros rt.
  refine (proj1 (BpfLoaderProgramExecute_cases Fixture.permissiveHost rt
                   (Fixture.execCtxWith (fun _ => 10) 42) 1000
                   Fixture.upgradeE3 Fixture.upgradeInstr
                   (Fixture.ia 1 false true) _ eq_refl eq_refl eq_refl) _).
  vm_compute. discriminate.
Defined.

(** ** verifydata: the slots given to the workers *)

Lemma run_loop_tiles (n : nat) (step slotHi cursor : Z) :
  0 < step -> 0 <= cursor <= slotHi -> slotHi + step < 2 ^ 64 ->
  tiles cursor (run_loop n step slotHi cursor)
    (Z.min slotHi (cursor + Z.of_nat n * step)).
Proof.
  intros Hstep. revert cursor.
  induction n as [|n IH]; intros cursor Hc Hmax.
  - simpl. lia.
  - cbn [run_loop]. unfold addU64. rewrite Z.mod_small by lia.
    destruct (Z.ltb_spec slotHi (cursor + step)) as [Hcut|Hfit].
    + destruct (Z.leb_spec slotHi cursor) as [Hdone|Hmore].
      * simpl. lia.
      * cbn [tiles wLo stop]. split; [reflexivity|]. split; [lia|].
        replace (Z.min slotHi (cursor + Z.of_nat (S n) * step))
          with (Z.min slotHi (slotHi + Z.of_nat n * step)) by nia.
        apply IH; lia.
    + destruct (Z.leb_spec (cursor + step) cursor) as [Hdone|Hmore]; [lia|].
      cbn [tiles wLo stop]. split; [reflexivity|]. split; [lia|].
      replace (Z.min slotHi (cursor + Z.of_nat (S n) * step))
        with (Z.min slotHi (cursor + step + Z.of_nat n * step)) by nia.
      apply IH; lia.
Qed.

(** X18. The slots [run] hands out. For slot bounds below 2^63 and in
    order, the workers started are given non-empty ranges that follow one
    another from slotLo on without gap or overlap. With at most as many
    workers as slots the ranges end (total mod workers) slots before
    slotHi: the slots of the remainder are given to no worker. With more
    workers than slots the ranges end at slotHi. A worker count of 0 stands
    for the number of CPUs. When slotLo is above slotHi, [run] panics. *)
Theorem run_workers_tile_the_slots (numCPU flagWorkers slotLo slotHi : Z) :
  0 < numCPU ->
  0 <= flagWorkers ->
  0 <= slotLo ->
  slotHi < 2 ^ 63 ->
  let workers := if flagWorkers =? 0 then numCPU else flagWorkers in
  let total := slotHi - slotLo in
  (slotHi < slotLo -> run_workers numCPU flagWorkers slotLo slotHi = None) /\
  (slotLo <= slotHi ->
   exists ws,
     run_workers numCPU flagWorkers slotLo slotHi = Some ws /\
     tiles slotLo ws
       (if workers <=? total then slotHi - total mod workers else slotHi)).
Proof.
  intros Hcpu Hflag Hlo Hhi workers total. unfold run_workers.
  fold workers. fold total.
  assert (Hw : 0 < workers)
    by (subst workers; destruct (Z.eqb_spec flagWorkers 0); lia).
  split.
  - intros Hbad. destruct (Z.ltb_spec slotHi slotLo); [reflexivity | lia].
  - intros Hord. destruct (Z.ltb_spec slotHi slotLo); [lia|].
    destruct (Z.eqb_spec workers 0); [lia|].
    eexists. split; [reflexivity|].
    assert (Hq : 0 <= total / workers) by (apply Z.div_pos; lia).
    assert (Hm : 0 <= total mod workers < workers)
      by (apply Z.mod_pos_bound; lia).
    pose proof (Z.div_mod total workers ltac:(lia)) as Hdm.
    set (step := if total / workers =? 0 then 1 else total / workers).
    assert (Hend : Z.min slotHi (slotLo + Z.of_nat (Z.to_nat workers) * step)
                   = if workers <=? total then slotHi - total mod workers
                     else slotHi).
    { rewrite Z2Nat.id by lia. subst step.
      destruct (Z.leb_spec workers total) as [Hle|Hgt].
      - assert (1 <= total / workers)
          by (apply Z.div_le_lower_bound; lia).
        destruct (Z.eqb_spec (total / workers) 0); [lia|]. nia.
      - rewrite Z.div_small by lia. simpl. lia. }
    rewrite <- Hend. apply run_loop_tiles.
    + subst step. destruct (Z.eqb_spec (total / workers) 0); lia.
    + lia.
    + subst step. destruct (Z.eqb_spec (total / workers) 0); [lia|].
      assert (total / workers <= total)
        by (apply Z.div_le_upper_bound; nia).
      lia.
Qed.

(** Ten slots for three workers: three slots each, and slot 9 for none. *)
Lemma run_workers_tile_the_slots_witness :
  run_workers 8 3 0 10
  = Some [{| wLo := 0; stop := 3 |}; {| wLo := 3; stop := 6 |};
          {| wLo := 6; stop := 9 |}] /\
  tiles 0 [{| wLo := 0; stop := 3 |}; {| wLo := 3; stop := 6 |};
           {| wLo := 6; stop := 9 |}] 9.
Proof.
  destruct (run_workers_tile_the_slots 8 3 0 10) as [_ H]; try lia.
  destruct H as (ws & Hrun & Ht); [lia|].
  vm_compute in Hrun. injection Hrun as <-. split; [reflexivity | exact Ht].
Defined.

Lemma run_loop_shares (n : nat) (step slotHi cursor : Z) :
  0 < step -> 0 <= cursor -> cursor + Z.of_nat n * step <= slotHi ->
  slotHi + step < 2 ^ 64 ->
  length (run_loop n step slotHi cursor) = n /\
  Forall (fun w => stop w - wLo w = step) (run_loop n step slotHi cursor).
Proof.
  intros Hstep. revert cursor.
  induction n as [|n IH]; intros cursor Hc Hfit Hmax.
  - split; [reflexivity | constructor].
  - cbn [run_loop]. unfold addU64. rewrite Z.mod_small by nia.
    destruct (Z.ltb_spec slotHi (cursor + step)) as [Hcut|_]; [nia|].
    destruct (Z.leb_spec (cursor + step) cursor) as [Hdone|_]; [lia|].
    destruct (IH (cursor + step)) as [Hlen Hall]; [lia | nia | lia |].
    split; [simpl; by rewrite Hlen|].
    constructor; [simpl; lia | exact Hall].
Qed.

(** X19. The shares of the workers. For slot bounds below 2^63 and in
    order: with at most as many workers as slots, [run] starts every worker
    and gives each of them total / workers slots; with more workers than
    slots it starts one worker for each slot. *)
Theorem run_workers_shares (numCPU flagWorkers slotLo slotHi : Z) :
  0 < numCPU ->
  0 <= flagWorkers ->
  0 <= slotLo <= slotHi ->
  slotHi < 2 ^ 63 ->
  let workers := if flagWorkers =? 0 then numCPU else flagWorkers in
  let total := slotHi - slotLo in
  exists ws,
    run_workers numCPU flagWorkers slotLo slotHi = Some ws /\
    if workers <=? total
    then length ws = Z.to_nat workers /\
         Forall (fun w => stop w - wLo w = total / workers) ws
    else length ws = Z.to_nat total /\
         Forall (fun w => stop w - wLo w = 1) ws.
Proof.
  intros Hcpu Hflag Hord Hhi workers total. unfold run_workers.
  fold workers. fold total.
  assert (Hw : 0 < workers)
    by (subst workers; destruct (Z.eqb_spec flagWorkers 0); lia).
  destruct (Z.ltb_spec slotHi slotLo); [lia|].
  destruct (Z.eqb_spec workers 0); [lia|].
  eexists. split; [reflexivity|].
  pose proof (Z.div_mod total workers ltac:(lia)) as Hdm.
  assert (Hm : 0 <= total mod workers < workers)
    by (apply Z.mod_pos_bound; lia).
  destruct (Z.leb_spec workers total) as [Hle|Hgt].
  - assert (Hq : 1 <= total / workers) by (apply Z.div_le_lower_bound; lia).
    assert (Hq' : total / workers <= total)
      by (apply Z.div_le_upper_bound; nia).
    destruct (Z.eqb_spec (total / workers) 0); [lia|].
    apply run_loop_shares; [lia | lia | rewrite Z2Nat.id by lia; nia | lia].
  - rewrite Z.div_small by lia. simpl (if 0 =? 0 then _ else _).
    assert (Hsplit : exists k, Z.to_nat workers = (Z.to_nat total + S k)%nat)
      by (exists (Z.to_nat workers - Z.to_nat total - 1)%nat; lia).
    destruct Hsplit as [k ->].
    assert (Hgen : forall m cursor,
              0 <= cursor -> cursor + Z.of_nat m = slotHi ->
              length (run_loop (m + S k) 1 slotHi cursor) = m /\
              Forall (fun w => stop w - wLo w = 1)
                (run_loop (m + S k) 1 slotHi cursor)).
    { induction m as [|m IH]; intros cursor Hc Hend.
      - cbn [Nat.add run_loop]. unfold addU64. rewrite Z.mod_small by lia.
        destruct (Z.ltb_spec slotHi (cursor + 1)); [|lia].
        destruct (Z.leb_spec slotHi cursor); [|lia].
        split; [reflexivity | constructor].
      - cbn [Nat.add run_loop]. unfold addU64. rewrite Z.mod_small by lia.
        destruct (Z.ltb_spec slotHi (cursor + 1)); [lia|].
        destruct (Z.leb_spec (cursor + 1) cursor); [lia|].
        destruct (IH (cursor + 1)) as [Hlen Hall]; [lia | lia |].
        split; [simpl; by rewrite Hlen|].
        constructor; [simpl; lia | exact Hall]. }
    apply Hgen; [lia|]. subst total. lia.
Qed.

(** Ten slots for three workers are three slots each; two slots for eight
    workers are one slot for each of two workers. *)
Lemma run_workers_shares_witness :
  run_workers 8 3 0 10
  = Some [{| wLo := 0; stop := 3 |}; {| wLo := 3; stop := 6 |};
          {| wLo := 6; stop := 9 |}] /\
  run_workers 8 0 5 7
  = Some [{| wLo := 5; stop := 6 |}; {| wLo := 6; stop := 7 |}].
Proof.
  destruct (run_workers_shares 8 3 0 10) as (ws & Hrun & _); try lia.
  destruct (run_workers_shares 8 0 5 7) as (ws' & Hrun' & _); try lia.
  split; vm_compute; reflexivity.
Defined.

(** ** The marshaller after the decoder, and Write after InitializeBuffer *)

(** X20. The marshaller panics on a state whose tag is not one of the four
    known ones, and on no other state; it returns no error. A state that was
    decoded from an account is marshalled without panic, into fewer bytes
    than it was decoded from. *)
Theorem marshal_of_a_decoded_state :
  (forall s,
     marshalUpgradeableLoaderState s = Panic InvalidLoaderStatePanic <->
     ~ (0 <= Type_ s <= 3)) /\
  (forall s e, marshalUpgradeableLoaderState s <> Err e) /\
  (forall data s,
     unmarshalUpgradeableLoaderState data = Ok s ->
     exists bs, marshalUpgradeableLoaderState s = Ok bs /\
                (length bs < length data)%nat).
Proof.
  assert (Hcases : forall s,
            (0 <= Type_ s <= 3 /\
             exists bs, marshalUpgradeableLoaderState s = Ok bs) \/
            (~ (0 <= Type_ s <= 3) /\
             marshalUpgradeableLoaderState s = Panic InvalidLoaderStatePanic)).
  { intros s.
    unfold marshalUpgradeableLoaderState,
      UpgradeableLoaderState_MarshalWithEncoder,
      UpgradeableLoaderStateBuffer_MarshalWithEncoder,
      UpgradeableLoaderStateProgram_MarshalWithEncoder,
      UpgradeableLoaderStateProgramData_MarshalWithEncoder,
      WriteBytes, WriteUint64, bind, ret, panic,
      UpgradeableLoaderStateTypeUninitialized, UpgradeableLoaderStateTypeBuffer,
      UpgradeableLoaderStateTypeProgram, UpgradeableLoaderStateTypeProgramData.
    destruct (Z.eqb_spec (Type_ s) 0); [left; split; [lia | eauto]|].
    destruct (Z.eqb_spec (Type_ s) 1).
    { left. split; [lia|]. destruct (AuthorityAddress _); eauto. }
    destruct (Z.eqb_spec (Type_ s) 2); [left; split; [lia | eauto]|].
    destruct (Z.eqb_spec (Type_ s) 3).
    { left. split; [lia|]. destruct (UpgradeAuthorityAddress _); eauto. }
    right. split; [lia | reflexivity]. }
  split; [|split].
  - intros s. destruct (Hcases s) as [[Ht (bs & Hbs)]|[Ht Hp]].
    + rewrite Hbs. split; [discriminate | tauto].
    + tauto.
  - intros s e. destruct (Hcases s) as [[_ (bs & Hbs)]|[_ Hp]]; congruence.
  - intros data s Hs. pose proof (unmarshal_decoded_from _ _ Hs) as Hd.
    destruct (Hcases s) as [[_ (bs & Hbs)]|[Ht _]].
    + exists bs. split; [exact Hbs|].
      destruct (le_lt_dec (length data) (length bs)) as [Hle|]; [|assumption].
      exfalso. apply (marshal_too_short _ _ _ Hd Hbs).
      revert Hd. unfold decoded_from. intuition lia.
    + exfalso. apply Ht. revert Hd. unfold decoded_from. intuition lia.
Qed.

Lemma InitializeBuffer_Ok_inv (host : Host) (execCtx : ExecutionCtx)
    (instrCtx : InstructionCtx) (txCtx txCtx' : TransactionCtx) :
  UpgradeableLoaderInitializeBuffer host execCtx instrCtx txCtx = (Ok tt, txCtx') ->
  exists ia0 ia1 a0 a1 st,
    InstructionAccounts instrCtx !! 0%nat = Some ia0 /\
    InstructionAccounts instrCtx !! 1%nat = Some ia1 /\
    Accounts txCtx !! IndexInTransaction ia0 = Some a0 /\
    Accounts txCtx !! IndexInTransaction ia1 = Some a1 /\
    unmarshalUpgradeableLoaderState (Data a0) = Ok st /\
    Type_ st = UpgradeableLoaderStateTypeUninitialized /\
    txCtx' = withAccount (IndexInTransaction ia0)
               {| Key := Key a0; Owner := Owner a0; Lamports := Lamports a0;
                  Data := go_copy (Data a0) (Key a1);
                  Executable := Executable a0 |} txCtx.
Proof.
  unfold UpgradeableLoaderInitializeBuffer. intros H.
  do 4 inv_bind H. inv_if H. do 2 inv_bind H.
  unfold setUpgradeableLoaderAccountState in H. inv_bind H.
  unfold SetState in H. inv_mut H. same_lookups.
  match goal with Hc : Ok _ = Ok _ |- _ => injection Hc as <- end.
  match goal with
  | Hc : negb (_ =? _) = false |- _ => apply negb_false_iff, Z.eqb_eq in Hc
  end.
  do 5 eexists. repeat (split; [eassumption|]). reflexivity.
Qed.

(** X21. A Write after InitializeBuffer fails. After a successful
    InitializeBuffer the buffer account begins with the bytes of the
    authority's key, so its tag is what the first four bytes of that key
    say. Unless they say 1, a Write of whatever bytes, by whatever signer,
    then finds no Buffer state and returns InvalidAccountData, and the
    accounts stay as InitializeBuffer left them. *)
Theorem Write_after_InitializeBuffer_fails
    (host : Host) (execCtx : ExecutionCtx) (instrCtx : InstructionCtx)
    (write : UpgradeableLoaderInstrWrite) (txCtx txCtx' : TransactionCtx)
    (ia1 : InstructionAccount) (a1 : Account) :
  UpgradeableLoaderInitializeBuffer host execCtx instrCtx txCtx = (Ok tt, txCtx') ->
  InstructionAccounts instrCtx !! 1%nat = Some ia1 ->
  Accounts txCtx !! IndexInTransaction ia1 = Some a1 ->
  (4 <= length (Key a1))%nat ->
  le_decode (take 4 (Key a1)) <> UpgradeableLoaderStateTypeBuffer ->
  UpgradeableLoaderWrite execCtx instrCtx write txCtx'
  = (Err InstrErrInvalidAccountData, txCtx').
Proof.
  intros Hinit H1 HA1 Hk Htag.
  apply InitializeBuffer_Ok_inv in Hinit
    as (ia0 & ia1' & a0 & a1' & st & H0 & H1' & HA0 & HA1' & Hst & Hty & ->).
  assert (ia1' = ia1) by congruence. subst ia1'.
  assert (a1' = a1) by congruence. subst a1'.
  pose proof (unmarshal_decoded_from _ _ Hst) as Hd.
  assert (Hlen : (4 <= length (Data a0))%nat)
    by (revert Hd; unfold decoded_from; intuition lia).
  set (a0' := {| Key := Key a0; Owner := Owner a0; Lamports := Lamports a0;
                 Data := go_copy (Data a0) (Key a1);
                 Executable := Executable a0 |}).
  assert (HA0' : Accounts (withAccount (IndexInTransaction ia0) a0' txCtx)
                 !! IndexInTransaction ia0 = Some a0').
  { erewrite lookup_withAccount by eassumption. by rewrite decide_True. }
  eapply Write_not_Buffer; [exact H0 | exact H1 | exact HA0' |].
  intros st' Hst'. apply unmarshal_Type in Hst'. rewrite Hst'.
  subst a0'. cbn [Data]. unfold go_copy.
  rewrite take_app_le by (rewrite length_take; lia).
  rewrite take_take. by replace (4 `min` length (Data a0))%nat with 4%nat by lia.
Qed.

(** The spec's scenario E1 on a buffer account of 41 zero bytes: after
    InitializeBuffer with the authority of the fixtures, whose key begins
    with 07 07 07 07, the Write of DE AD BE EF by that authority fails. *)
Lemma Write_after_InitializeBuffer_fails_witness :
  let execCtx := Fixture.execCtxWith (fun _ => 10) 42 in
  let instrCtx := Fixture.bufferInstr true [] in
  let init :=
    UpgradeableLoaderInitializeBuffer Fixture.permissiveHost execCtx instrCtx
      (Fixture.bufferTx true [] (replicate 41 x00)) in
  fst init = Ok tt /\
  fst (UpgradeableLoaderWrite execCtx instrCtx
         {| Offset := 0; Bytes := [xde; xad; xbe; xef] |} (snd init))
  = Err InstrErrInvalidAccountData.
Proof.
  intros execCtx instrCtx init. split; [vm_compute; reflexivity|].
  erewrite (Write_after_InitializeBuffer_fails Fixture.permissiveHost execCtx
              instrCtx _ (Fixture.bufferTx true [] (replicate 41 x00))
              (snd init));
    [reflexivity | vm_compute; reflexivity | reflexivity | reflexivity
    | simpl; lia | vm_compute; discriminate].
Defined.

(** ** The dispatcher as a whole *)

(** X22. No instruction of the upgradeable loader changes the set of
    accounts or the identity of an account. Whatever the instruction data
    and whatever the dispatcher returns, the transaction has the accounts it
    had and the same current instruction; no account has changed its key,
    its owner or its executable flag; and the accounts other than
    instruction accounts 0, 2 and 3 of the instruction being executed are
    what they were. *)
Theorem loader_instructions_keep_the_accounts
    (host : Host) (execCtx : ExecutionCtx) (txCtx : TransactionCtx) :
  changes_only
    (fun j => exists cur,
                CurrentInstruction txCtx = Some cur /\
                instructionAccountAt cur [0; 2; 3]%nat j)
    keeps_identity txCtx
    (snd (ProcessUpgradeableLoaderInstruction host execCtx txCtx)).
Proof.
  unfold ProcessUpgradeableLoaderInstruction.
  eapply changes_bind; [exact keeps_identity_trans | |].
  { eapply changes_ro;
      [exact keeps_identity_refl | apply readonly_CurrentInstructionCtx]. }
  intros instrCtx tx1 Hcur. apply Current_inv in Hcur as [-> Hcur]. cbv zeta.
  destruct (ReadUint32 (InstrData instrCtx)) as [[instrType| |] decoder];
    [| apply changes_only_refl, keeps_identity_refl ..].
  destruct (instrType =? UpgradeableLoaderInstrTypeInitializeBuffer).
  { unfold UpgradeableLoaderInitializeBuffer.
    footprint keeps_identity_refl keeps_identity_trans. }
  destruct (instrType =? UpgradeableLoaderInstrTypeWrite).
  { destruct (UpgradeableLoaderInstrWrite_UnmarshalWithDecoder host decoder)
      as [[write| |] ?]; [| apply changes_only_refl, keeps_identity_refl ..].
    unfold UpgradeableLoaderWrite, writeProgramData.
    footprint keeps_identity_refl keeps_identity_trans. }
  destruct (instrType =? UpgradeableLoaderInstrTypeDeployWithMaxDataLen).
  { destruct (UpgradeableLoaderInstrDeployWithMaxDataLen_UnmarshalWithDecoder
                decoder)
      as [[deploy| |] ?]; [| apply changes_only_refl, keeps_identity_refl ..].
    assert (Hstop :
              snd (UpgradeableLoaderDeployWithMaxDataLen host execCtx instrCtx
                     deploy txCtx) = txCtx /\
              is_Ok (fst (UpgradeableLoaderDeployWithMaxDataLen host execCtx
                            instrCtx deploy txCtx)) = false)
      by deploy_stops.
    rewrite (proj1 Hstop). apply changes_only_refl, keeps_identity_refl. }
  destruct (instrType =? UpgradeableLoaderInstrTypeUpgrade);
    [| apply changes_only_refl, keeps_identity_refl].
  unfold UpgradeableLoaderUpgrade.
  eapply changes_bind; [exact keeps_identity_trans | |].
  { eapply changes_ro; [exact keeps_identity_refl|].
    apply readonly_Upgrade_checks. }
  intros loc tx1 Hchecks.
  apply Upgrade_checks_inv in Hchecks
    as [-> (ia0 & ia2 & ia6 & pd & buf & auth & bst & Hc)].
  destruct Hc as (H0 & H2 & _ & _ & _ & _ & _ & _ & _ & _ & ->).
  unfold UpgradeableLoaderUpgrade_commit.
  cbn [loc_clock loc_authorityKey loc_buffer loc_bufferLamports
       loc_bufferDataOffset loc_bufferDataLen loc_programData
       loc_programDataBalanceRequired].
  footprint keeps_identity_refl keeps_identity_trans.
Qed.

(** ** The errors of Upgrade *)

(** One step of a run recorded in the hypothesis [H]. *)
Ltac hstep H := erewrite bind_Ok in H by eauto with loader.

Lemma bind_bind {S A B C : Type} (m : SR S A) (k1 : A -> SR S B)
    (k2 : B -> SR S C) (s : S) :
  bind (bind m k1) k2 s = bind m (fun a => bind (k1 a) k2) s.
Proof. unfold bind. by destruct (m s) as [[a| |] s1]. Qed.

(** X23. The errors of Upgrade in the order of its checks, for a call whose
    instruction accounts 0, 1, 2, 4, 5 and 6 are in place with the rent and
    clock sysvars at 4 and 5. In this order: a program account that is not
    executable gives AccountNotExecutable, one that is not writable
    InvalidArgument, one of another owner IncorrectProgramId, one without a
    Program state InvalidAccountData, one that points elsewhere
    InvalidArgument; a buffer that decodes to another state than Buffer
    gives InvalidArgument, one of another or no authority
    IncorrectAuthority, an authority that did not sign
    MissingRequiredSignature, a buffer without program bytes
    InvalidAccountData; a program-data account too short for them gives
    AccountDataTooSmall, too few lamports InsufficientFunds; a program-data
    account without a ProgramData state gives InvalidAccountData, one of
    the clock's slot InvalidArgument, one without authority Immutable, one
    of another authority IncorrectAuthority. Each error is returned when
    the checks before it have passed, and leaves the accounts as they
    were. *)
Theorem Upgrade_errors_in_order
    (host : Host) (execCtx : ExecutionCtx) (instrCtx : InstructionCtx)
    (txCtx : TransactionCtx)
    (ia0 ia1 ia2 ia4 ia5 ia6 : InstructionAccount)
    (pd program buf rent clock auth : Account) :
  InstructionAccounts instrCtx !! 0%nat = Some ia0 ->
  InstructionAccounts instrCtx !! 1%nat = Some ia1 ->
  InstructionAccounts instrCtx !! 2%nat = Some ia2 ->
  InstructionAccounts instrCtx !! 4%nat = Some ia4 ->
  InstructionAccounts instrCtx !! 5%nat = Some ia5 ->
  InstructionAccounts instrCtx !! 6%nat = Some ia6 ->
  Accounts txCtx !! IndexInTransaction ia0 = Some pd ->
  Accounts txCtx !! IndexInTransaction ia1 = Some program ->
  Accounts txCtx !! IndexInTransaction ia2 = Some buf ->
  Accounts txCtx !! IndexInTransaction ia4 = Some rent ->
  Accounts txCtx !! IndexInTransaction ia5 = Some clock ->
  Accounts txCtx !! IndexInTransaction ia6 = Some auth ->
  Key rent = SysvarRentAddr host ->
  Key clock = SysvarClockAddr host ->
  let fails e :=
    UpgradeableLoaderUpgrade host execCtx instrCtx txCtx = (Err e, txCtx) in
  (Executable program = false -> fails InstrErrAccountNotExecutable) /\
  (Executable program = true ->
   (IsWritable ia1 = false -> fails InstrErrInvalidArgument) /\
   (IsWritable ia1 = true ->
    (Owner program <> ProgramKey instrCtx -> fails InstrErrIncorrectProgramId) /\
    (Owner program = ProgramKey instrCtx ->
     (~ decodable (Data program) -> fails InstrErrInvalidAccountData) /\
     (forall pst,
        unmarshalUpgradeableLoaderState (Data program) = Ok pst ->
        (Type_ pst <> UpgradeableLoaderStateTypeProgram ->
         fails InstrErrInvalidAccountData) /\
        (Type_ pst = UpgradeableLoaderStateTypeProgram ->
         (ProgramDataAddress (Program pst) <> Key pd ->
          fails InstrErrInvalidArgument) /\
         (ProgramDataAddress (Program pst) = Key pd ->
          forall bst,
            unmarshalUpgradeableLoaderState (Data buf) = Ok bst ->
            (Type_ bst <> UpgradeableLoaderStateTypeBuffer ->
             fails InstrErrInvalidArgument) /\
            (Type_ bst = UpgradeableLoaderStateTypeBuffer ->
             (AuthorityAddress (Buffer bst) <> Some (Key auth) ->
              fails InstrErrIncorrectAuthority) /\
             (AuthorityAddress (Buffer bst) = Some (Key auth) ->
              (IsSigner ia6 = false ->
               fails InstrErrMissingRequiredSignature) /\
              (IsSigner ia6 = true ->
               (len (Data buf) <= upgradeableLoaderSizeOfBufferMetaData ->
                fails InstrErrInvalidAccountData) /\
               (upgradeableLoaderSizeOfBufferMetaData < len (Data buf) ->
                let needed :=
                  int_of_uint64
                    (upgradeableLoaderSizeOfProgramData
                       (len (Data buf)
                        - upgradeableLoaderSizeOfBufferMetaData)) in
                let required :=
                  Z.max (MinimumBalance (RentSysvar execCtx) (len (Data pd)))
                    1 in
                (len (Data pd) < needed ->
                 fails InstrErrAccountDataTooSmall) /\
                (needed <= len (Data pd) ->
                 (SaturatingAddU64 (Lamports pd) (Lamports buf) < required ->
                  fails InstrErrInsufficientFunds) /\
                 (required <= SaturatingAddU64 (Lamports pd) (Lamports buf) ->
                  (~ decodable (Data pd) ->
                   fails InstrErrInvalidAccountData) /\
                  (forall pdst,
                     unmarshalUpgradeableLoaderState (Data pd) = Ok pdst ->
                     (Type_ pdst <> UpgradeableLoaderStateTypeProgramData ->
                      fails InstrErrInvalidAccountData) /\
                     (Type_ pdst = UpgradeableLoaderStateTypeProgramData ->
                      (Slot (ProgramData pdst)
                       = ClockSlot (ClockSysvar execCtx) ->
                       fails InstrErrInvalidArgument) /\
                      (Slot (ProgramData pdst)
                       <> ClockSlot (ClockSysvar execCtx) ->
                       (UpgradeAuthorityAddress (ProgramData pdst) = None ->
                        fails InstrErrImmutable) /\
                       (forall k,
                          UpgradeAuthorityAddress (ProgramData pdst) = Some k ->
                          k <> Key auth ->
                          fails InstrErrIncorrectAuthority)))))))))))))))).
Proof.
  intros H0 H1 H2 H4 H5 H6 HA0 HA1 HA2 HA4 HA5 HA6 Krent Kclock fails.
  subst fails. cbv beta zeta.
  remember (UpgradeableLoaderUpgrade_checks host execCtx instrCtx txCtx)
    as checks eqn:HC.
  assert (Hfail : forall e,
            checks = (Err e, txCtx) ->
            UpgradeableLoaderUpgrade host execCtx instrCtx txCtx
            = (Err e, txCtx)).
  { intros e He. unfold UpgradeableLoaderUpgrade.
    apply bind_Err. by rewrite <- HC. }
  assert (Hpass : forall loc,
            checks = (Ok loc, txCtx) ->
            UpgradeableLoaderUpgrade host execCtx instrCtx txCtx
            = UpgradeableLoaderUpgrade_commit host execCtx instrCtx loc txCtx).
  { intros loc Hl. unfold UpgradeableLoaderUpgrade.
    apply bind_Ok. by rewrite <- HC. }
  unfold UpgradeableLoaderUpgrade_checks, checkAcctForRentSysvar,
    checkAcctForClockSysvar in HC.
  repeat hstep HC.
  split; [intros Hexe; apply Hfail; by rewrite HC, Hexe|].
  intros Hexe. rewrite Hexe in HC. cbn [negb] in HC. hstep HC.
  split; [intros Hw; apply Hfail; by rewrite HC, Hw|].
  intros Hw. rewrite Hw in HC. cbn [negb] in HC. repeat hstep HC.
  split.
  { intros Hown. apply Hfail.
    by rewrite HC, bool_decide_false by exact Hown. }
  intros Hown. rewrite bool_decide_true in HC by exact Hown.
  cbn [negb] in HC. hstep HC.
  split.
  { intros Hnd. apply Hfail.
    by rewrite HC, (unmarshal_not_decodable _ Hnd). }
  intros pst Hpst. hstep HC.
  split.
  { intros Hty. apply Hfail. apply Z.eqb_neq in Hty. by rewrite HC, Hty. }
  intros Hty. rewrite Hty, Z.eqb_refl in HC.
  split.
  { intros Haddr. apply Hfail.
    by rewrite HC, bool_decide_false by exact Haddr. }
  intros Haddr. rewrite bool_decide_true in HC by exact Haddr.
  cbn [negb] in HC. repeat hstep HC.
  intros bst Hbst. rewrite Hbst in HC. hstep HC.
  split.
  { intros Hbty. apply Hfail. apply Z.eqb_neq in Hbty. by rewrite HC, Hbty. }
  intros Hbty. rewrite Hbty, Z.eqb_refl in HC.
  split.
  { intros Hau. apply Hfail. rewrite HC.
    destruct (AuthorityAddress (Buffer bst)) as [k|]; [|reflexivity].
    by rewrite bool_decide_false by congruence. }
  intros Hau. rewrite Hau, bool_decide_true in HC by reflexivity.
  cbn [negb] in HC. rewrite bind_bind in HC. hstep HC.
  split; [intros Hsig; apply Hfail; by rewrite HC, Hsig|].
  intros Hsig. rewrite Hsig in HC. cbn [negb] in HC. repeat hstep HC.
  assert (Hmax : forall m, (if 1 <? m then m else 1) = Z.max m 1)
    by (intros m; destruct (Z.ltb_spec 1 m); lia).
  unfold ReadRentSysvar, ReadClockSysvar in HC.
  split.
  { intros Hl. apply Hfail. rewrite HC.
    unfold SaturatingSubU64, upgradeableLoaderSizeOfBufferMetaData in *.
    destruct (Z.ltb_spec (len (Data buf)) 37); [reflexivity|].
    replace (len (Data buf) - 37) with 0 by lia. reflexivity. }
  intros Hl.
  assert (Hsub : SaturatingSubU64 (len (Data buf))
                   upgradeableLoaderSizeOfBufferMetaData
                 = len (Data buf) - upgradeableLoaderSizeOfBufferMetaData).
  { unfold SaturatingSubU64.
    destruct (Z.ltb_spec (len (Data buf))
                upgradeableLoaderSizeOfBufferMetaData); [lia | reflexivity]. }
  rewrite !Hsub in HC.
  assert (Hcond : (len (Data buf) <? upgradeableLoaderSizeOfBufferMetaData)
                  || (len (Data buf) - upgradeableLoaderSizeOfBufferMetaData
                      =? 0) = false).
  { apply orb_false_intro; [apply Z.ltb_ge | apply Z.eqb_neq]; lia. }
  rewrite Hcond in HC. repeat hstep HC.
  split.
  { intros Hs. apply Hfail. rewrite HC.
    match goal with
    | |- context [?a <? ?b] => destruct (Z.ltb_spec a b); [reflexivity | lia]
    end. }
  intros Hs.
  match type of HC with
  | context [?a <? ?b] =>
      destruct (Z.ltb_spec a b) as [|_] in HC; [lia|]
  end.
  hstep HC. rewrite !Hmax in HC.
  split.
  { intros Hf. apply Hfail. rewrite HC.
    match goal with
    | |- context [?a <? ?b] => destruct (Z.ltb_spec a b); [reflexivity | lia]
    end. }
  intros Hf.
  match type of HC with
  | context [?a <? ?b] =>
      destruct (Z.ltb_spec a b) as [|_] in HC; [lia|]
  end.
  rewrite (Hpass _ HC). clear Hfail Hpass HC checks.
  remember (UpgradeableLoaderUpgrade_commit host execCtx instrCtx _ txCtx)
    as run eqn:HR.
  unfold UpgradeableLoaderUpgrade_commit in HR.
  cbn [loc_clock loc_authorityKey loc_buffer loc_bufferLamports
       loc_bufferDataOffset loc_bufferDataLen loc_programData
       loc_programDataBalanceRequired] in HR.
  hstep HR.
  split; [intros Hnd; by rewrite HR, (unmarshal_not_decodable _ Hnd)|].
  intros pdst Hpdst. hstep HR.
  split; [intros Hty'; apply Z.eqb_neq in Hty'; by rewrite HR, Hty'|].
  intros Hty'. rewrite Hty', Z.eqb_refl in HR.
  split; [intros Hslot; by rewrite HR, Hslot, Z.eqb_refl|].
  intros Hslot.
  assert (Hne : (ClockSlot (ClockSysvar execCtx) =? Slot (ProgramData pdst))
                = false) by (apply Z.eqb_neq; congruence).
  rewrite Hne in HR.
  split; [intros Hnone; by rewrite HR, Hnone|].
  intros k Hk Hkne. by rewrite HR, Hk, bool_decide_false by exact Hkne.
Qed.

(** A buffer whose authority is another key than that of account 6, on the
    accounts of the spec's scenario E3. *)
Lemma Upgrade_errors_in_order_witness :
  UpgradeableLoaderUpgrade Fixture.permissiveHost
    (Fixture.execCtxWith (fun _ => 10) 42) Fixture.upgradeInstr
    (Fixture.upgradeTx 41 5 7 100
       (Fixture.bufferBytes (Fixture.keyOf x09) ++ [x01; x02]))
  = (Err InstrErrIncorrectAuthority,
     Fixture.upgradeTx 41 5 7 100
       (Fixture.bufferBytes (Fixture.keyOf x09) ++ [x01; x02])).
Proof.
  pose proof (Upgrade_errors_in_order Fixture.permissiveHost
                (Fixture.execCtxWith (fun _ => 10) 42) Fixture.upgradeInstr
                (Fixture.upgradeTx 41 5 7 100
                   (Fixture.bufferBytes (Fixture.keyOf x09) ++ [x01; x02]))
                _ _ _ _ _ _ _ _ _ _ _ _
                eq_refl eq_refl eq_refl eq_refl eq_refl eq_refl
                eq_refl eq_refl eq_refl eq_refl eq_refl eq_refl
                eq_refl eq_refl) as H.
  cbv zeta in H.
  destruct H as [_ H]. specialize (H eq_refl).
  destruct H as [_ H]. specialize (H eq_refl).
  destruct H as [_ H]. specialize (H eq_refl).
  destruct H as [_ H].
  edestruct H as [_ H1]; [vm_compute; reflexivity|].
  specialize (H1 eq_refl). destruct H1 as [_ H1]. specialize (H1 eq_refl).
  edestruct H1 as [_ H2]; [vm_compute; reflexivity|].
  specialize (H2 eq_refl). destruct H2 as [H2 _].
  apply H2. vm_compute. discriminate.
Defined.
